(** * ReplayGain analysis engine (gain_analysis.c): model and verification

    The development follows the C source of the analysis engine

      Winamp SDK/ReplayGainAnalysis/gain_analysis.c

    function by function.  The engine is compiled for 32-bit Windows
    (Winamp plug-in), so [int], [long], [size_t], [Uint32_t] and [Int32_t]
    are all 32 bits wide; integers are kept in [Z] and every place where a
    32-bit value can wrap is written out with [wrap32] / [sint32].

    Floating point is kept behind an interface ([FloatArith]): the header
    gain_analysis.h, which fixes [Float_t] and the status macros, is not
    part of the sources, and [log10] and [ceil] come from the C library.
    Two instances are given further down: IEEE-754 binary64 on the kernel's
    primitive floats, used to run the engine on concrete inputs, and exact
    rational arithmetic, in which additions regroup freely. *)

From Stdlib Require Import ZArith List Lia Bool QArith Qcanon Qround.
From Stdlib Require Import Floats Uint63.
Import ListNotations.

Local Open Scope Z_scope.

(* ------------------------------------------------------------------ *)
(** ** Machine integers (ILP32) *)

(** Value of an unsigned 32-bit object ([size_t], [Uint32_t]) after an
    arithmetic result [z] is stored into it. *)
Definition wrap32 (z : Z) : Z := z mod 2 ^ 32.

(** Value of a signed 32-bit object ([int], [Int32_t]) after [z] is
    converted to it (two's complement). *)
Definition sint32 (z : Z) : Z := (z + 2 ^ 31) mod 2 ^ 32 - 2 ^ 31.

Definition SIZE_MAX : Z := 2 ^ 32 - 1.

(* ------------------------------------------------------------------ *)
(** ** C arrays as lists with integer offsets

    A pointer into an array is a pair of the array and an offset.  Reads
    outside the array give the default element and writes outside leave
    the array unchanged (the C program has no defined behaviour there). *)

Section Arrays.
Context {X : Type}.

Definition load (d : X) (a : list X) (i : Z) : X :=
  if i <? 0 then d else nth (Z.to_nat i) a d.

Fixpoint store_nat (a : list X) (i : nat) (v : X) : list X :=
  match a, i with
  | [], _ => []
  | _ :: t, O => v :: t
  | h :: t, S j => h :: store_nat t j v
  end.

Definition store (a : list X) (i : Z) (v : X) : list X :=
  if i <? 0 then a else store_nat a (Z.to_nat i) v.

(** [n] consecutive elements of [a] starting at offset [off]. *)
Definition slice (d : X) (a : list X) (off : Z) (n : nat) : list X :=
  map (fun k => load d a (off + Z.of_nat k)) (seq 0 n).

(** Write the values [vs] into [a] from offset [off] on. *)
Fixpoint blit (a : list X) (off : Z) (vs : list X) : list X :=
  match vs with
  | [] => a
  | v :: vs' => blit (store a off v) (off + 1) vs'
  end.

(** [memcpy (dst + doff, src + soff, n * sizeof *dst)] and [memmove]: the
    source range is read before anything is written, so the same
    definition serves both. *)
Definition memmove (d : X) (dst : list X) (doff : Z) (src : list X) (soff : Z)
    (n : Z) : list X :=
  blit dst doff (slice d src soff (Z.to_nat n)).

End Arrays.

(* ------------------------------------------------------------------ *)
(** ** Floating-point environment *)

(** Modelled from the spec: gain_analysis.h is absent from the sources, so
    the sample type [Float_t] ("sequence<float>" in the interface) and the
    distinguished result [GAIN_NOT_ENOUGH_SAMPLES] ("NOT_ENOUGH_SAMPLES
    sentinel") are parameters, together with the arithmetic of [double]
    and of [Float_t], the conversions between them, and the two C library
    functions the engine calls. *)
Class FloatArith : Type := {
  Float_t : Type;
  double : Type;
  (** a decimal literal of type [double] *)
  dlit : Q -> double;
  (** conversion of an integer value to [double] *)
  d_of_int : Z -> double;
  dadd : double -> double -> double;
  dsub : double -> double -> double;
  dmul : double -> double -> double;
  ddiv : double -> double -> double;
  (** math.h *)
  log10 : double -> double;
  ceil : double -> double;
  (** the cast [(int) x] of a [double]; the engine stores the result in
      an [int] ([sint32]) *)
  int_of_double : double -> Z;
  (** promotion of a [Float_t] operand in a [double] expression *)
  to_double : Float_t -> double;
  (** the cast [(Float_t) x], also applied to literals stored in a
      [Float_t] object *)
  to_Float_t : double -> Float_t;
  fadd : Float_t -> Float_t -> Float_t;
  fsub : Float_t -> Float_t -> Float_t;
  fmul : Float_t -> Float_t -> Float_t;
  fdiv : Float_t -> Float_t -> Float_t;
  (** the cast [(Float_t) i] of a [size_t] *)
  Float_of_size : Z -> Float_t;
  GAIN_NOT_ENOUGH_SAMPLES : Float_t
}.

(** Modelled from the spec: the status macros of gain_analysis.h
    ("success | failure" of initialize and of feed). *)
Inductive init_status : Type :=
| INIT_GAIN_ANALYSIS_ERROR
| INIT_GAIN_ANALYSIS_OK.

Inductive gain_status : Type :=
| GAIN_ANALYSIS_ERROR
| GAIN_ANALYSIS_OK.

(* ------------------------------------------------------------------ *)
(** ** Constants of gain_analysis.c *)

Definition YULE_ORDER : Z := 10.
Definition BUTTER_ORDER : Z := 2.
Definition RMS_PERCENTILE : Q := 0.95.
Definition MAX_SAMP_FREQ : Q := 96000.
Definition RMS_WINDOW_TIME : Q := 0.050.
Definition STEPS_per_dB : Q := 100.
Definition MAX_dB : Q := 120.
Definition MAX_ORDER : Z :=
  if BUTTER_ORDER >? YULE_ORDER then BUTTER_ORDER else YULE_ORDER.
(** [(size_t) (MAX_SAMP_FREQ * RMS_WINDOW_TIME)] *)
Definition MAX_SAMPLES_PER_WINDOW : Z := 4800.
Definition PINK_REF : Q := 64.82.
(** Number of buckets of each histogram,
    [(size_t) (STEPS_per_dB * MAX_dB)]. *)
Definition HISTOGRAM_LEN : Z := 12000.

(** A histogram after [memset ( rg->A, 0, sizeof(rg->A) )]. *)
Definition zero_histogram : list Z := repeat 0 (Z.to_nat HISTOGRAM_LEN).
Arguments zero_histogram : simpl never.

(** Filter coefficients, one row per supported sample frequency, as the
    decimal literals of the source. *)
Definition ABYule_lit : list (list Q) :=
  [ [0.006471345933032; (-7.22103125152679); (-0.02567678242161);
     24.7034187975904; 0.049805860704367; (-52.6825833623896);
     (-0.05823001743528); 77.4825736677539; 0.040611847441914;
     (-82.0074753444205); (-0.010912036887501); 63.1566097101925;
     (-0.00901635868667); (-34.889569769245); 0.012448886238123;
     13.2126852760198; (-0.007206683749426); (-3.09445623301669);
     0.002167156433951; 0.340344741393305; (-0.000261819276949)];
    [0.015415414474287; (-7.19001570087017); (-0.07691359399407);
     24.4109412087159; 0.196677418516518; (-51.6306373580801);
     (-0.338855114128061); 75.3978476863163; 0.430094579594561;
     (-79.4164552507386); (-0.415015413747894); 61.0373661948115;
     0.304942508151101; (-33.7446462547014); (-0.166191795926663);
     12.8168791146274; 0.063198189938739; (-3.01332198541437);
     (-0.015003978694525); 0.223619893831468; 0.001748085184539];
    [0.021776466467053; (-5.74819833657784); (-0.062376961003801);
     16.246507961894; 0.107731165328514; (-29.9691822642542);
     (-0.150994515142316); 40.027597579378; 0.170334807313632;
     (-40.3209196052655); (-0.157984942890531); 30.8542077487718;
     0.121639833268721; (-17.5965138737281); (-0.074094040816409);
     7.10690214103873; 0.031282852041061; (-1.82175564515191);
     (-0.00755421235941); 0.223619893831468; 0.00117925454213];
    [0.03857599435200; (-3.84664617118067); (-0.02160367184185);
     7.81501653005538; (-0.00123395316851); (-11.34170355132042);
     (-0.00009291677959); 13.05504219327545; (-0.01655260341619);
     (-12.28759895145294); 0.02161526843274; 9.48293806319790;
     (-0.02074045215285); (-5.87257861775999); 0.00594298065125;
     2.75465861874613; 0.00306428023191; (-0.86984376593551);
     0.00012025322027; 0.13919314567432; 0.00288463683916];
    [0.05418656406430; (-3.47845948550071); (-0.02911007808948);
     6.36317777566148; (-0.00848709379851); (-8.54751527471874);
     (-0.00851165645469); 9.47693607801280; (-0.00834990904936);
     (-8.81498681370155); 0.02245293253339; 6.85401540936998;
     (-0.02596338512915); (-4.39470996079559); 0.01624864962975;
     2.19611684890774; (-0.00240879051584); (-0.75104302451432);
     0.00674613682247; 0.13149317958808; (-0.00187763777362)];
    [0.15457299681924; (-2.37898834973084); (-0.09331049056315);
     2.84868151156327; (-0.06247880153653); (-2.64577170229825);
     0.02163541888798; 2.23697657451713; (-0.05588393329856);
     (-1.67148153367602); 0.04781476674921; 1.00595954808547;
     0.00222312597743; (-0.45953458054983); 0.03174092540049;
     0.16378164858596; (-0.01390589421898); (-0.05032077717131);
     0.00651420667831; 0.02347897407020; (-0.00881362733839)];
    [0.30296907319327; (-1.61273165137247); (-0.22613988682123);
     1.07977492259970; (-0.08587323730772); (-0.25656257754070);
     0.03282930172664; (-0.16276719120440); (-0.00915702933434);
     (-0.22638893773906); (-0.02364141202522); 0.39120800788284;
     (-0.00584456039913); (-0.22138138954925); 0.06276101321749;
     0.04500235387352; (-0.00000828086748); 0.02005851806501;
     0.00205861885564; 0.00302439095741; (-0.02950134983287)];
    [0.33642304856132; (-1.49858979367799); (-0.25572241425570);
     0.87350271418188; (-0.11828570177555); 0.12205022308084;
     0.11921148675203; (-0.80774944671438); (-0.07834489609479);
     0.47854794562326; (-0.00469977914380); (-0.12453458140019);
     (-0.00589500224440); (-0.04067510197014); 0.05724228140351;
     0.08333755284107; 0.00832043980773; (-0.04237348025746);
     (-0.01635381384540); 0.02977207319925; (-0.01760176568150)];
    [0.44915256608450; (-0.62820619233671); (-0.14351757464547);
     0.29661783706366; (-0.22784394429749); (-0.37256372942400);
     (-0.01419140100551); 0.00213767857124; 0.04078262797139;
     (-0.42029820170918); (-0.12398163381748); 0.22199650564824;
     0.04097565135648; 0.00613424350682; 0.10478503600251; 0.06747620744683;
     (-0.01863887810927); 0.05784820375801; (-0.03193428438915);
     0.03222754072173; 0.00541907748707];
    [0.56619470757641; (-1.04800335126349); (-0.75464456939302);
     0.29156311971249; 0.16242137742230; (-0.26806001042947);
     0.16744243493672; 0.00819999645858; (-0.18901604199609);
     0.45054734505008; 0.30931782841830; (-0.33032403314006);
     (-0.27562961986224); 0.06739368333110; 0.00647310677246;
     (-0.04784254229033); 0.08647503780351; 0.01639907836189;
     (-0.03788984554840); 0.01807364323573; (-0.00588215443421)];
    [0.58100494960553; (-0.51035327095184); (-0.53174909058578);
     (-0.31863563325245); (-0.14289799034253); (-0.20256413484477);
     0.17520704835522; 0.14728154134330; 0.02377945217615; 0.38952639978999;
     0.15558449135573; (-0.23313271880868); (-0.25344790059353);
     (-0.05246019024463); 0.01628462406333; (-0.02505961724053);
     0.06920467763959; 0.02442357316099; (-0.03721611395801);
     0.01818801111503; (-0.00749618797172)];
    [0.53648789255105; (-0.25049871956020); (-0.42163034350696);
     (-0.43193942311114); (-0.00275953611929); (-0.03424681017675);
     0.04267842219415; (-0.04678328784242); (-0.10214864179676);
     0.26408300200955; 0.14590772289388; 0.15113130533216;
     (-0.02459864859345); (-0.17556493366449); (-0.11202315195388);
     (-0.18823009262115); (-0.04060034127000); 0.05477720428674;
     0.04788665548180; 0.04704409688120; (-0.02217936801134)] ]%Q.

Definition ABButter_lit : list (list Q) :=
  [ [0.99308203517541; (-1.98611621154089); (-1.98616407035082);
     0.986211929160751; 0.99308203517541];
    [0.992472550461293; (-1.98488843762334); (-1.98494510092258);
     0.979389350028798; 0.992472550461293];
    [0.989641019334721; (-1.97917472731008); (-1.97928203866944);
     0.979389350028798; 0.989641019334721];
    [0.98621192462708; (-1.97223372919527); (-1.97242384925416);
     0.97261396931306; 0.98621192462708];
    [0.98500175787242; (-1.96977855582618); (-1.97000351574484);
     0.97022847566350; 0.98500175787242];
    [0.97938932735214; (-1.95835380975398); (-1.95877865470428);
     0.95920349965459; 0.97938932735214];
    [0.97531843204928; (-1.95002759149878); (-1.95063686409857);
     0.95124613669835; 0.97531843204928];
    [0.97316523498161; (-1.94561023566527); (-1.94633046996323);
     0.94705070426118; 0.97316523498161];
    [0.96454515552826; (-1.92783286977036); (-1.92909031105652);
     0.93034775234268; 0.96454515552826];
    [0.96009142950541; (-1.91858953033784); (-1.92018285901082);
     0.92177618768381; 0.96009142950541];
    [0.95856916599601; (-1.91542108074780); (-1.91713833199203);
     0.91885558323625; 0.95856916599601];
    [0.94597685600279; (-1.88903307939452); (-1.89195371200558);
     0.89487434461664; 0.94597685600279] ]%Q.

(* ------------------------------------------------------------------ *)
(** ** The engine *)

Section Engine.
Context {FA : FloatArith}.

Local Notation "a +! b" := (dadd a b) (at level 50, left associativity).
Local Notation "a -! b" := (dsub a b) (at level 50, left associativity).
Local Notation "a *! b" := (dmul a b) (at level 40, left associativity).
Local Notation "a /! b" := (ddiv a b) (at level 40, left associativity).
Local Notation "a +^ b" := (fadd a b) (at level 50, left associativity).
Local Notation "a -^ b" := (fsub a b) (at level 50, left associativity).
Local Notation "a *^ b" := (fmul a b) (at level 40, left associativity).
Local Notation "a /^ b" := (fdiv a b) (at level 40, left associativity).

(** The value [0.] stored into a [Float_t] object. *)
Definition Fzero : Float_t := to_Float_t (dlit 0).

Definition ABYule (i : Z) : list Float_t :=
  map (fun q => to_Float_t (dlit q)) (load [] ABYule_lit i).

Definition ABButter (i : Z) : list Float_t :=
  map (fun q => to_Float_t (dlit q)) (load [] ABButter_lit i).

(** [ReplayGainContext].  The six pointers into the buffers are kept as
    offsets into the buffer they point to. *)
Record ReplayGainContext : Type := mkContext {
  linprebuf : list Float_t;      (* Float_t linprebuf [MAX_ORDER * 2] *)
  linpre : Z;
  lstepbuf : list Float_t;       (* [MAX_SAMPLES_PER_WINDOW + MAX_ORDER] *)
  lstep : Z;
  loutbuf : list Float_t;
  lout : Z;
  rinprebuf : list Float_t;
  rinpre : Z;
  rstepbuf : list Float_t;
  rstep : Z;
  routbuf : list Float_t;
  rout : Z;
  sampleWindow : Z;
  totsamp : Z;
  lsum : double;
  rsum : double;
  freqindex : Z;
  first : Z;
  A : list Z;                    (* Uint32_t A [12000] *)
  B : list Z
}.

(** The array sizes declared in the struct. *)
Definition well_sized (rg : ReplayGainContext) : Prop :=
  Z.of_nat (length (linprebuf rg)) = MAX_ORDER * 2 /\
  Z.of_nat (length (rinprebuf rg)) = MAX_ORDER * 2 /\
  Z.of_nat (length (lstepbuf rg)) = MAX_SAMPLES_PER_WINDOW + MAX_ORDER /\
  Z.of_nat (length (rstepbuf rg)) = MAX_SAMPLES_PER_WINDOW + MAX_ORDER /\
  Z.of_nat (length (loutbuf rg)) = MAX_SAMPLES_PER_WINDOW + MAX_ORDER /\
  Z.of_nat (length (routbuf rg)) = MAX_SAMPLES_PER_WINDOW + MAX_ORDER /\
  Z.of_nat (length (A rg)) = HISTOGRAM_LEN /\
  Z.of_nat (length (B rg)) = HISTOGRAM_LEN.

(** Field updates. *)
Definition set_inpre (rg : ReplayGainContext) (l r : list Float_t) :=
  mkContext l (linpre rg) (lstepbuf rg) (lstep rg) (loutbuf rg) (lout rg)
    r (rinpre rg) (rstepbuf rg) (rstep rg) (routbuf rg) (rout rg)
    (sampleWindow rg) (totsamp rg) (lsum rg) (rsum rg) (freqindex rg)
    (first rg) (A rg) (B rg).

Definition set_totsamp (rg : ReplayGainContext) (t : Z) :=
  mkContext (linprebuf rg) (linpre rg) (lstepbuf rg) (lstep rg) (loutbuf rg)
    (lout rg) (rinprebuf rg) (rinpre rg) (rstepbuf rg) (rstep rg)
    (routbuf rg) (rout rg)
    (sampleWindow rg) t (lsum rg) (rsum rg) (freqindex rg)
    (first rg) (A rg) (B rg).

(** *** filterYule, filterButter

    [input + ip] and [output + op] are the two pointers; the result is the
    output array after [nSamples] samples. *)
Fixpoint filterYule (input : list Float_t) (ip : Z) (output : list Float_t)
    (op : Z) (nSamples : nat) (kernel : list Float_t) : list Float_t :=
  match nSamples with
  | O => output
  | S n =>
      let x k := load Fzero input (ip - k) in
      let y k := load Fzero output (op - k) in
      let c k := to_double (x k *^ load Fzero kernel (2 * k)) in
      let b k := to_double (y k *^ load Fzero kernel (2 * k - 1)) in
      let v :=
        to_Float_t
          (dlit 1e-10 +! c 0
           -! b 1 +! c 1
           -! b 2 +! c 2
           -! b 3 +! c 3
           -! b 4 +! c 4
           -! b 5 +! c 5
           -! b 6 +! c 6
           -! b 7 +! c 7
           -! b 8 +! c 8
           -! b 9 +! c 9
           -! b 10 +! c 10) in
      filterYule input (ip + 1) (store output op v) (op + 1) n kernel
  end.

Fixpoint filterButter (input : list Float_t) (ip : Z) (output : list Float_t)
    (op : Z) (nSamples : nat) (kernel : list Float_t) : list Float_t :=
  match nSamples with
  | O => output
  | S n =>
      let x k := load Fzero input (ip - k) in
      let y k := load Fzero output (op - k) in
      let k i := load Fzero kernel i in
      let v :=
        x 0 *^ k 0
        -^ y 1 *^ k 1
        +^ x 1 *^ k 2
        -^ y 2 *^ k 3
        +^ x 2 *^ k 4 in
      filterButter input (ip + 1) (store output op v) (op + 1) n kernel
  end.

(** *** WAResetSampleFrequency *)

(** [for (i = 0; i < MAX_ORDER; i++) buf[i] = 0.], on one of the six
    buffers the loop assigns. *)
Fixpoint zero_fill (n : nat) (i : Z) (buf : list Float_t) : list Float_t :=
  match n with
  | O => buf
  | S n' => zero_fill n' (i + 1) (store buf i Fzero)
  end.

Definition zero_history (rg : ReplayGainContext) : ReplayGainContext :=
  let z := zero_fill (Z.to_nat MAX_ORDER) 0 in
  {| linprebuf := z (linprebuf rg); linpre := linpre rg;
     lstepbuf := z (lstepbuf rg); lstep := lstep rg;
     loutbuf := z (loutbuf rg); lout := lout rg;
     rinprebuf := z (rinprebuf rg); rinpre := rinpre rg;
     rstepbuf := z (rstepbuf rg); rstep := rstep rg;
     routbuf := z (routbuf rg); rout := rout rg;
     sampleWindow := sampleWindow rg; totsamp := totsamp rg;
     lsum := lsum rg; rsum := rsum rg; freqindex := freqindex rg;
     first := first rg; A := A rg; B := B rg |}.

(** The [switch] on [(int) samplefreq]. *)
Definition freqindex_of (samplefreq : Z) : option Z :=
  let f := sint32 samplefreq in
  if f =? 96000 then Some 0
  else if f =? 88200 then Some 1
  else if f =? 64000 then Some 2
  else if f =? 48000 then Some 3
  else if f =? 44100 then Some 4
  else if f =? 32000 then Some 5
  else if f =? 24000 then Some 6
  else if f =? 22050 then Some 7
  else if f =? 16000 then Some 8
  else if f =? 12000 then Some 9
  else if f =? 11025 then Some 10
  else if f =? 8000 then Some 11
  else None.

(** [(int) ceil (samplefreq * RMS_WINDOW_TIME)], stored into a [size_t]. *)
Definition window_samples (samplefreq : Z) : Z :=
  wrap32
    (sint32
       (int_of_double (ceil (d_of_int samplefreq *! dlit RMS_WINDOW_TIME)))).

Definition WAResetSampleFrequency (rg : ReplayGainContext) (samplefreq : Z)
  : init_status * ReplayGainContext :=
  let rg := zero_history rg in
  match freqindex_of samplefreq with
  | None => (INIT_GAIN_ANALYSIS_ERROR, rg)
  | Some i =>
      (INIT_GAIN_ANALYSIS_OK,
       {| linprebuf := linprebuf rg; linpre := linpre rg;
          lstepbuf := lstepbuf rg; lstep := lstep rg;
          loutbuf := loutbuf rg; lout := lout rg;
          rinprebuf := rinprebuf rg; rinpre := rinpre rg;
          rstepbuf := rstepbuf rg; rstep := rstep rg;
          routbuf := routbuf rg; rout := rout rg;
          sampleWindow := window_samples samplefreq;
          totsamp := 0;
          lsum := dlit 0; rsum := dlit 0;
          freqindex := i;
          first := first rg;
          A := zero_histogram; B := B rg |})
  end.

(** *** WAInitGainAnalysis *)
Definition WAInitGainAnalysis (rg : ReplayGainContext) (samplefreq : Z)
  : init_status * ReplayGainContext :=
  match WAResetSampleFrequency rg samplefreq with
  | (INIT_GAIN_ANALYSIS_OK, rg) =>
      (INIT_GAIN_ANALYSIS_OK,
       {| linprebuf := linprebuf rg; linpre := MAX_ORDER;
          lstepbuf := lstepbuf rg; lstep := MAX_ORDER;
          loutbuf := loutbuf rg; lout := MAX_ORDER;
          rinprebuf := rinprebuf rg; rinpre := MAX_ORDER;
          rstepbuf := rstepbuf rg; rstep := MAX_ORDER;
          routbuf := routbuf rg; rout := MAX_ORDER;
          sampleWindow := sampleWindow rg; totsamp := totsamp rg;
          lsum := lsum rg; rsum := rsum rg; freqindex := freqindex rg;
          first := first rg; A := A rg; B := zero_histogram |})
  | (INIT_GAIN_ANALYSIS_ERROR, rg) => (INIT_GAIN_ANALYSIS_ERROR, rg)
  end.

(** *** WAAnalyzeSamples *)

Definition fsqr (d : double) : double := d *! d.

(** [i = cursamples % 16; while (i--) sum += fsqr ( *cur++ )] *)
Fixpoint sum_tail (buf : list Float_t) (off : Z) (n : nat) (sum : double)
  : double :=
  match n with
  | O => sum
  | S n' =>
      sum_tail buf (off + 1) n' (sum +! fsqr (to_double (load Fzero buf off)))
  end.

Definition block16 (buf : list Float_t) (off : Z) : double :=
  let c k := fsqr (to_double (load Fzero buf (off + k))) in
  c 0 +! c 1 +! c 2 +! c 3 +! c 4 +! c 5 +! c 6 +! c 7 +! c 8 +! c 9
  +! c 10 +! c 11 +! c 12 +! c 13 +! c 14 +! c 15.

(** [i = cursamples / 16; while (i--) { sum += fsqr (cur[0]) + ... +
    fsqr (cur[15]); cur += 16; }] *)
Fixpoint sum_blocks (buf : list Float_t) (off : Z) (n : nat) (sum : double)
  : double :=
  match n with
  | O => sum
  | S n' => sum_blocks buf (off + 16) n' (sum +! block16 buf off)
  end.

Definition sum_squares (buf : list Float_t) (off : Z) (cursamples : Z)
    (sum : double) : double :=
  let sum1 := sum_tail buf off (Z.to_nat (cursamples mod 16)) sum in
  sum_blocks buf (off + cursamples mod 16) (Z.to_nat (cursamples / 16)) sum1.

(** The two filters on both channels and the accumulation of the squares,
    for [cursamples] samples read from [inl + ipl] and [inr + ipr]. *)
Definition filter_and_sum (rg : ReplayGainContext)
    (inl : list Float_t) (ipl : Z) (inr : list Float_t) (ipr : Z)
    (cursamples : Z) : ReplayGainContext :=
  let n := Z.to_nat cursamples in
  let lstepbuf1 :=
    filterYule inl ipl (lstepbuf rg) (lstep rg + totsamp rg) n
      (ABYule (freqindex rg)) in
  let rstepbuf1 :=
    filterYule inr ipr (rstepbuf rg) (rstep rg + totsamp rg) n
      (ABYule (freqindex rg)) in
  let loutbuf1 :=
    filterButter lstepbuf1 (lstep rg + totsamp rg)
      (loutbuf rg) (lout rg + totsamp rg) n (ABButter (freqindex rg)) in
  let routbuf1 :=
    filterButter rstepbuf1 (rstep rg + totsamp rg)
      (routbuf rg) (rout rg + totsamp rg) n (ABButter (freqindex rg)) in
  {| linprebuf := linprebuf rg; linpre := linpre rg;
     lstepbuf := lstepbuf1; lstep := lstep rg;
     loutbuf := loutbuf1; lout := lout rg;
     rinprebuf := rinprebuf rg; rinpre := rinpre rg;
     rstepbuf := rstepbuf1; rstep := rstep rg;
     routbuf := routbuf1; rout := rout rg;
     sampleWindow := sampleWindow rg; totsamp := totsamp rg;
     lsum := sum_squares loutbuf1 (lout rg + totsamp rg) cursamples (lsum rg);
     rsum := sum_squares routbuf1 (rout rg + totsamp rg) cursamples (rsum rg);
     freqindex := freqindex rg; first := first rg; A := A rg; B := B rg |}.

(** The bucket of a completed window: [ival] after the two clamps. *)
Definition window_bucket (rg : ReplayGainContext) : Z :=
  let val :=
    dlit STEPS_per_dB *! dlit 10
    *! log10 ((lsum rg +! rsum rg) /! d_of_int (totsamp rg) *! dlit 0.5
              +! dlit 1e-37) in
  let ival := sint32 (int_of_double val) in
  let ival := if ival <? 0 then 0 else ival in
  if ival >=? HISTOGRAM_LEN then HISTOGRAM_LEN - 1 else ival.

(** The body of [if ( rg->totsamp == rg->sampleWindow )]. *)
Definition close_window (rg : ReplayGainContext) : ReplayGainContext :=
  let ival := window_bucket rg in
  let shift buf := memmove Fzero buf 0 buf (totsamp rg) MAX_ORDER in
  {| linprebuf := linprebuf rg; linpre := linpre rg;
     lstepbuf := shift (lstepbuf rg); lstep := lstep rg;
     loutbuf := shift (loutbuf rg); lout := lout rg;
     rinprebuf := rinprebuf rg; rinpre := rinpre rg;
     rstepbuf := shift (rstepbuf rg); rstep := rstep rg;
     routbuf := shift (routbuf rg); rout := rout rg;
     sampleWindow := sampleWindow rg;
     totsamp := 0;
     lsum := dlit 0; rsum := dlit 0;
     freqindex := freqindex rg; first := first rg;
     A := store (A rg) ival (wrap32 (load 0 (A rg) ival + 1));
     B := B rg |}.

(** Everything one iteration of the [while] loop does to the context once
    the source pointers and [cursamples] are chosen. *)
Definition process_batch (rg : ReplayGainContext)
    (inl : list Float_t) (ipl : Z) (inr : list Float_t) (ipr : Z)
    (cursamples : Z) : ReplayGainContext :=
  let rg := filter_and_sum rg inl ipl inr ipr cursamples in
  let rg := set_totsamp rg (wrap32 (totsamp rg + cursamples)) in
  if totsamp rg =? sampleWindow rg then close_window rg else rg.

(** [cursamples] as the loop computes it. *)
Definition batch_size (rg : ReplayGainContext) (batchsamples cursamplepos : Z)
  : Z :=
  let room := wrap32 (sampleWindow rg - totsamp rg) in
  let cursamples := if batchsamples >? room then room else batchsamples in
  if cursamplepos <? MAX_ORDER then
    if cursamples >? wrap32 (MAX_ORDER - cursamplepos)
    then wrap32 (MAX_ORDER - cursamplepos) else cursamples
  else cursamples.

(** One iteration of the [while] loop: the new context, [batchsamples]
    and [cursamplepos]. *)
Definition analyze_step (left_samples right_samples : list Float_t)
    (rg : ReplayGainContext) (batchsamples cursamplepos : Z)
  : ReplayGainContext * Z * Z :=
  let cursamples := batch_size rg batchsamples cursamplepos in
  let rg :=
    if cursamplepos <? MAX_ORDER then
      process_batch rg (linprebuf rg) (linpre rg + cursamplepos)
        (rinprebuf rg) (rinpre rg + cursamplepos) cursamples
    else
      process_batch rg left_samples cursamplepos right_samples cursamplepos
        cursamples in
  (rg, wrap32 (batchsamples - cursamples), wrap32 (cursamplepos + cursamples)).

(** [while ( batchsamples > 0 )]; [None] when the fuel runs out, the flag
    is [false] when the loop leaves through [return GAIN_ANALYSIS_ERROR]. *)
Fixpoint analyze_loop (fuel : nat) (left_samples right_samples : list Float_t)
    (rg : ReplayGainContext) (batchsamples cursamplepos : Z)
  : option (bool * ReplayGainContext) :=
  match fuel with
  | O => None
  | S fuel' =>
      if batchsamples >? 0 then
        let '(rg, batchsamples, cursamplepos) :=
          analyze_step left_samples right_samples rg batchsamples
            cursamplepos in
        if totsamp rg >? sampleWindow rg then Some (false, rg)
        else analyze_loop fuel' left_samples right_samples rg batchsamples
               cursamplepos
      else Some (true, rg)
  end.

(** The staging copy before the loop. *)
Definition stage_prefix (rg : ReplayGainContext)
    (left_samples right_samples : list Float_t) (num_samples : Z)
  : ReplayGainContext :=
  let n := if num_samples <? MAX_ORDER then num_samples else MAX_ORDER in
  set_inpre rg
    (memmove Fzero (linprebuf rg) MAX_ORDER left_samples 0 n)
    (memmove Fzero (rinprebuf rg) MAX_ORDER right_samples 0 n).

(** The history saved after the loop, on one channel. *)
Definition saved_history (inprebuf samples : list Float_t) (num_samples : Z)
  : list Float_t :=
  if num_samples <? MAX_ORDER then
    let buf :=
      memmove Fzero inprebuf 0 inprebuf num_samples
        (wrap32 (MAX_ORDER - num_samples)) in
    memmove Fzero buf (MAX_ORDER - num_samples) samples 0 num_samples
  else
    memmove Fzero inprebuf 0 samples (num_samples - MAX_ORDER) MAX_ORDER.

Definition save_history (rg : ReplayGainContext)
    (left_samples right_samples : list Float_t) (num_samples : Z)
  : ReplayGainContext :=
  set_inpre rg
    (saved_history (linprebuf rg) left_samples num_samples)
    (saved_history (rinprebuf rg) right_samples num_samples).

Definition WAAnalyzeSamples (fuel : nat) (rg : ReplayGainContext)
    (left_samples right_samples : list Float_t) (num_samples : Z)
    (num_channels : Z) : option (gain_status * ReplayGainContext) :=
  if num_samples =? 0 then Some (GAIN_ANALYSIS_OK, rg)
  else
    let channels :=
      if num_channels =? 1 then Some left_samples
      else if num_channels =? 2 then Some right_samples
      else None in
    match channels with
    | None => Some (GAIN_ANALYSIS_ERROR, rg)
    | Some right_samples =>
        let rg := stage_prefix rg left_samples right_samples num_samples in
        match analyze_loop fuel left_samples right_samples rg num_samples 0
        with
        | None => None
        | Some (false, rg) => Some (GAIN_ANALYSIS_ERROR, rg)
        | Some (true, rg) =>
            Some (GAIN_ANALYSIS_OK,
                  save_history rg left_samples right_samples num_samples)
        end
    end.

(** *** analyzeResult *)

(** [for ( i = 0; i < len; i++ ) elems += Array[i]] *)
Fixpoint sum_elems (Array : list Z) (i : Z) (n : nat) (elems : Z) : Z :=
  match n with
  | O => elems
  | S n' => sum_elems Array (i + 1) n' (wrap32 (elems + load 0 Array i))
  end.

(** [(Int32_t) ceil (elems * (1. - RMS_PERCENTILE))] *)
Definition percentile_count (elems : Z) : Z :=
  sint32
    (int_of_double (ceil (d_of_int elems *! (dlit 1 -! dlit RMS_PERCENTILE)))).

(** [for ( i = len; i-- > 0; ) if ( (upper -= Array[i]) <= 0 ) break;]
    with [i] counted by [n]; the result is [i] after the loop.  When no
    bucket stops the scan the last test [i-- > 0] leaves [i] wrapped. *)
Fixpoint scan_down (Array : list Z) (n : nat) (upper : Z) : Z :=
  match n with
  | O => wrap32 (0 - 1)
  | S n' =>
      let i := Z.of_nat n' in
      let upper := sint32 (upper - load 0 Array i) in
      if upper <=? 0 then i else scan_down Array n' upper
  end.

(** [(Float_t) PINK_REF - (Float_t) i / (Float_t) STEPS_per_dB] *)
Definition gain_of_index (i : Z) : Float_t :=
  to_Float_t (dlit PINK_REF) -^ Float_of_size i /^ to_Float_t (dlit STEPS_per_dB).

Definition analyzeResult (Array : list Z) (len : Z) : Float_t :=
  let elems := sum_elems Array 0 (Z.to_nat len) 0 in
  if elems =? 0 then GAIN_NOT_ENOUGH_SAMPLES
  else
    let upper := percentile_count elems in
    gain_of_index (scan_down Array (Z.to_nat len) upper).

(** *** WAGetTitleGain, WAGetAlbumGain *)

(** [for (i = 0; i < 12000; i++) { B[i] += A[i]; A[i] = 0; }] on the two
    histograms: the result is the pair of [A] and [B]. *)
Fixpoint merge_histograms (n : nat) (i : Z) (a b : list Z)
  : list Z * list Z :=
  match n with
  | O => (a, b)
  | S n' =>
      let b := store b i (wrap32 (load 0 b i + load 0 a i)) in
      let a := store a i 0 in
      merge_histograms n' (i + 1) a b
  end.

Definition WAGetTitleGain (rg : ReplayGainContext)
  : Float_t * ReplayGainContext :=
  let retval := analyzeResult (A rg) HISTOGRAM_LEN in
  let ab := merge_histograms (Z.to_nat HISTOGRAM_LEN) 0 (A rg) (B rg) in
  let z := zero_fill (Z.to_nat MAX_ORDER) 0 in
  (retval,
   {| linprebuf := z (linprebuf rg); linpre := linpre rg;
      lstepbuf := z (lstepbuf rg); lstep := lstep rg;
      loutbuf := z (loutbuf rg); lout := lout rg;
      rinprebuf := z (rinprebuf rg); rinpre := rinpre rg;
      rstepbuf := z (rstepbuf rg); rstep := rstep rg;
      routbuf := z (routbuf rg); rout := rout rg;
      sampleWindow := sampleWindow rg;
      totsamp := 0;
      lsum := dlit 0; rsum := dlit 0;
      freqindex := freqindex rg; first := first rg;
      A := fst ab; B := snd ab |}).

Definition WAGetAlbumGain (rg : ReplayGainContext) : Float_t :=
  analyzeResult (B rg) HISTOGRAM_LEN.

(** *** WACreateRGContext

    [malloc] hands out a block of the right size whose contents are
    indeterminate; the contents are the argument. *)
Definition WACreateRGContext (block : ReplayGainContext)
  : ReplayGainContext := block.

End Engine.

(** Reduction of field accesses on updated contexts, and nothing else. *)
Ltac fields :=
  cbn [linprebuf linpre lstepbuf lstep loutbuf lout rinprebuf rinpre
       rstepbuf rstep routbuf rout sampleWindow totsamp lsum rsum freqindex
       first A B set_inpre set_totsamp fst snd].

Ltac fields_in_all :=
  cbn [linprebuf linpre lstepbuf lstep loutbuf lout rinprebuf rinpre
       rstepbuf rstep routbuf rout sampleWindow totsamp lsum rsum freqindex
       first A B set_inpre set_totsamp fst snd] in *.

(** The loops are unfolded last when two terms are compared. *)
Strategy 100 [zero_fill merge_histograms filterYule filterButter
              sum_tail sum_blocks analyze_loop scan_down sum_elems].

(* ------------------------------------------------------------------ *)
(** ** IEEE-754 binary64 arithmetic

    [Float_t] and [double] are both binary64, as in the reference
    gain_analysis.h ([typedef double Float_t]); every operation is the
    kernel's primitive one, rounding to nearest even. *)

Module IEEE.

Definition of_Z (z : Z) : float :=
  if z <? 0 then PrimFloat.opp (PrimFloat.of_uint63 (Uint63.of_Z (- z)))
  else PrimFloat.of_uint63 (Uint63.of_Z z).

(** The binary64 number nearest to the rational [q] (ties to even): the
    quotient is taken with at least three extra bits and a sticky bit, and
    rounded once. *)
Definition of_Q (q : Q) : float :=
  let n := Qnum q in
  let d := Zpos (Qden q) in
  if n =? 0 then PrimFloat.zero
  else
    let a := Z.abs n in
    let k := Z.max 0 (57 + Z.log2 d - Z.log2 a) in
    let m := (a * 2 ^ k) / d in
    let sticky := if (a * 2 ^ k) mod d =? 0 then 0 else 1 in
    SF2Prim (binary_normalize prec emax (Z.sgn n * (2 * m + sticky))
               (- k - 1) false).

(** [ceil] of the C library: exact on binary64. *)
Definition fceil (x : float) : float :=
  match Prim2SF x with
  | S754_finite s m e =>
      if 0 <=? e then x
      else
        let p := 2 ^ (- e) in
        let q := Z.pos m / p in
        if s then PrimFloat.opp (of_Z q)
        else of_Z (if Z.pos m mod p =? 0 then q else q + 1)
  | _ => x
  end.

(** [(int) x]: truncation towards zero; where the C conversion is not
    defined (NaN, infinities, values outside [int]) the result is the
    x86 "integer indefinite" value [INT_MIN]. *)
Definition to_int (x : float) : Z :=
  match Prim2SF x with
  | S754_zero _ => 0
  | S754_finite s m e =>
      let a := if 0 <=? e then Z.pos m * 2 ^ e else Z.pos m / 2 ^ (- e) in
      let v := if s then - a else a in
      if (- 2 ^ 31 <=? v) && (v <? 2 ^ 31) then v else - 2 ^ 31
  | _ => - 2 ^ 31
  end.

(** [log10] of the C library, evaluated as
    [(e * ln 2 + 2 * atanh ((m - 1) / (m + 1))) / ln 10] for
    [x = m * 2 ^ e], [1/2 <= m < 1], with twenty terms of the series. *)
Fixpoint atanh_series (n : nat) (k : float) (zk z2 acc : float) : float :=
  match n with
  | O => acc
  | S n' =>
      atanh_series n' (k + 2)%float (zk * z2)%float z2
        (acc + zk / k)%float
  end.

Definition flog10 (x : float) : float :=
  if PrimFloat.is_nan x then x
  else if PrimFloat.ltb x 0 then PrimFloat.nan
  else if PrimFloat.eqb x 0 then PrimFloat.neg_infinity
  else if PrimFloat.is_infinity x then x
  else
    let '(m, e) := FloatOps.Z.frexp x in
    let z := ((m - 1) / (m + 1))%float in
    let ln_m := (2 * atanh_series 20 1 z (z * z) 0)%float in
    ((of_Z e * 0x1.62e42fefa39efp-1 + ln_m) / 0x1.26bb1bbb55516p+1)%float.

Definition binary64 : FloatArith := {|
  Float_t := float;
  double := float;
  dlit := of_Q;
  d_of_int := of_Z;
  dadd := PrimFloat.add;
  dsub := PrimFloat.sub;
  dmul := PrimFloat.mul;
  ddiv := PrimFloat.div;
  log10 := flog10;
  ceil := fceil;
  int_of_double := to_int;
  to_double := fun x => x;
  to_Float_t := fun x => x;
  fadd := PrimFloat.add;
  fsub := PrimFloat.sub;
  fmul := PrimFloat.mul;
  fdiv := PrimFloat.div;
  Float_of_size := of_Z;
  GAIN_NOT_ENOUGH_SAMPLES := of_Z (-24601)
|}.

End IEEE.

(* ------------------------------------------------------------------ *)
(** ** Exact rational arithmetic

    Every operation is exact on canonical rationals, so sums may be
    regrouped.  [log10] has no exact value there; its integer part stands
    in for it. *)

Module Exact.

Definition of_Z (z : Z) : Qc := Q2Qc (inject_Z z).

Definition qceil (x : Qc) : Qc := of_Z (Qceiling x).

Definition to_int (x : Qc) : Z :=
  let v := Z.quot (Qnum x) (Zpos (Qden x)) in
  if (- 2 ^ 31 <=? v) && (v <? 2 ^ 31) then v else - 2 ^ 31.

(** Largest [k <= n] with [b * 10 ^ k <= a]. *)
Fixpoint digits_up (n : nat) (a b : Z) : Z :=
  match n with
  | O => 0
  | S n' => if b * 10 <=? a then 1 + digits_up n' a (b * 10) else 0
  end.

(** [floor (log10 x)] for positive [x]. *)
Definition qlog10 (x : Qc) : Qc :=
  let a := Qnum x in
  let b := Zpos (Qden x) in
  if a <=? 0 then of_Z (- 2 ^ 31)
  else if b <=? a then of_Z (digits_up (Z.to_nat (Z.log2 a)) a b)
  else
    let k := digits_up (Z.to_nat (Z.log2 b)) b a in
    of_Z (if a * 10 ^ k =? b then - k else - k - 1).

Definition rational : FloatArith := {|
  Float_t := Qc;
  double := Qc;
  dlit := Q2Qc;
  d_of_int := of_Z;
  dadd := Qcplus;
  dsub := Qcminus;
  dmul := Qcmult;
  ddiv := Qcdiv;
  log10 := qlog10;
  ceil := qceil;
  int_of_double := to_int;
  to_double := fun x => x;
  to_Float_t := fun x => x;
  fadd := Qcplus;
  fsub := Qcminus;
  fmul := Qcmult;
  fdiv := Qcdiv;
  Float_of_size := of_Z;
  GAIN_NOT_ENOUGH_SAMPLES := of_Z (-24601)
|}.

End Exact.

(* ------------------------------------------------------------------ *)
(** ** Vocabulary of the statements *)

(** The rates of the [switch] in [WAResetSampleFrequency]. *)
Definition supported_rates : list Z :=
  [8000; 11025; 12000; 16000; 22050; 24000; 32000; 44100; 48000; 64000;
   88200; 96000].

(** [ceil (rate * 0.050)] over the rationals: [ceil (rate / 20)]. *)
Definition exact_window (rate : Z) : Z := (rate + 19) / 20.

(** [ceil (total * 0.05)] over the rationals. *)
Definition exact_percentile_count (total : Z) : Z := (total + 19) / 20.

(** A histogram of [Uint32_t] counters. *)
Definition counters (hist : list Z) : Prop :=
  Forall (fun x => 0 <= x < 2 ^ 32) hist.

(** The sum of all bucket counts, over the integers. *)
Fixpoint total (hist : list Z) : Z :=
  match hist with
  | [] => 0
  | x :: rest => x + total rest
  end.

(** Sum of the counters [a + i .. a + i + n - 1], over the integers. *)
Fixpoint range_total (a : list Z) (i : Z) (n : nat) : Z :=
  match n with
  | O => 0
  | S n' => load 0 a i + range_total a (i + 1) n'
  end.

(** The second loop of [analyzeResult] over the buckets listed from the
    highest index down, [i] being the number of buckets left. *)
Fixpoint scan_buckets (rev_hist : list Z) (i : Z) (upper : Z) : Z :=
  match rev_hist with
  | [] => wrap32 (0 - 1)
  | x :: rest =>
      let upper := sint32 (upper - x) in
      if upper <=? 0 then i - 1 else scan_buckets rest (i - 1) upper
  end.

(** The scan of the specification, over the integers: buckets [n - 1]
    down to [0], each count subtracted from the running value, until the
    running value drops to [<= 0]; the result is the bucket at which this
    occurs. *)
Fixpoint spec_scan (hist : list Z) (n : nat) (running : Z) : option Z :=
  match n with
  | O => None
  | S n' =>
      let running := running - nth n' hist 0 in
      if running <=? 0 then Some (Z.of_nat n') else spec_scan hist n' running
  end.

Section Vocabulary.
Context {FA : FloatArith}.

(** What the arithmetic has to deliver for the window size: on every
    supported rate the [double] computation of [window_samples] gives the
    exact ceiling. *)
Definition window_law : Prop :=
  forall rate, In rate supported_rates ->
    window_samples rate = exact_window rate.

(** A context as [calloc] would give it: every array of its declared size
    and zero-filled. *)
Definition blank_context : ReplayGainContext :=
  let pre := repeat Fzero (Z.to_nat (MAX_ORDER * 2)) in
  let buf := repeat Fzero (Z.to_nat (MAX_SAMPLES_PER_WINDOW + MAX_ORDER)) in
  let hist := zero_histogram in
  mkContext pre 0 buf 0 buf 0 pre 0 buf 0 buf 0 0 0 (dlit 0) (dlit 0) 0 0
    hist hist.

(** [new] is [old] with its first [MAX_ORDER] entries set to zero. *)
Definition prefix_cleared (old new : list Float_t) : Prop :=
  length new = length old /\
  (forall j, 0 <= j < MAX_ORDER -> j < Z.of_nat (length old) ->
     load Fzero new j = Fzero) /\
  (forall j, MAX_ORDER <= j -> load Fzero new j = load Fzero old j).

(** The six delay lines of [rg'] are those of [rg] with cleared history
    prefixes. *)
Definition history_cleared (rg rg' : ReplayGainContext) : Prop :=
  prefix_cleared (linprebuf rg) (linprebuf rg') /\
  prefix_cleared (lstepbuf rg) (lstepbuf rg') /\
  prefix_cleared (loutbuf rg) (loutbuf rg') /\
  prefix_cleared (rinprebuf rg) (rinprebuf rg') /\
  prefix_cleared (rstepbuf rg) (rstepbuf rg') /\
  prefix_cleared (routbuf rg) (routbuf rg').

(** The sample-rate configuration: coefficient selection, window size and
    the buffer cursors. *)
Definition same_configuration (rg rg' : ReplayGainContext) : Prop :=
  freqindex rg' = freqindex rg /\
  sampleWindow rg' = sampleWindow rg /\
  linpre rg' = linpre rg /\ lstep rg' = lstep rg /\ lout rg' = lout rg /\
  rinpre rg' = rinpre rg /\ rstep rg' = rstep rg /\ rout rg' = rout rg /\
  first rg' = first rg.

(** Contexts on which no initialisation has succeeded yet: the block as
    created, and what failed initialisations make of it. *)
Inductive never_initialized (block : ReplayGainContext)
  : ReplayGainContext -> Prop :=
| ni_created : never_initialized block (WACreateRGContext block)
| ni_failed : forall rg samplefreq rg',
    never_initialized block rg ->
    WAInitGainAnalysis rg samplefreq = (INIT_GAIN_ANALYSIS_ERROR, rg') ->
    never_initialized block rg'.

(** The state between two calls once an initialisation has succeeded:
    arrays of their declared sizes, cursors behind the history prefix, a
    window size the buffers can hold, and a partial window. *)
Definition ready (rg : ReplayGainContext) : Prop :=
  well_sized rg /\
  (linpre rg = MAX_ORDER /\ lstep rg = MAX_ORDER /\ lout rg = MAX_ORDER /\
   rinpre rg = MAX_ORDER /\ rstep rg = MAX_ORDER /\ rout rg = MAX_ORDER) /\
  0 < sampleWindow rg <= MAX_SAMPLES_PER_WINDOW /\
  0 <= totsamp rg < sampleWindow rg.

(** The contexts a caller can hold between two calls: a block of the
    right size initialised successfully, then any sequence of feeds,
    title queries and further initialisations (the album query does not
    modify the context). *)
Inductive reachable : ReplayGainContext -> Prop :=
| reach_init : forall block samplefreq rg,
    well_sized block ->
    - 2 ^ 31 <= samplefreq < 2 ^ 31 ->
    WAInitGainAnalysis (WACreateRGContext block) samplefreq
    = (INIT_GAIN_ANALYSIS_OK, rg) ->
    reachable rg
| reach_reinit : forall rg samplefreq st rg',
    reachable rg ->
    - 2 ^ 31 <= samplefreq < 2 ^ 31 ->
    WAInitGainAnalysis rg samplefreq = (st, rg') ->
    reachable rg'
| reach_reset : forall rg samplefreq st rg',
    reachable rg ->
    - 2 ^ 31 <= samplefreq < 2 ^ 31 ->
    WAResetSampleFrequency rg samplefreq = (st, rg') ->
    reachable rg'
| reach_feed : forall rg fuel left_samples right_samples num_samples
                      num_channels st rg',
    reachable rg ->
    0 <= num_samples < 2 ^ 32 ->
    WAAnalyzeSamples fuel rg left_samples right_samples num_samples
      num_channels = Some (st, rg') ->
    reachable rg'
| reach_title : forall rg v rg',
    reachable rg ->
    WAGetTitleGain rg = (v, rg') ->
    reachable rg'.

(** The percentile gain algorithm in the words of the specification:
    sentinel on an empty histogram, otherwise
    [threshold = ceil (total * 0.05)], the downward scan, and
    [64.82 - i / 100.0] for the bucket [i] at which it stops. *)
Definition percentile_gain_spec (hist : list Z) : Float_t :=
  if total hist =? 0 then GAIN_NOT_ENOUGH_SAMPLES
  else
    match spec_scan hist (length hist)
            (exact_percentile_count (total hist)) with
    | Some i => gain_of_index i
    | None => GAIN_NOT_ENOUGH_SAMPLES
    end.

(** Histograms on which no 32-bit quantity of [analyzeResult] wraps: the
    declared number of counters, and a total below [2 ^ 31]. *)
Definition unwrapped (hist : list Z) : Prop :=
  Z.of_nat (length hist) = HISTOGRAM_LEN /\
  counters hist /\
  total hist < 2 ^ 31.

(** *** Feeding a stream in chunks *)

(** The last [MAX_ORDER] raw samples a delay line keeps between calls. *)
Definition history (inprebuf : list Float_t) : list Float_t :=
  slice Fzero inprebuf 0 (Z.to_nat MAX_ORDER).

(** The engine sample by sample: [n] batches of one sample read from the
    streams [xl + ip], [xr + ip]. *)
Fixpoint analyze_run (rg : ReplayGainContext) (xl xr : list Float_t)
    (ip : Z) (n : nat) : ReplayGainContext :=
  match n with
  | O => rg
  | S n' => analyze_run (process_batch rg xl ip xr ip 1) xl xr (ip + 1) n'
  end.

(** The context a call leaves that has fed the samples [l] (left) and
    [r] (right) to a ready context: the engine has run sample by sample
    over the streams made of the kept history and the new samples, and
    the raw pre-buffers hold the staged prefix and the saved history. *)
Definition fed (rg : ReplayGainContext) (l r : list Float_t)
  : ReplayGainContext :=
  let n := Z.of_nat (length l) in
  let staged := stage_prefix rg l r n in
  set_inpre
    (analyze_run rg (history (linprebuf rg) ++ l) (history (rinprebuf rg) ++ r)
       MAX_ORDER (length l))
    (saved_history (linprebuf staged) l n)
    (saved_history (rinprebuf staged) r n).

(** The context one call leaves on a ready context, for the left samples
    [l] and the samples [r] the call reads as the right channel. *)
Definition feed_ok (rg : ReplayGainContext) (l r : list Float_t)
  : ReplayGainContext :=
  match l with
  | [] => rg
  | _ :: _ => fed rg l r
  end.

(** The samples a call reads as the right channel. *)
Definition right_of (ch : Z) (l r : list Float_t) : list Float_t :=
  if ch =? 1 then l else r.

Fixpoint run_chunks (rg : ReplayGainContext)
    (chunks : list (list Float_t * list Float_t)) : ReplayGainContext :=
  match chunks with
  | [] => rg
  | (l, r) :: rest => run_chunks (feed_ok rg l r) rest
  end.

(** The context without its raw pre-buffers. *)
Definition core (rg : ReplayGainContext) : ReplayGainContext :=
  set_inpre rg [] [].

(** Two contexts that differ at most in the staging half of the raw
    pre-buffers, [linprebuf + MAX_ORDER ..] and [rinprebuf + MAX_ORDER ..],
    which every call overwrites before it reads it. *)
Definition same_but_staging (a b : ReplayGainContext) : Prop :=
  core a = core b /\
  history (linprebuf a) = history (linprebuf b) /\
  history (rinprebuf a) = history (rinprebuf b) /\
  length (linprebuf a) = length (linprebuf b) /\
  length (rinprebuf a) = length (rinprebuf b).

(** The context without its raw pre-buffers, its two running sums of
    squares and its title histogram: the filter state, the position in
    the window, the configuration and the album histogram. *)
Definition filter_state (rg : ReplayGainContext) : ReplayGainContext :=
  {| linprebuf := []; linpre := linpre rg;
     lstepbuf := lstepbuf rg; lstep := lstep rg;
     loutbuf := loutbuf rg; lout := lout rg;
     rinprebuf := []; rinpre := rinpre rg;
     rstepbuf := rstepbuf rg; rstep := rstep rg;
     routbuf := routbuf rg; rout := rout rg;
     sampleWindow := sampleWindow rg; totsamp := totsamp rg;
     lsum := dlit 0; rsum := dlit 0;
     freqindex := freqindex rg; first := first rg;
     A := []; B := B rg |}.

(** Two contexts that differ at most in the staging half of the raw
    pre-buffers, in the running sums and in the title histogram. *)
Definition same_filter_state (a b : ReplayGainContext) : Prop :=
  filter_state a = filter_state b /\
  history (linprebuf a) = history (linprebuf b) /\
  history (rinprebuf a) = history (rinprebuf b) /\
  length (linprebuf a) = length (linprebuf b) /\
  length (rinprebuf a) = length (rinprebuf b).

(** Two contexts with the same raw pre-buffers and the same image under
    [view]. *)
Definition agree_on (view : ReplayGainContext -> ReplayGainContext)
    (a b : ReplayGainContext) : Prop :=
  view a = view b /\
  linprebuf a = linprebuf b /\ rinprebuf a = rinprebuf b.

(** The chunks as the calls read them: on one channel the right samples
    are the left samples. *)
Definition as_read (ch : Z) (chunks : list (list Float_t * list Float_t))
  : list (list Float_t * list Float_t) :=
  map (fun c => (fst c, right_of ch (fst c) (snd c))) chunks.

(** The context of a call that returns, [rg] otherwise. *)
Definition context_of (rg : ReplayGainContext)
    (o : option (gain_status * ReplayGainContext)) : ReplayGainContext :=
  match o with
  | Some (_, rg') => rg'
  | None => rg
  end.

(** One call on whole lists, with fuel for every sample. *)
Definition feed (rg : ReplayGainContext) (l r : list Float_t) (ch : Z)
  : option (gain_status * ReplayGainContext) :=
  WAAnalyzeSamples (S (length l)) rg l r (Z.of_nat (length l)) ch.

(** The chunks fed in order, one call each. *)
Fixpoint feed_chunks (rg : ReplayGainContext)
    (chunks : list (list Float_t * list Float_t)) (ch : Z)
  : option (gain_status * ReplayGainContext) :=
  match chunks with
  | [] => Some (GAIN_ANALYSIS_OK, rg)
  | (l, r) :: rest =>
      match feed rg l r ch with
      | Some (GAIN_ANALYSIS_OK, rg') => feed_chunks rg' rest ch
      | other => other
      end
  end.

(** The whole stream of a list of chunks. *)
Definition all_left (chunks : list (list Float_t * list Float_t))
  : list Float_t := concat (map fst chunks).

Definition all_right (chunks : list (list Float_t * list Float_t))
  : list Float_t := concat (map snd chunks).

(** Bucket-wise sum of two histograms of [Uint32_t] counters. *)
Definition add_histograms (b a : list Z) : list Z :=
  map (fun p => wrap32 (fst p + snd p)) (combine b a).

End Vocabulary.

(* ------------------------------------------------------------------ *)
(** ** Vocabulary of the further properties *)

Section FilterVocabulary.
Context {FA : FloatArith}.

Local Notation "a +! b" := (dadd a b) (at level 50, left associativity).
Local Notation "a -! b" := (dsub a b) (at level 50, left associativity).
Local Notation "a +^ b" := (fadd a b) (at level 50, left associativity).
Local Notation "a -^ b" := (fsub a b) (at level 50, left associativity).
Local Notation "a *^ b" := (fmul a b) (at level 40, left associativity).

(** The value [filterYule] assigns to [*output] when its pointers stand at
    [input + ip] and [output + op]. *)
Definition yule_sample (input : list Float_t) (ip : Z)
    (output : list Float_t) (op : Z) (kernel : list Float_t) : Float_t :=
  let x k := load Fzero input (ip - k) in
  let y k := load Fzero output (op - k) in
  let c k := to_double (x k *^ load Fzero kernel (2 * k)) in
  let b k := to_double (y k *^ load Fzero kernel (2 * k - 1)) in
  to_Float_t
    (dlit 1e-10 +! c 0
     -! b 1 +! c 1
     -! b 2 +! c 2
     -! b 3 +! c 3
     -! b 4 +! c 4
     -! b 5 +! c 5
     -! b 6 +! c 6
     -! b 7 +! c 7
     -! b 8 +! c 8
     -! b 9 +! c 9
     -! b 10 +! c 10).

(** The value [filterButter] assigns to [*output] when its pointers stand
    at [input + ip] and [output + op]. *)
Definition butter_sample (input : list Float_t) (ip : Z)
    (output : list Float_t) (op : Z) (kernel : list Float_t) : Float_t :=
  let x k := load Fzero input (ip - k) in
  let y k := load Fzero output (op - k) in
  let k i := load Fzero kernel i in
  x 0 *^ k 0
  -^ y 1 *^ k 1
  +^ x 1 *^ k 2
  -^ y 2 *^ k 3
  +^ x 2 *^ k 4.

(** Two arrays of the same length with the same entries below [n]. *)
Definition agree_upto (n : Z) (a b : list Float_t) : Prop :=
  length a = length b /\
  forall j, j < n -> load Fzero a j = load Fzero b j.

(** What the analysis of the current title has produced and will read
    again: the configuration, the open window with its two sums, the
    title histogram, and of the four filter buffers the entries up to the
    last sample of the open window.  The album histogram and the entries
    of the filter buffers beyond the open window are left out. *)
Definition same_title_core (a b : ReplayGainContext) : Prop :=
  same_configuration a b /\
  totsamp a = totsamp b /\ lsum a = lsum b /\ rsum a = rsum b /\
  A a = A b /\
  agree_upto (MAX_ORDER + totsamp a) (lstepbuf a) (lstepbuf b) /\
  agree_upto (MAX_ORDER + totsamp a) (loutbuf a) (loutbuf b) /\
  agree_upto (MAX_ORDER + totsamp a) (rstepbuf a) (rstepbuf b) /\
  agree_upto (MAX_ORDER + totsamp a) (routbuf a) (routbuf b).

(** The same, with the history halves of the raw pre-buffers. *)
Definition same_title_state (a b : ReplayGainContext) : Prop :=
  same_title_core a b /\
  agree_upto MAX_ORDER (linprebuf a) (linprebuf b) /\
  agree_upto MAX_ORDER (rinprebuf a) (rinprebuf b).


(** *** The windows a call completes *)

(** One iteration of the loop of [WAAnalyzeSamples] up to and including
    [rg->totsamp += cursamples]: the batch is filtered, its squares are
    added to the two sums and its samples are counted.  The test
    [rg->totsamp == rg->sampleWindow] is still to come. *)
Definition batch_counted (left_samples right_samples : list Float_t)
    (rg : ReplayGainContext) (batchsamples cursamplepos : Z)
  : ReplayGainContext :=
  let cursamples := batch_size rg batchsamples cursamplepos in
  let rg :=
    if cursamplepos <? MAX_ORDER then
      filter_and_sum rg (linprebuf rg) (linpre rg + cursamplepos)
        (rinprebuf rg) (rinpre rg + cursamplepos) cursamples
    else
      filter_and_sum rg left_samples cursamplepos right_samples cursamplepos
        cursamples in
  set_totsamp rg (wrap32 (totsamp rg + cursamples)).

(** The contexts in which the loop finds [totsamp == sampleWindow], in
    the order of the iterations: one for every window the loop
    completes. *)
Fixpoint completed_windows (fuel : nat)
    (left_samples right_samples : list Float_t)
    (rg : ReplayGainContext) (batchsamples cursamplepos : Z)
  : list ReplayGainContext :=
  match fuel with
  | O => []
  | S fuel' =>
      if batchsamples >? 0 then
        let full :=
          batch_counted left_samples right_samples rg batchsamples
            cursamplepos in
        let '(rg, batchsamples, cursamplepos) :=
          analyze_step left_samples right_samples rg batchsamples
            cursamplepos in
        (if totsamp full =? sampleWindow full then [full] else [])
        ++ (if totsamp rg >? sampleWindow rg then []
            else completed_windows fuel' left_samples right_samples rg
                   batchsamples cursamplepos)
      else []
  end.

(** [rg->A [ival]++] *)
Definition count_window (hist : list Z) (ival : Z) : list Z :=
  store hist ival (wrap32 (load 0 hist ival + 1)).

End FilterVocabulary.

(* ------------------------------------------------------------------ *)
(** ** Vocabulary of the statements on binary64 *)

(** The record [shr] of the rounding specification holds after the
    integer [M] has been shifted right by [n] bits: the quotient, the bit
    shifted out last and whether any bit shifted out before it was set. *)
Definition shifted (n : Z) (M : Z) : shr_record :=
  let P := 2 ^ n in
  Build_shr_record (M / P) (P <=? 2 * (M mod P))
    (negb ((2 * (M mod P)) mod P =? 0)).

(** The mantissa of [1. - RMS_PERCENTILE] in binary64: the factor is
    [percentile_mantissa * 2 ^ -57], and twenty times the mantissa is
    [2 ^ 57 + 128]. *)
Definition percentile_mantissa : Z := 7205759403792800.

(** The ends of the range of gains: [64.82 - 119.99] and [64.82]. *)
Definition lowest_gain : float :=
  PrimFloat.sub (IEEE.of_Q PINK_REF) (IEEE.of_Q 119.99).

Definition highest_gain : float := IEEE.of_Q PINK_REF.

(* ------------------------------------------------------------------ *)
(** ** Sample contexts and inputs

    The engine on IEEE-754 binary64, started from a zero-filled block. *)

Module Samples.

#[local] Existing Instance IEEE.binary64.

Definition fresh : ReplayGainContext := blank_context.

Definition at_8000 : ReplayGainContext :=
  snd (WAInitGainAnalysis (WACreateRGContext fresh) 8000).

Definition at_44100 : ReplayGainContext :=
  snd (WAInitGainAnalysis (WACreateRGContext fresh) 44100).

(** A context initialised at 44100 Hz on which a second initialisation,
    with the unsupported rate 44101 Hz, has failed. *)
Definition after_failed_init : ReplayGainContext :=
  snd (WAInitGainAnalysis at_44100 44101).

(** [n] samples of digital silence. *)
Definition silence (n : nat) : list Float_t := repeat PrimFloat.zero n.

(** One full window (400 samples at 8000 Hz) of mono silence. *)
Definition after_silence : ReplayGainContext :=
  context_of at_8000
    (WAAnalyzeSamples 401 at_8000 (silence 400) [] 400 1).

(** [rg] with the album histogram [hist]. *)
Definition with_album (rg : ReplayGainContext) (hist : list Z)
  : ReplayGainContext :=
  {| linprebuf := linprebuf rg; linpre := linpre rg;
     lstepbuf := lstepbuf rg; lstep := lstep rg;
     loutbuf := loutbuf rg; lout := lout rg;
     rinprebuf := rinprebuf rg; rinpre := rinpre rg;
     rstepbuf := rstepbuf rg; rstep := rstep rg;
     routbuf := routbuf rg; rout := rout rg;
     sampleWindow := sampleWindow rg; totsamp := totsamp rg;
     lsum := lsum rg; rsum := rsum rg; freqindex := freqindex rg;
     first := first rg; A := A rg; B := hist |}.

(** [rg] with the title histogram [hist]. *)
Definition with_title (rg : ReplayGainContext) (hist : list Z)
  : ReplayGainContext :=
  {| linprebuf := linprebuf rg; linpre := linpre rg;
     lstepbuf := lstepbuf rg; lstep := lstep rg;
     loutbuf := loutbuf rg; lout := lout rg;
     rinprebuf := rinprebuf rg; rinpre := rinpre rg;
     rstepbuf := rstepbuf rg; rstep := rstep rg;
     routbuf := routbuf rg; rout := rout rg;
     sampleWindow := sampleWindow rg; totsamp := totsamp rg;
     lsum := lsum rg; rsum := rsum rg; freqindex := freqindex rg;
     first := first rg; A := hist; B := B rg |}.

(** Thirty windows: twenty-seven in bucket 60, three in bucket 120. *)
Definition thirty_windows : list Z :=
  store (store zero_histogram 60 27) 120 3.

(** Forty-one windows: thirty-eight in bucket 50, two in bucket 100 and
    one in bucket 200. *)
Definition forty_one_windows : list Z :=
  store (store (store zero_histogram 50 38) 100 2) 200 1.

(** A title of thirty windows in an album of forty-one. *)
Definition title_in_album : ReplayGainContext :=
  with_title (with_album at_8000 forty_one_windows) thirty_windows.

(** An album histogram whose counters add up to [2 ^ 32]. *)
Definition wrapping_histogram : list Z :=
  store (store zero_histogram 0 (2 ^ 31)) 1 (2 ^ 31).

(** An album histogram with [2 ^ 32 - 1] windows in bucket 5. *)
Definition saturated_histogram : list Z :=
  store zero_histogram 5 (2 ^ 32 - 1).

(** Twenty windows: nineteen in bucket 50, one in bucket 100. *)
Definition twenty_windows : list Z :=
  store (store zero_histogram 50 19) 100 1.

(** Twenty-six samples of silence, whole and as chunks of ten and
    sixteen samples. *)
Definition silence_in_two : list (list Float_t * list Float_t) :=
  [(silence 10, []); (silence 16, [])].

Definition silence_whole : ReplayGainContext :=
  context_of at_8000
    (feed at_8000 (all_left silence_in_two) (all_right silence_in_two) 1).

Definition silence_split : ReplayGainContext :=
  context_of at_8000 (feed_chunks at_8000 silence_in_two 1).

(** One window (400 samples at 8000 Hz) of a constant mono signal, whole
    and as chunks of ten and three hundred and ninety samples. *)
Definition level : Float_t := 0x1.f481d47958a85p+9%float.




End Samples.

(** The engine on exact rational arithmetic, started from a zero-filled
    block. *)
Module RationalSamples.

#[local] Existing Instance Exact.rational.

Definition at_8000 : ReplayGainContext :=
  snd (WAInitGainAnalysis (WACreateRGContext blank_context) 8000).

(** Five mono samples in two chunks. *)
Definition five_in_two : list (list Float_t * list Float_t) :=
  [([Q2Qc 1; Q2Qc (1 # 2); Q2Qc (-1 # 4)], []);
   ([Q2Qc (1 # 3); Q2Qc 2], [])].

End RationalSamples.

(** Inputs of the further properties, on binary64. *)
Module ExtraSamples.
#[local] Existing Instance IEEE.binary64.
Import Samples.

(** Three windows in bucket 5. *)
Definition three_windows : list Z := store zero_histogram 5 3.

(** Five samples behind ten entries of history, and a delay line of
    fifteen entries. *)
Definition ramp : list Float_t :=
  repeat PrimFloat.zero 10
  ++ [1%float; 2%float; 3%float; 4%float; 5%float].

Definition delay_line : list Float_t := repeat PrimFloat.zero 15.

End ExtraSamples.

(* ------------------------------------------------------------------ *)
(** ** Arrays: loads, stores and block copies *)

Lemma MAX_ORDER_value : MAX_ORDER = 10.
Proof. reflexivity. Qed.

Section ArrayFacts.
Context {X : Type}.
Implicit Types (a vs : list X) (d v : X) (i j off : Z).

Lemma length_store_nat a (n : nat) v : length (store_nat a n v) = length a.
Proof.
  revert n; induction a as [|h t IH]; intros [|n]; simpl; auto.
Qed.

Lemma length_store a i v : length (store a i v) = length a.
Proof.
  unfold store; destruct (i <? 0); auto using length_store_nat.
Qed.

Lemma nth_store_nat_eq a (n : nat) v d :
  (n < length a)%nat -> nth n (store_nat a n v) d = v.
Proof.
  revert n; induction a as [|h t IH]; intros [|n] H; simpl in *;
    try lia; auto.
  apply IH; lia.
Qed.

Lemma nth_store_nat_neq a (n m : nat) v d :
  n <> m -> nth m (store_nat a n v) d = nth m a d.
Proof.
  revert n m; induction a as [|h t IH]; intros [|n] [|m] H; simpl;
    try reflexivity; try congruence.
  apply IH; congruence.
Qed.

Lemma load_store_eq d a i v :
  0 <= i < Z.of_nat (length a) -> load d (store a i v) i = v.
Proof.
  intros H; unfold load, store.
  destruct (Z.ltb_spec i 0); [lia|].
  apply nth_store_nat_eq; lia.
Qed.

Lemma load_store_neq d a i j v :
  i <> j -> load d (store a i v) j = load d a j.
Proof.
  intros H; unfold load, store.
  destruct (Z.ltb_spec j 0); [reflexivity|].
  destruct (Z.ltb_spec i 0); [reflexivity|].
  apply nth_store_nat_neq; lia.
Qed.

Lemma load_outside d a i :
  i < 0 \/ Z.of_nat (length a) <= i -> load d a i = d.
Proof.
  intros H; unfold load.
  destruct (Z.ltb_spec i 0); [reflexivity|].
  apply nth_overflow; lia.
Qed.

Lemma store_outside a i v :
  i < 0 \/ Z.of_nat (length a) <= i -> store a i v = a.
Proof.
  intros H; unfold store.
  destruct (Z.ltb_spec i 0); [reflexivity|].
  assert (Hn : (length a <= Z.to_nat i)%nat) by lia.
  clear H H0; revert Hn; generalize (Z.to_nat i); intros n.
  revert n; induction a as [|h t IH]; intros [|n] Hn; simpl in *;
    try reflexivity; try lia.
  f_equal; apply IH; lia.
Qed.

(** Two arrays of the same length with the same loads are equal. *)
Lemma load_ext d a a' :
  length a = length a' ->
  (forall i, 0 <= i < Z.of_nat (length a) -> load d a i = load d a' i) ->
  a = a'.
Proof.
  intros Hl H; apply (nth_ext a a' d d Hl); intros n Hn.
  specialize (H (Z.of_nat n)); unfold load in H.
  destruct (Z.ltb_spec (Z.of_nat n) 0); [lia|].
  rewrite Nat2Z.id in H; apply H; lia.
Qed.

Lemma length_blit a off vs : length (blit a off vs) = length a.
Proof.
  revert a off; induction vs as [|v vs IH]; intros a off; simpl; auto.
  rewrite IH; apply length_store.
Qed.

Lemma load_blit_outside d a off vs j :
  j < off \/ off + Z.of_nat (length vs) <= j ->
  load d (blit a off vs) j = load d a j.
Proof.
  revert a off; induction vs as [|v vs IH]; intros a off H; simpl in *; auto.
  rewrite IH by lia. apply load_store_neq; lia.
Qed.

Lemma load_blit_inside d a off vs j :
  0 <= off -> off <= j < off + Z.of_nat (length vs) ->
  j < Z.of_nat (length a) ->
  load d (blit a off vs) j = nth (Z.to_nat (j - off)) vs d.
Proof.
  revert a off; induction vs as [|v vs IH]; intros a off H0 H Hl;
    simpl in *; [lia|].
  destruct (Z.eq_dec j off) as [->|Hne].
  - rewrite load_blit_outside by lia.
    rewrite load_store_eq by lia.
    replace (Z.to_nat (off - off)) with O by lia; reflexivity.
  - rewrite IH by (rewrite ?length_store; lia).
    replace (Z.to_nat (j - off)) with (S (Z.to_nat (j - (off + 1)))) by lia.
    reflexivity.
Qed.

Lemma length_slice d a off (n : nat) : length (slice d a off n) = n.
Proof. unfold slice; rewrite length_map, length_seq; reflexivity. Qed.

Lemma nth_slice d a off (n k : nat) :
  (k < n)%nat -> nth k (slice d a off n) d = load d a (off + Z.of_nat k).
Proof.
  intros H; unfold slice.
  rewrite (nth_indep _ d (load d a (off + Z.of_nat 0)))
    by (rewrite length_map, length_seq; lia).
  rewrite (map_nth (fun k => load d a (off + Z.of_nat k)) (seq 0 n) O k).
  rewrite seq_nth by lia; reflexivity.
Qed.

Lemma length_memmove d dst doff src soff n :
  length (memmove d dst doff src soff n) = length dst.
Proof. apply length_blit. Qed.

Lemma load_memmove_outside d dst doff src soff n j :
  0 <= n -> j < doff \/ doff + n <= j ->
  load d (memmove d dst doff src soff n) j = load d dst j.
Proof.
  intros Hn H; unfold memmove.
  apply load_blit_outside; rewrite length_slice; lia.
Qed.

Lemma load_memmove_inside d dst doff src soff n j :
  0 <= doff -> doff <= j < doff + n -> j < Z.of_nat (length dst) ->
  load d (memmove d dst doff src soff n) j = load d src (soff + (j - doff)).
Proof.
  intros H0 H Hl; unfold memmove.
  rewrite load_blit_inside by (rewrite ?length_slice; lia).
  rewrite nth_slice by lia. f_equal; lia.
Qed.

Lemma memmove_nothing d dst doff src soff n :
  n <= 0 -> memmove d dst doff src soff n = dst.
Proof.
  intros H; unfold memmove.
  replace (Z.to_nat n) with O by lia; reflexivity.
Qed.

Lemma load_app_left d a b j :
  0 <= j < Z.of_nat (length a) -> load d (a ++ b) j = load d a j.
Proof.
  intros H; unfold load. destruct (Z.ltb_spec j 0); [lia|].
  apply app_nth1; lia.
Qed.

Lemma load_app_right d a b j :
  0 <= j -> load d (a ++ b) (Z.of_nat (length a) + j) = load d b j.
Proof.
  intros H; unfold load.
  destruct (Z.ltb_spec (Z.of_nat (length a) + j) 0); [lia|].
  destruct (Z.ltb_spec j 0); [lia|].
  rewrite app_nth2 by lia. f_equal; lia.
Qed.

Lemma load_slice d a off (n : nat) j :
  0 <= j < Z.of_nat n -> load d (slice d a off n) j = load d a (off + j).
Proof.
  intros H; unfold load at 1. destruct (Z.ltb_spec j 0); [lia|].
  rewrite nth_slice by lia. f_equal; lia.
Qed.

Lemma slice_ext d a b offa offb (n : nat) :
  (forall k, 0 <= k < Z.of_nat n ->
     load d a (offa + k) = load d b (offb + k)) ->
  slice d a offa n = slice d b offb n.
Proof.
  intros H; unfold slice. apply map_ext_in. intros k Hk.
  apply in_seq in Hk. apply H; lia.
Qed.

End ArrayFacts.

(* ------------------------------------------------------------------ *)
(** ** Initialisation *)

Section InitFacts.
Context {FA : FloatArith}.

Lemma zero_fill_blit n i (buf : list Float_t) :
  zero_fill n i buf = blit buf i (repeat Fzero n).
Proof.
  revert i buf; induction n as [|n IH]; intros i buf; [reflexivity|].
  cbn [zero_fill repeat blit]. apply IH.
Qed.

Lemma prefix_cleared_zero_fill (buf : list Float_t) :
  prefix_cleared buf (zero_fill (Z.to_nat MAX_ORDER) 0 buf).
Proof.
  rewrite zero_fill_blit.
  unfold prefix_cleared. rewrite length_blit. split; [reflexivity|].
  split; intros j Hj.
  - intros Hl. rewrite load_blit_inside by (rewrite ?repeat_length; lia).
    apply nth_repeat.
  - apply load_blit_outside. rewrite repeat_length. lia.
Qed.

Lemma zero_history_cleared rg : history_cleared rg (zero_history rg).
Proof.
  unfold history_cleared, zero_history; fields.
  repeat split; apply prefix_cleared_zero_fill.
Qed.

Lemma zero_history_configuration rg : same_configuration rg (zero_history rg).
Proof.
  unfold same_configuration, zero_history; fields. tauto.
Qed.

Lemma zero_history_window rg :
  totsamp (zero_history rg) = totsamp rg /\
  lsum (zero_history rg) = lsum rg /\
  rsum (zero_history rg) = rsum rg /\
  A (zero_history rg) = A rg /\
  B (zero_history rg) = B rg.
Proof.
  unfold zero_history; fields. tauto.
Qed.

Lemma sint32_small z : - 2 ^ 31 <= z < 2 ^ 31 -> sint32 z = z.
Proof.
  intros H; unfold sint32. rewrite Z.mod_small; lia.
Qed.

Lemma wrap32_small z : 0 <= z < 2 ^ 32 -> wrap32 z = z.
Proof. intros H; unfold wrap32; apply Z.mod_small; lia. Qed.

Lemma wrap32_range z : 0 <= wrap32 z < 2 ^ 32.
Proof. unfold wrap32; apply Z.mod_pos_bound; lia. Qed.

(** The [switch] accepts exactly the twelve rates. *)
Lemma freqindex_of_supported samplefreq :
  - 2 ^ 31 <= samplefreq < 2 ^ 31 ->
  (exists i, freqindex_of samplefreq = Some i /\ 0 <= i < 12) <->
  In samplefreq supported_rates.
Proof.
  intros Hr; unfold freqindex_of, supported_rates.
  rewrite (sint32_small _ Hr); cbv zeta.
  repeat match goal with
  | |- context [Z.eqb samplefreq ?k] =>
      destruct (Z.eqb_spec samplefreq k) as [->|?]
  end;
  try (split; [intros _; simpl; tauto | intros _; eexists; split;
         [reflexivity | lia]]).
  split.
  - intros (i & Hi & _); discriminate.
  - simpl; intros H; exfalso; intuition congruence.
Qed.

Lemma freqindex_of_range samplefreq i :
  freqindex_of samplefreq = Some i -> 0 <= i < 12.
Proof.
  unfold freqindex_of; cbv zeta; intros E.
  repeat match type of E with
  | context [Z.eqb ?a ?k] => destruct (Z.eqb a k)
  end; inversion E; lia.
Qed.

Lemma freqindex_of_unsupported samplefreq :
  - 2 ^ 31 <= samplefreq < 2 ^ 31 ->
  ~ In samplefreq supported_rates -> freqindex_of samplefreq = None.
Proof.
  intros Hr Hn.
  destruct (freqindex_of samplefreq) as [i|] eqn:E; [|reflexivity].
  exfalso; apply Hn, (freqindex_of_supported _ Hr).
  exists i; split; [exact E | exact (freqindex_of_range _ _ E)].
Qed.

Lemma reset_status rg samplefreq :
  fst (WAResetSampleFrequency rg samplefreq) =
  match freqindex_of samplefreq with
  | Some _ => INIT_GAIN_ANALYSIS_OK
  | None => INIT_GAIN_ANALYSIS_ERROR
  end.
Proof.
  unfold WAResetSampleFrequency.
  destruct (freqindex_of samplefreq); reflexivity.
Qed.

Lemma init_status_of rg samplefreq :
  fst (WAInitGainAnalysis rg samplefreq) =
  match freqindex_of samplefreq with
  | Some _ => INIT_GAIN_ANALYSIS_OK
  | None => INIT_GAIN_ANALYSIS_ERROR
  end.
Proof.
  unfold WAInitGainAnalysis, WAResetSampleFrequency.
  destruct (freqindex_of samplefreq); reflexivity.
Qed.

Lemma init_failure rg samplefreq :
  freqindex_of samplefreq = None ->
  WAInitGainAnalysis rg samplefreq =
  (INIT_GAIN_ANALYSIS_ERROR, zero_history rg).
Proof.
  intros E; unfold WAInitGainAnalysis, WAResetSampleFrequency.
  rewrite E; reflexivity.
Qed.

(** A failed initialisation is visible in the status only through the
    rate. *)
Lemma init_error_inv rg samplefreq rg' :
  WAInitGainAnalysis rg samplefreq = (INIT_GAIN_ANALYSIS_ERROR, rg') ->
  rg' = zero_history rg.
Proof.
  unfold WAInitGainAnalysis, WAResetSampleFrequency.
  destruct (freqindex_of samplefreq); intros H; [discriminate H|].
  apply (f_equal snd) in H. cbn [snd] in H. symmetry; exact H.
Qed.

Lemma never_initialized_window block rg :
  never_initialized block rg -> sampleWindow rg = sampleWindow block.
Proof.
  induction 1 as [|rg f rg' _ IH H]; [reflexivity|].
  apply init_error_inv in H; subst rg'.
  destruct (zero_history_configuration rg)
    as (_ & Hw & _).
  congruence.
Qed.

(** C6. Sample-rate validation: on every [long] value, [initialize]
    succeeds exactly on the twelve rates of the table and returns the
    input-validation error on every other value. *)
Theorem init_accepts_exactly_supported_rates rg samplefreq :
  - 2 ^ 31 <= samplefreq < 2 ^ 31 ->
  (fst (WAInitGainAnalysis rg samplefreq) = INIT_GAIN_ANALYSIS_OK <->
   In samplefreq supported_rates) /\
  (~ In samplefreq supported_rates ->
   fst (WAInitGainAnalysis rg samplefreq) = INIT_GAIN_ANALYSIS_ERROR).
Proof.
  intros Hr; rewrite init_status_of.
  pose proof (freqindex_of_supported _ Hr) as Hs.
  pose proof (freqindex_of_unsupported _ Hr) as Hu.
  destruct (freqindex_of samplefreq) as [i|] eqn:E.
  - assert (Hin : In samplefreq supported_rates).
    { apply Hs. exists i; split;
        [reflexivity | exact (freqindex_of_range _ _ E)]. }
    split; [tauto | intros Hn; contradiction].
  - split; [|reflexivity].
    split; [discriminate|].
    intros Hin. apply Hs in Hin. destruct Hin as (i & Hi & _); discriminate.
Qed.

(** C5 (amended). A failed initialisation returns the error after
    clearing the history prefixes of the six delay lines, and leaves every
    other part of the context as it was: window accumulators, both
    histograms, window size, coefficient selection and cursors. *)
Theorem failed_init_clears_history_only rg samplefreq :
  - 2 ^ 31 <= samplefreq < 2 ^ 31 ->
  ~ In samplefreq supported_rates ->
  exists rg',
    WAInitGainAnalysis rg samplefreq = (INIT_GAIN_ANALYSIS_ERROR, rg') /\
    history_cleared rg rg' /\
    same_configuration rg rg' /\
    totsamp rg' = totsamp rg /\ lsum rg' = lsum rg /\ rsum rg' = rsum rg /\
    A rg' = A rg /\ B rg' = B rg.
Proof.
  intros Hr Hn. exists (zero_history rg).
  split; [apply init_failure, freqindex_of_unsupported; assumption|].
  split; [apply zero_history_cleared|].
  split; [apply zero_history_configuration|].
  apply zero_history_window.
Qed.

End InitFacts.

(* ------------------------------------------------------------------ *)
(** ** Title and album queries *)

Section QueryFacts.
Context {FA : FloatArith}.

Lemma merge_histograms_closed n i (a b : list Z) :
  merge_histograms n i a b =
  (blit a i (repeat 0 n),
   blit b i
     (map (fun k => wrap32 (load 0 b (i + Z.of_nat k)
                            + load 0 a (i + Z.of_nat k)))
          (seq 0 n))).
Proof.
  revert i a b; induction n as [|n IH]; intros i a b; [reflexivity|].
  cbn [merge_histograms]. rewrite IH.
  cbn [seq map repeat blit].
  rewrite <- seq_shift, map_map, Z.add_0_r.
  erewrite map_ext; [reflexivity|].
  intros k; cbv beta.
  rewrite !load_store_neq by lia.
  rewrite !Nat2Z.inj_succ, <- !Z.add_1_l, !Z.add_assoc. reflexivity.
Qed.

Lemma blit_zeros_all (a : list Z) :
  Z.of_nat (length a) = HISTOGRAM_LEN ->
  blit a 0 (repeat 0 (Z.to_nat HISTOGRAM_LEN)) = zero_histogram.
Proof.
  intros Hl. apply (load_ext 0).
  - rewrite length_blit. unfold zero_histogram. rewrite repeat_length. lia.
  - intros j Hj. rewrite length_blit in Hj.
    rewrite load_blit_inside by (rewrite ?repeat_length; lia).
    rewrite nth_repeat.
    unfold zero_histogram, load.
    destruct (j <? 0); [reflexivity|]. now rewrite nth_repeat.
Qed.

Lemma load_add_histograms (b a : list Z) j :
  length a = length b ->
  0 <= j < Z.of_nat (length b) ->
  load 0 (add_histograms b a) j = wrap32 (load 0 b j + load 0 a j).
Proof.
  intros Hl Hj. unfold add_histograms, load.
  destruct (Z.ltb_spec j 0); [lia|].
  rewrite (nth_indep _ 0 ((fun p => wrap32 (fst p + snd p)) (0, 0)))
    by (rewrite length_map, length_combine; lia).
  rewrite (map_nth (fun p => wrap32 (fst p + snd p))).
  rewrite combine_nth by congruence. reflexivity.
Qed.

Lemma blit_sums_all (b a : list Z) :
  Z.of_nat (length b) = HISTOGRAM_LEN ->
  Z.of_nat (length a) = HISTOGRAM_LEN ->
  blit b 0
    (map (fun k => wrap32 (load 0 b (0 + Z.of_nat k)
                           + load 0 a (0 + Z.of_nat k)))
         (seq 0 (Z.to_nat HISTOGRAM_LEN)))
  = add_histograms b a.
Proof.
  intros Hb Ha. apply (load_ext 0).
  - rewrite length_blit. unfold add_histograms.
    rewrite length_map, length_combine. lia.
  - intros j Hj. rewrite length_blit in Hj.
    rewrite load_blit_inside
      by (rewrite ?length_map, ?length_seq; lia).
    rewrite load_add_histograms by lia.
    rewrite (nth_indep _ 0
               ((fun k => wrap32 (load 0 b (0 + Z.of_nat k)
                                  + load 0 a (0 + Z.of_nat k))) O))
      by (rewrite length_map, length_seq; lia).
    rewrite (map_nth (fun k => wrap32 (load 0 b (0 + Z.of_nat k)
                                       + load 0 a (0 + Z.of_nat k)))).
    rewrite seq_nth by lia.
    do 2 f_equal; f_equal; lia.
Qed.

Lemma merge_histograms_all (a b : list Z) :
  Z.of_nat (length a) = HISTOGRAM_LEN ->
  Z.of_nat (length b) = HISTOGRAM_LEN ->
  merge_histograms (Z.to_nat HISTOGRAM_LEN) 0 a b =
  (zero_histogram, add_histograms b a).
Proof.
  intros Ha Hb. rewrite merge_histograms_closed.
  rewrite blit_sums_all, blit_zeros_all by assumption. reflexivity.
Qed.

(** C8. Title-query effects and frame: the query returns the percentile
    gain of the title histogram, adds every title bucket into the album
    bucket of the same index (as [Uint32_t] counters), zeroes the title
    histogram, clears the history prefixes of the six delay lines and
    resets [totsamp] and both sums, and leaves the coefficient selection,
    the window size and the cursors as they were. *)
Theorem title_query_effects rg v rg' :
  well_sized rg ->
  WAGetTitleGain rg = (v, rg') ->
  v = analyzeResult (A rg) HISTOGRAM_LEN /\
  B rg' = add_histograms (B rg) (A rg) /\
  A rg' = zero_histogram /\
  history_cleared rg rg' /\
  totsamp rg' = 0 /\ lsum rg' = dlit 0 /\ rsum rg' = dlit 0 /\
  same_configuration rg rg'.
Proof.
  intros (_ & _ & _ & _ & _ & _ & HA & HB) H.
  pose proof (f_equal fst H) as Hv. apply (f_equal snd) in H.
  unfold WAGetTitleGain in Hv, H. cbn [fst snd] in Hv, H.
  rewrite (merge_histograms_all _ _ HA HB) in H. cbn [fst snd] in H.
  subst v rg'.
  unfold history_cleared, same_configuration; fields.
  split; [reflexivity|]. split; [reflexivity|]. split; [reflexivity|].
  split; [repeat split; apply prefix_cleared_zero_fill|].
  split; [reflexivity|]. split; [reflexivity|]. split; [reflexivity|].
  tauto.
Qed.

End QueryFacts.

(* ------------------------------------------------------------------ *)
(** ** The filters and the accumulation of squares *)

Section FilterFacts.
Context {FA : FloatArith}.
Implicit Types (input output kernel buf : list Float_t) (ip op off : Z).

Lemma length_filterYule input ip output op n kernel :
  length (filterYule input ip output op n kernel) = length output.
Proof.
  revert ip output op; induction n as [|n IH]; intros ip output op;
    cbn [filterYule]; [reflexivity|].
  cbv zeta. rewrite IH. apply length_store.
Qed.

Lemma length_filterButter input ip output op n kernel :
  length (filterButter input ip output op n kernel) = length output.
Proof.
  revert ip output op; induction n as [|n IH]; intros ip output op;
    cbn [filterButter]; [reflexivity|].
  cbv zeta. rewrite IH. apply length_store.
Qed.

(** A filter writes [output + op .. output + op + n - 1] and nothing else. *)
Lemma filterYule_outside input ip output op n kernel j :
  j < op \/ op + Z.of_nat n <= j ->
  load Fzero (filterYule input ip output op n kernel) j = load Fzero output j.
Proof.
  revert ip output op; induction n as [|n IH]; intros ip output op H;
    cbn [filterYule]; [reflexivity|].
  cbv zeta. rewrite IH by lia. apply load_store_neq; lia.
Qed.

Lemma filterButter_outside input ip output op n kernel j :
  j < op \/ op + Z.of_nat n <= j ->
  load Fzero (filterButter input ip output op n kernel) j
  = load Fzero output j.
Proof.
  revert ip output op; induction n as [|n IH]; intros ip output op H;
    cbn [filterButter]; [reflexivity|].
  cbv zeta. rewrite IH by lia. apply load_store_neq; lia.
Qed.

(** A filter reads its input from [ip - order] to [ip + n - 1] only. *)
Lemma filterYule_ext input1 ip1 input2 ip2 output op n kernel :
  (forall d, - MAX_ORDER <= d < Z.of_nat n ->
     load Fzero input1 (ip1 + d) = load Fzero input2 (ip2 + d)) ->
  filterYule input1 ip1 output op n kernel
  = filterYule input2 ip2 output op n kernel.
Proof.
  revert ip1 ip2 output op; induction n as [|n IH];
    intros ip1 ip2 output op H; cbn [filterYule]; [reflexivity|].
  cbv zeta.
  assert (E : forall k, 0 <= k <= 10 ->
            load Fzero input1 (ip1 - k) = load Fzero input2 (ip2 - k)).
  { intros k Hk. unfold MAX_ORDER in H; cbn in H.
    replace (ip1 - k) with (ip1 + - k) by lia.
    replace (ip2 - k) with (ip2 + - k) by lia. apply H; lia. }
  rewrite !E by lia.
  apply IH. intros d Hd.
  replace (ip1 + 1 + d) with (ip1 + (d + 1)) by lia.
  replace (ip2 + 1 + d) with (ip2 + (d + 1)) by lia.
  apply H; lia.
Qed.

Lemma filterButter_ext input1 ip1 input2 ip2 output op n kernel :
  (forall d, - BUTTER_ORDER <= d < Z.of_nat n ->
     load Fzero input1 (ip1 + d) = load Fzero input2 (ip2 + d)) ->
  filterButter input1 ip1 output op n kernel
  = filterButter input2 ip2 output op n kernel.
Proof.
  revert ip1 ip2 output op; induction n as [|n IH];
    intros ip1 ip2 output op H; cbn [filterButter]; [reflexivity|].
  cbv zeta.
  assert (E : forall k, 0 <= k <= 2 ->
            load Fzero input1 (ip1 - k) = load Fzero input2 (ip2 - k)).
  { intros k Hk. unfold BUTTER_ORDER in H.
    replace (ip1 - k) with (ip1 + - k) by lia.
    replace (ip2 - k) with (ip2 + - k) by lia. apply H; lia. }
  rewrite !E by lia.
  apply IH. intros d Hd.
  replace (ip1 + 1 + d) with (ip1 + (d + 1)) by lia.
  replace (ip2 + 1 + d) with (ip2 + (d + 1)) by lia.
  apply H; lia.
Qed.

(** Filtering [n1 + n2] samples is filtering [n1] and then [n2]. *)
Lemma filterYule_app input ip output op n1 n2 kernel :
  filterYule input ip output op (n1 + n2) kernel
  = filterYule input (ip + Z.of_nat n1)
      (filterYule input ip output op n1 kernel) (op + Z.of_nat n1) n2 kernel.
Proof.
  revert ip output op; induction n1 as [|n1 IH]; intros ip output op.
  - cbn [filterYule Nat.add Z.of_nat]. now rewrite !Z.add_0_r.
  - cbn [filterYule Nat.add]. cbv zeta. rewrite IH.
    rewrite Nat2Z.inj_succ.
    replace (ip + 1 + Z.of_nat n1) with (ip + Z.succ (Z.of_nat n1)) by lia.
    replace (op + 1 + Z.of_nat n1) with (op + Z.succ (Z.of_nat n1)) by lia.
    reflexivity.
Qed.

Lemma filterButter_app input ip output op n1 n2 kernel :
  filterButter input ip output op (n1 + n2) kernel
  = filterButter input (ip + Z.of_nat n1)
      (filterButter input ip output op n1 kernel) (op + Z.of_nat n1) n2
      kernel.
Proof.
  revert ip output op; induction n1 as [|n1 IH]; intros ip output op.
  - cbn [filterButter Nat.add Z.of_nat]. now rewrite !Z.add_0_r.
  - cbn [filterButter Nat.add]. cbv zeta. rewrite IH.
    rewrite Nat2Z.inj_succ.
    replace (ip + 1 + Z.of_nat n1) with (ip + Z.succ (Z.of_nat n1)) by lia.
    replace (op + 1 + Z.of_nat n1) with (op + Z.succ (Z.of_nat n1)) by lia.
    reflexivity.
Qed.

(** The sums read [buf + off .. buf + off + n - 1] only. *)
Lemma sum_tail_ext buf1 buf2 off n sum :
  (forall d, 0 <= d < Z.of_nat n ->
     load Fzero buf1 (off + d) = load Fzero buf2 (off + d)) ->
  sum_tail buf1 off n sum = sum_tail buf2 off n sum.
Proof.
  revert off sum; induction n as [|n IH]; intros off sum H;
    cbn [sum_tail]; [reflexivity|].
  replace (load Fzero buf1 off) with (load Fzero buf2 off)
    by (specialize (H 0); rewrite !Z.add_0_r in H; symmetry; apply H; lia).
  apply IH. intros d Hd.
  replace (off + 1 + d) with (off + (d + 1)) by lia. apply H; lia.
Qed.

Lemma sum_tail_app buf off n1 n2 sum :
  sum_tail buf off (n1 + n2) sum
  = sum_tail buf (off + Z.of_nat n1) n2 (sum_tail buf off n1 sum).
Proof.
  revert off sum; induction n1 as [|n1 IH]; intros off sum.
  - cbn [sum_tail Nat.add Z.of_nat]. now rewrite Z.add_0_r.
  - cbn [sum_tail Nat.add]. rewrite IH, Nat2Z.inj_succ.
    replace (off + 1 + Z.of_nat n1) with (off + Z.succ (Z.of_nat n1)) by lia.
    reflexivity.
Qed.

Lemma block16_ext buf1 buf2 off :
  (forall d, 0 <= d < 16 ->
     load Fzero buf1 (off + d) = load Fzero buf2 (off + d)) ->
  block16 buf1 off = block16 buf2 off.
Proof.
  intros H. unfold block16. cbv zeta. rewrite !H by lia. reflexivity.
Qed.

Lemma sum_blocks_ext buf1 buf2 off n sum :
  (forall d, 0 <= d < 16 * Z.of_nat n ->
     load Fzero buf1 (off + d) = load Fzero buf2 (off + d)) ->
  sum_blocks buf1 off n sum = sum_blocks buf2 off n sum.
Proof.
  revert off sum; induction n as [|n IH]; intros off sum H;
    cbn [sum_blocks]; [reflexivity|].
  rewrite (block16_ext buf1 buf2) by (intros d Hd; apply H; lia).
  apply IH. intros d Hd.
  replace (off + 16 + d) with (off + (d + 16)) by lia. apply H; lia.
Qed.

Lemma sum_squares_ext buf1 buf2 off c sum :
  0 <= c ->
  (forall d, 0 <= d < c ->
     load Fzero buf1 (off + d) = load Fzero buf2 (off + d)) ->
  sum_squares buf1 off c sum = sum_squares buf2 off c sum.
Proof.
  intros Hc H. unfold sum_squares. cbv zeta.
  pose proof (Z.mod_pos_bound c 16 ltac:(lia)) as Hm.
  pose proof (Z.div_mod c 16 ltac:(lia)) as Hd.
  assert (0 <= c / 16) by (apply Z.div_pos; lia).
  rewrite (sum_tail_ext buf1 buf2) by (intros d Hd'; apply H; lia).
  apply sum_blocks_ext. intros d Hd'.
  replace (off + c mod 16 + d) with (off + (c mod 16 + d)) by lia.
  apply H; lia.
Qed.

Section Regrouping.
(** When the additions of [double] may be regrouped, the two summation
    loops add the squares one by one. *)
Hypothesis dadd_assoc :
  forall a b c : double, dadd a (dadd b c) = dadd (dadd a b) c.

Lemma block16_sequential buf off sum :
  dadd sum (block16 buf off) = sum_tail buf off 16 sum.
Proof.
  unfold block16. cbv zeta. rewrite !dadd_assoc.
  cbn [sum_tail]. rewrite Z.add_0_r.
  repeat (rewrite <- Z.add_assoc; cbn [Z.add Pos.add Pos.succ]).
  reflexivity.
Qed.

Lemma sum_blocks_sequential buf off n sum :
  sum_blocks buf off n sum = sum_tail buf off (16 * n) sum.
Proof.
  revert off sum; induction n as [|n IH]; intros off sum.
  - rewrite Nat.mul_0_r. reflexivity.
  - cbn [sum_blocks]. rewrite IH, block16_sequential.
    replace (16 * S n)%nat with (16 + 16 * n)%nat by lia.
    rewrite sum_tail_app. reflexivity.
Qed.

Lemma sum_squares_sequential buf off c sum :
  0 <= c -> sum_squares buf off c sum = sum_tail buf off (Z.to_nat c) sum.
Proof.
  intros Hc. unfold sum_squares. cbv zeta.
  pose proof (Z.mod_pos_bound c 16 ltac:(lia)) as Hm.
  pose proof (Z.div_mod c 16 ltac:(lia)) as Hd.
  assert (0 <= c / 16) by (apply Z.div_pos; lia).
  rewrite sum_blocks_sequential.
  replace (Z.to_nat c)
    with (Z.to_nat (c mod 16) + 16 * Z.to_nat (c / 16))%nat by lia.
  rewrite sum_tail_app. rewrite Z2Nat.id by lia. reflexivity.
Qed.

End Regrouping.

End FilterFacts.

(* ------------------------------------------------------------------ *)
(** ** Feeding samples: sizes, frame and the window counter *)

Section FeedFacts.
Context {FA : FloatArith}.

Lemma filter_and_sum_frame rg inl ipl inr ipr c :
  let rg' := filter_and_sum rg inl ipl inr ipr c in
  linprebuf rg' = linprebuf rg /\ rinprebuf rg' = rinprebuf rg /\
  same_configuration rg rg' /\ totsamp rg' = totsamp rg /\
  A rg' = A rg /\ B rg' = B rg.
Proof.
  unfold filter_and_sum, same_configuration; cbv zeta; fields. tauto.
Qed.

Lemma process_batch_frame rg inl ipl inr ipr c :
  let rg' := process_batch rg inl ipl inr ipr c in
  linprebuf rg' = linprebuf rg /\ rinprebuf rg' = rinprebuf rg /\
  same_configuration rg rg' /\ B rg' = B rg.
Proof.
  unfold process_batch; cbv zeta.
  destruct (_ =? _);
    unfold close_window, filter_and_sum, same_configuration; cbv zeta;
    fields; tauto.
Qed.

Lemma process_batch_sized rg inl ipl inr ipr c :
  well_sized rg -> well_sized (process_batch rg inl ipl inr ipr c).
Proof.
  unfold well_sized, process_batch; cbv zeta.
  destruct (_ =? _);
    unfold close_window, filter_and_sum; cbv zeta; fields;
    rewrite ?length_memmove, ?length_filterButter, ?length_filterYule,
      ?length_store; tauto.
Qed.

(** The window counter after a batch that fits the window. *)
Lemma process_batch_totsamp rg inl ipl inr ipr c :
  0 <= totsamp rg -> 0 <= c ->
  totsamp rg + c <= sampleWindow rg -> sampleWindow rg < 2 ^ 32 ->
  totsamp (process_batch rg inl ipl inr ipr c)
  = if totsamp rg + c =? sampleWindow rg then 0 else totsamp rg + c.
Proof.
  intros Ht Hc Hw Hs. unfold process_batch; cbv zeta.
  destruct (filter_and_sum_frame rg inl ipl inr ipr c)
    as (_ & _ & (_ & Hsw & _) & Hts & _).
  fields. rewrite Hts, Hsw, wrap32_small by lia.
  destruct (_ =? _); reflexivity.
Qed.

Lemma process_batch_ready rg inl ipl inr ipr c :
  ready rg -> 0 <= c -> totsamp rg + c <= sampleWindow rg ->
  ready (process_batch rg inl ipl inr ipr c).
Proof.
  intros (Hs & Hp & Hw & Ht) Hc Hfit.
  pose proof (process_batch_frame rg inl ipl inr ipr c) as Hf.
  pose proof (process_batch_totsamp rg inl ipl inr ipr c) as Hn.
  cbv zeta in Hf. destruct Hf as (_ & _ & Hcfg & _).
  unfold same_configuration in Hcfg.
  unfold MAX_SAMPLES_PER_WINDOW in Hw.
  unfold ready. rewrite Hn by lia. clear Hn.
  split; [apply process_batch_sized, Hs|].
  destruct Hcfg as (_ & -> & -> & -> & -> & -> & -> & -> & _).
  split; [exact Hp|]. split; [exact Hw|].
  destruct (Z.eqb_spec (totsamp rg + c) (sampleWindow rg)); lia.
Qed.

(** [cursamples] on a ready context: at least one sample, at most what is
    left of the call, of the window and of the staged prefix. *)
Lemma batch_size_bounds rg batchsamples cursamplepos :
  ready rg -> 0 < batchsamples -> 0 <= cursamplepos ->
  let c := batch_size rg batchsamples cursamplepos in
  1 <= c <= batchsamples /\ totsamp rg + c <= sampleWindow rg /\
  (cursamplepos < MAX_ORDER -> cursamplepos + c <= MAX_ORDER).
Proof.
  intros (_ & _ & Hw & Ht) Hb Hp. unfold batch_size; cbv zeta.
  unfold MAX_SAMPLES_PER_WINDOW in Hw. rewrite MAX_ORDER_value.
  rewrite (wrap32_small (sampleWindow rg - totsamp rg)) by lia.
  destruct (Z.ltb_spec cursamplepos 10).
  - rewrite (wrap32_small (10 - cursamplepos)) by lia.
    destruct (Z.gtb_spec batchsamples (sampleWindow rg - totsamp rg));
      match goal with |- context [?a >? ?b] => destruct (Z.gtb_spec a b) end;
      lia.
  - destruct (Z.gtb_spec batchsamples (sampleWindow rg - totsamp rg)); lia.
Qed.

Lemma analyze_step_ready l r rg batchsamples cursamplepos :
  ready rg -> 0 < batchsamples -> 0 <= cursamplepos ->
  batchsamples + cursamplepos < 2 ^ 32 ->
  let '(rg', b', p') := analyze_step l r rg batchsamples cursamplepos in
  ready rg' /\ 0 <= b' < batchsamples /\ 0 <= p' /\
  b' + p' = batchsamples + cursamplepos.
Proof.
  intros Hr Hb Hp Hlt. unfold analyze_step; cbv zeta.
  destruct (batch_size_bounds rg batchsamples cursamplepos Hr Hb Hp)
    as (Hc & Hfit & _).
  set (c := batch_size rg batchsamples cursamplepos) in *.
  rewrite !wrap32_small by lia.
  split; [|lia].
  destruct (cursamplepos <? MAX_ORDER); apply process_batch_ready; auto; lia.
Qed.

(** The loop on a ready context never leaves through the error return,
    keeps the context ready, and is over after at most [batchsamples]
    iterations. *)
Lemma analyze_loop_ready fuel l r :
  forall rg batchsamples cursamplepos,
  ready rg -> 0 <= batchsamples -> 0 <= cursamplepos ->
  batchsamples + cursamplepos < 2 ^ 32 ->
  (forall res, analyze_loop fuel l r rg batchsamples cursamplepos = Some res ->
     fst res = true /\ ready (snd res)) /\
  ((Z.to_nat batchsamples < fuel)%nat ->
   exists rg', analyze_loop fuel l r rg batchsamples cursamplepos
               = Some (true, rg')).
Proof.
  induction fuel as [|fuel IH]; intros rg b p Hr Hb Hp Hlt.
  - split; [discriminate | lia].
  - cbn [analyze_loop].
    destruct (Z.gtb_spec b 0) as [Hpos|Hzero].
    + pose proof (analyze_step_ready l r rg b p Hr Hpos Hp Hlt) as Hstep.
      destruct (analyze_step l r rg b p) as [[rg1 b1] p1].
      destruct Hstep as (Hr1 & Hb1 & Hp1 & Hsum).
      assert (Hno : (totsamp rg1 >? sampleWindow rg1) = false).
      { destruct Hr1 as (_ & _ & _ & Ht1).
        destruct (Z.gtb_spec (totsamp rg1) (sampleWindow rg1)); [lia|easy]. }
      rewrite Hno.
      destruct (IH rg1 b1 p1 Hr1 ltac:(lia) Hp1 ltac:(lia)) as [IH1 IH2].
      split; [exact IH1|]. intros Hf. apply IH2. lia.
    + split.
      * intros res H; inversion H; subst; cbn [fst snd]; auto.
      * intros _. eexists; reflexivity.
Qed.

Lemma analyze_loop_frame fuel l r :
  forall rg batchsamples cursamplepos res,
  analyze_loop fuel l r rg batchsamples cursamplepos = Some res ->
  linprebuf (snd res) = linprebuf rg /\ rinprebuf (snd res) = rinprebuf rg /\
  same_configuration rg (snd res) /\ B (snd res) = B rg.
Proof.
  unfold same_configuration.
  induction fuel as [|fuel IH]; intros rg b p res; [discriminate|].
  cbn [analyze_loop].
  destruct (b >? 0).
  - unfold analyze_step; cbv zeta.
    set (c := batch_size rg b p).
    assert (Hf : forall inl ipl inr ipr,
              let rg' := process_batch rg inl ipl inr ipr c in
              linprebuf rg' = linprebuf rg /\ rinprebuf rg' = rinprebuf rg /\
              same_configuration rg rg' /\ B rg' = B rg)
      by (intros; apply process_batch_frame).
    unfold same_configuration in Hf; cbv zeta in Hf.
    destruct (p <? MAX_ORDER);
      match goal with
      | |- context [process_batch rg ?a ?b ?c ?d ?e] =>
          specialize (Hf a b c d);
          set (rg1 := process_batch rg a b c d e) in *
      end;
      (destruct (totsamp rg1 >? sampleWindow rg1);
       [ intros H; apply (f_equal (fun o => match o with
                                             | Some x => snd x
                                             | None => rg1 end)) in H;
         cbn [snd] in H; subst; cbn [snd];
         repeat split; intuition congruence
       | intros H; apply IH in H;
         repeat split; intuition congruence ]).
  - intros H; inversion H; subst; cbn [snd]. tauto.
Qed.

Lemma analyze_loop_sized fuel l r :
  forall rg batchsamples cursamplepos res,
  well_sized rg ->
  analyze_loop fuel l r rg batchsamples cursamplepos = Some res ->
  well_sized (snd res).
Proof.
  induction fuel as [|fuel IH]; intros rg b p res Hs; [discriminate|].
  cbn [analyze_loop].
  destruct (b >? 0).
  - unfold analyze_step; cbv zeta.
    set (c := batch_size rg b p).
    destruct (p <? MAX_ORDER);
      match goal with
      | |- context [process_batch rg ?a ?b ?c ?d ?e] =>
          pose proof (process_batch_sized rg a b c d e Hs) as Hs1;
          set (rg1 := process_batch rg a b c d e) in *
      end;
      (destruct (totsamp rg1 >? sampleWindow rg1);
       [ intros H; apply (f_equal (fun o => match o with
                                             | Some x => snd x
                                             | None => rg1 end)) in H;
         cbn [snd] in H; rewrite <- H; exact Hs1
       | intros H; apply IH in H; assumption ]).
  - intros H; inversion H; subst; exact Hs.
Qed.

(** More fuel does not change the result of the loop. *)
Lemma analyze_loop_more_fuel fuel l r :
  forall fuel' rg batchsamples cursamplepos res,
  (fuel <= fuel')%nat ->
  analyze_loop fuel l r rg batchsamples cursamplepos = Some res ->
  analyze_loop fuel' l r rg batchsamples cursamplepos = Some res.
Proof.
  induction fuel as [|fuel IH]; intros fuel' rg b p res Hle; [discriminate|].
  destruct fuel' as [|fuel']; [lia|].
  cbn [analyze_loop].
  destruct (b >? 0); [|auto].
  destruct (analyze_step l r rg b p) as [[rg1 b1] p1].
  destruct (totsamp rg1 >? sampleWindow rg1); [auto|].
  apply IH; lia.
Qed.

Lemma stage_prefix_ready rg l r n : ready rg -> ready (stage_prefix rg l r n).
Proof.
  unfold ready, well_sized, stage_prefix; cbv zeta; fields.
  rewrite !length_memmove. tauto.
Qed.

Lemma length_saved_history (buf samples : list Float_t) n :
  length (saved_history buf samples n) = length buf.
Proof.
  unfold saved_history. destruct (n <? MAX_ORDER);
    rewrite ?length_memmove; reflexivity.
Qed.

Lemma save_history_ready rg l r n : ready rg -> ready (save_history rg l r n).
Proof.
  unfold ready, well_sized, save_history; fields.
  rewrite !length_saved_history. tauto.
Qed.

Lemma stage_prefix_sized rg l r n :
  well_sized rg -> well_sized (stage_prefix rg l r n).
Proof.
  unfold well_sized, stage_prefix; cbv zeta; fields.
  rewrite !length_memmove. tauto.
Qed.

Lemma save_history_sized rg l r n :
  well_sized rg -> well_sized (save_history rg l r n).
Proof.
  unfold well_sized, save_history; fields.
  rewrite !length_saved_history. tauto.
Qed.

(** The three ways out of [WAAnalyzeSamples]. *)
Lemma feed_cases fuel rg l r n ch :
  (n = 0 /\ WAAnalyzeSamples fuel rg l r n ch = Some (GAIN_ANALYSIS_OK, rg))
  \/ (n <> 0 /\ ch <> 1 /\ ch <> 2 /\
      WAAnalyzeSamples fuel rg l r n ch = Some (GAIN_ANALYSIS_ERROR, rg))
  \/ (n <> 0 /\ (ch = 1 \/ ch = 2) /\
      let r' := if ch =? 1 then l else r in
      WAAnalyzeSamples fuel rg l r n ch =
      match analyze_loop fuel l r' (stage_prefix rg l r' n) n 0 with
      | None => None
      | Some (false, rg') => Some (GAIN_ANALYSIS_ERROR, rg')
      | Some (true, rg') =>
          Some (GAIN_ANALYSIS_OK, save_history rg' l r' n)
      end).
Proof.
  unfold WAAnalyzeSamples.
  destruct (Z.eqb_spec n 0) as [->|Hn]; [left; auto|right].
  destruct (Z.eqb_spec ch 1) as [->|H1]; [right; cbn; auto|].
  destruct (Z.eqb_spec ch 2) as [->|H2]; [right; cbn; auto|].
  left; auto.
Qed.

Lemma feed_frame fuel rg l r n ch st rg' :
  WAAnalyzeSamples fuel rg l r n ch = Some (st, rg') ->
  same_configuration rg rg' /\ B rg' = B rg.
Proof.
  destruct (feed_cases fuel rg l r n ch)
    as [(_ & ->) | [(_ & _ & _ & ->) | (_ & _ & ->)]].
  - intros H; inversion H; subst. unfold same_configuration; tauto.
  - intros H; inversion H; subst. unfold same_configuration; tauto.
  - cbv zeta. set (r' := if ch =? 1 then l else r).
    destruct (analyze_loop fuel l r' (stage_prefix rg l r' n) n 0)
      as [[[|] rg1]|] eqn:E; [| |discriminate];
      apply analyze_loop_frame in E; cbn [snd] in E;
      unfold same_configuration, stage_prefix in *; cbv zeta in E;
      fields_in_all;
      intros H; inversion H; subst; unfold save_history; fields;
      intuition congruence.
Qed.

Lemma feed_sized fuel rg l r n ch st rg' :
  well_sized rg ->
  WAAnalyzeSamples fuel rg l r n ch = Some (st, rg') -> well_sized rg'.
Proof.
  intros Hs.
  destruct (feed_cases fuel rg l r n ch)
    as [(_ & ->) | [(_ & _ & _ & ->) | (_ & _ & ->)]].
  - intros H; inversion H; subst; exact Hs.
  - intros H; inversion H; subst; exact Hs.
  - cbv zeta. set (r' := if ch =? 1 then l else r).
    pose proof (stage_prefix_sized rg l r' n Hs) as Hs0.
    destruct (analyze_loop fuel l r' (stage_prefix rg l r' n) n 0)
      as [[[|] rg1]|] eqn:E; [| |discriminate];
      apply analyze_loop_sized in E; auto; cbn [snd] in E;
      intros H; inversion H; subst; auto using save_history_sized.
Qed.

(** Feeding a ready context: the error return is the channel check, the
    context stays ready, and with fuel for one iteration per sample the
    call returns. *)
Lemma feed_ready fuel rg l r n ch :
  ready rg -> 0 <= n < 2 ^ 32 ->
  (forall st rg',
     WAAnalyzeSamples fuel rg l r n ch = Some (st, rg') ->
     ready rg' /\ (st = GAIN_ANALYSIS_ERROR -> ch <> 1 /\ ch <> 2)) /\
  ((ch = 1 \/ ch = 2) -> (Z.to_nat n < fuel)%nat ->
   exists rg',
     WAAnalyzeSamples fuel rg l r n ch = Some (GAIN_ANALYSIS_OK, rg')).
Proof.
  intros Hr Hn.
  destruct (feed_cases fuel rg l r n ch)
    as [(_ & ->) | [(_ & H1 & H2 & ->) | (_ & Hch & ->)]].
  - split; [|eauto].
    intros st rg' H; inversion H; subst; split; [auto|discriminate].
  - split; [|lia].
    intros st rg' H; inversion H; subst; auto.
  - cbv zeta. set (r' := if ch =? 1 then l else r).
    pose proof (stage_prefix_ready rg l r' n Hr) as Hr0.
    destruct (analyze_loop_ready fuel l r' (stage_prefix rg l r' n) n 0 Hr0
                ltac:(lia) ltac:(lia) ltac:(lia)) as [Hp Ht].
    split.
    + intros st rg'.
      destruct (analyze_loop fuel l r' (stage_prefix rg l r' n) n 0)
        as [[b rg1]|]; [|discriminate].
      destruct (Hp _ eq_refl) as [Hb Hr1]; cbn [fst snd] in Hb, Hr1.
      subst b. intros H; inversion H; subst.
      split; [apply save_history_ready, Hr1 | discriminate].
    + intros _ Hf. destruct (Ht Hf) as [rg1 ->]. eauto.
Qed.

End FeedFacts.

(* ------------------------------------------------------------------ *)
(** ** The window counter between calls *)

Section Invariant.
Context {FA : FloatArith}.

Local Notation "a +! b" := (dadd a b) (at level 50, left associativity).
Local Notation "a *! b" := (dmul a b) (at level 40, left associativity).
Local Notation "a /! b" := (ddiv a b) (at level 40, left associativity).

Lemma exact_window_supported samplefreq :
  In samplefreq supported_rates ->
  0 < exact_window samplefreq <= MAX_SAMPLES_PER_WINDOW.
Proof.
  unfold supported_rates; cbn [In]; intros H.
  repeat (destruct H as [<-|H]; [cbv; split; congruence|]).
  contradiction.
Qed.

Lemma length_zero_histogram : Z.of_nat (length zero_histogram) = HISTOGRAM_LEN.
Proof.
  unfold zero_histogram. rewrite repeat_length.
  apply Z2Nat.id. unfold HISTOGRAM_LEN; lia.
Qed.

Lemma length_zero_fill n i (buf : list Float_t) :
  length (zero_fill n i buf) = length buf.
Proof. rewrite zero_fill_blit. apply length_blit. Qed.

Lemma zero_history_sized rg : well_sized rg -> well_sized (zero_history rg).
Proof.
  unfold well_sized, zero_history; cbv zeta; fields.
  rewrite !length_zero_fill. tauto.
Qed.

Lemma zero_history_ready rg : ready rg -> ready (zero_history rg).
Proof.
  intros (Hs & Hp & Hw & Ht). split; [apply zero_history_sized, Hs|].
  unfold zero_history; fields. tauto.
Qed.

Lemma reset_ok_inv rg samplefreq rg' :
  - 2 ^ 31 <= samplefreq < 2 ^ 31 ->
  WAResetSampleFrequency rg samplefreq = (INIT_GAIN_ANALYSIS_OK, rg') ->
  In samplefreq supported_rates /\
  exists i,
    rg' =
    {| linprebuf := linprebuf (zero_history rg); linpre := linpre rg;
       lstepbuf := lstepbuf (zero_history rg); lstep := lstep rg;
       loutbuf := loutbuf (zero_history rg); lout := lout rg;
       rinprebuf := rinprebuf (zero_history rg); rinpre := rinpre rg;
       rstepbuf := rstepbuf (zero_history rg); rstep := rstep rg;
       routbuf := routbuf (zero_history rg); rout := rout rg;
       sampleWindow := window_samples samplefreq;
       totsamp := 0;
       lsum := dlit 0; rsum := dlit 0;
       freqindex := i;
       first := first rg;
       A := zero_histogram; B := B rg |}.
Proof.
  intros Hr. unfold WAResetSampleFrequency; cbv zeta.
  destruct (freqindex_of samplefreq) as [i|] eqn:E; [|discriminate].
  intros H. apply (f_equal snd) in H; cbn [snd] in H. subst rg'.
  split.
  - apply (freqindex_of_supported _ Hr). exists i.
    split; [exact E | exact (freqindex_of_range _ _ E)].
  - exists i. unfold zero_history; fields. reflexivity.
Qed.

Lemma reset_ready rg samplefreq st rg' :
  window_law -> ready rg ->
  - 2 ^ 31 <= samplefreq < 2 ^ 31 ->
  WAResetSampleFrequency rg samplefreq = (st, rg') -> ready rg'.
Proof.
  intros Hlaw Hrdy Hr H. destruct st.
  - unfold WAResetSampleFrequency in H; cbv zeta in H.
    destruct (freqindex_of samplefreq); [discriminate|].
    apply (f_equal snd) in H; cbn [snd] in H. subst rg'.
    apply zero_history_ready, Hrdy.
  - destruct (reset_ok_inv rg samplefreq rg' Hr H) as (Hin & i & ->).
    pose proof (zero_history_ready rg Hrdy)
      as ((H1 & H2 & H3 & H4 & H5 & H6 & _ & H8) & Hp & _).
    pose proof (exact_window_supported _ Hin) as Hx.
    rewrite <- (Hlaw _ Hin) in Hx.
    unfold zero_history in Hp, H8; fields_in_all.
    unfold ready, well_sized; fields.
    rewrite length_zero_histogram.
    repeat split; auto; try tauto; lia.
Qed.

Lemma init_ready block samplefreq st rg :
  window_law ->
  well_sized block ->
  (st = INIT_GAIN_ANALYSIS_ERROR -> ready block) ->
  - 2 ^ 31 <= samplefreq < 2 ^ 31 ->
  WAInitGainAnalysis block samplefreq = (st, rg) -> ready rg.
Proof.
  intros Hlaw Hs Hrdy Hr. unfold WAInitGainAnalysis.
  destruct (WAResetSampleFrequency block samplefreq) as [st1 rg1] eqn:E.
  destruct st1; intros H.
  - pose proof (f_equal fst H) as Hst; cbn [fst] in Hst.
    apply (f_equal snd) in H; cbn [snd] in H. subst rg st.
    unfold WAResetSampleFrequency in E; cbv zeta in E.
    destruct (freqindex_of samplefreq); [discriminate|].
    apply (f_equal snd) in E; cbn [snd] in E. subst rg1.
    apply zero_history_ready; auto.
  - apply (f_equal snd) in H; cbn [snd] in H. subst rg.
    destruct (reset_ok_inv block samplefreq rg1 Hr E) as (Hin & i & ->).
    pose proof (zero_history_sized block Hs)
      as (H1 & H2 & H3 & H4 & H5 & H6 & _ & H8).
    pose proof (exact_window_supported _ Hin) as Hx.
    rewrite <- (Hlaw _ Hin) in Hx.
    unfold ready, well_sized; fields.
    rewrite !length_zero_histogram.
    repeat split; auto; lia.
Qed.

Lemma title_ready rg : ready rg -> ready (snd (WAGetTitleGain rg)).
Proof.
  intros ((H1 & H2 & H3 & H4 & H5 & H6 & HA & HB) & Hp & Hw & Ht).
  unfold WAGetTitleGain; cbv zeta; cbn [snd].
  rewrite (merge_histograms_all _ _ HA HB).
  unfold ready, well_sized; fields.
  rewrite !length_zero_fill, length_zero_histogram.
  unfold add_histograms. rewrite length_map, length_combine.
  repeat split; auto; try lia.
Qed.

Lemma reachable_ready rg : window_law -> reachable rg -> ready rg.
Proof.
  intros Hlaw H.
  induction H as [block f rg Hs Hr H | rg f st rg' _ IH Hr H
                 | rg f st rg' _ IH Hr H
                 | rg fuel l r n ch st rg' _ IH Hn H
                 | rg v rg' _ IH H].
  - apply (init_ready block f INIT_GAIN_ANALYSIS_OK rg Hlaw Hs); auto.
    discriminate.
  - apply (init_ready rg f st rg' Hlaw); auto. apply IH.
  - apply (reset_ready rg f st rg' Hlaw IH Hr H).
  - destruct (feed_ready fuel rg l r n ch IH Hn) as [Hp _].
    apply (Hp _ _ H).
  - apply (f_equal snd) in H; cbn [snd] in H. subst rg'.
    apply title_ready, IH.
Qed.

(** C7. Window-counter invariant: between calls, on every context that
    initialisations, feeds and queries can produce, the counter of the
    partial window is below the window size; the loop of [feed] therefore
    never takes its error return ([GAIN_ANALYSIS_ERROR] comes from the
    channel check alone) and a call on one or two channels returns
    [GAIN_ANALYSIS_OK]. *)
Theorem window_counter_invariant rg :
  window_law -> reachable rg ->
  0 <= totsamp rg < sampleWindow rg /\
  (forall fuel l r n ch rg',
     0 <= n < 2 ^ 32 ->
     WAAnalyzeSamples fuel rg l r n ch = Some (GAIN_ANALYSIS_ERROR, rg') ->
     ch <> 1 /\ ch <> 2) /\
  (forall l r n ch,
     0 <= n < 2 ^ 32 -> ch = 1 \/ ch = 2 ->
     exists rg', forall fuel, (Z.to_nat n < fuel)%nat ->
       WAAnalyzeSamples fuel rg l r n ch = Some (GAIN_ANALYSIS_OK, rg')).
Proof.
  intros Hlaw Hreach.
  pose proof (reachable_ready rg Hlaw Hreach) as Hr.
  split; [apply Hr|]. split.
  - intros fuel l r n ch rg' Hn H.
    destruct (feed_ready fuel rg l r n ch Hr Hn) as [Hp _].
    destruct (Hp _ _ H) as [_ He]. auto.
  - intros l r n ch Hn Hch.
    destruct (feed_ready (S (Z.to_nat n)) rg l r n ch Hr Hn) as [_ Ht].
    destruct (Ht Hch ltac:(lia)) as [rg' H].
    exists rg'. intros fuel Hf.
    destruct (feed_cases (S (Z.to_nat n)) rg l r n ch)
      as [(Hz & E) | [(_ & H1 & H2 & _) | (Hnz & _ & E)]]; [| lia |].
    + destruct (feed_cases fuel rg l r n ch)
        as [(_ & E') | [(? & _) | (? & _)]]; try lia. congruence.
    + destruct (feed_cases fuel rg l r n ch)
        as [(? & _) | [(_ & H1 & H2 & _) | (_ & _ & E')]]; try lia.
      cbv zeta in E, E'. rewrite E'. rewrite E in H.
      set (r' := if ch =? 1 then l else r) in *.
      destruct (analyze_loop (S (Z.to_nat n)) l r' (stage_prefix rg l r' n) n 0)
        as [res|] eqn:EL; [|discriminate].
      rewrite (analyze_loop_more_fuel (S (Z.to_nat n)) l r' fuel _ _ _ _
                 ltac:(lia) EL).
      exact H.
Qed.

End Invariant.

(* ------------------------------------------------------------------ *)
(** ** Channel check and the album histogram *)

Section FeedClaims.
Context {FA : FloatArith}.

(** C9 (amended). Channel-count validation: the check for an empty call
    comes first.  A call with a channel count other than 1 and 2 and at
    least one sample is rejected with [GAIN_ANALYSIS_ERROR]; with no
    sample it returns [GAIN_ANALYSIS_OK]; the context is not modified in
    either case. *)
Theorem channel_check_follows_empty_check fuel rg l r n ch :
  ch <> 1 -> ch <> 2 ->
  (n <> 0 ->
   WAAnalyzeSamples fuel rg l r n ch = Some (GAIN_ANALYSIS_ERROR, rg)) /\
  (n = 0 ->
   WAAnalyzeSamples fuel rg l r n ch = Some (GAIN_ANALYSIS_OK, rg)).
Proof.
  intros H1 H2.
  destruct (feed_cases fuel rg l r n ch)
    as [(Hz & E) | [(Hnz & _ & _ & E) | (_ & Hch & _)]].
  - split; [lia | auto].
  - split; [auto | lia].
  - lia.
Qed.

Lemma sum_elems_zero (a : list Z) n :
  forall i elems,
  (forall j, load 0 a j = 0) -> sum_elems a i n elems = wrap32 (wrap32 elems)
  \/ n = O.
Proof.
  intros; destruct n; auto. left.
  revert i elems. induction n as [|n IH]; intros i elems.
  - cbn [sum_elems]. rewrite H, Z.add_0_r.
    unfold wrap32. now rewrite Z.mod_mod by lia.
  - cbn [sum_elems] in *. rewrite IH. rewrite H, Z.add_0_r.
    unfold wrap32. now rewrite !Z.mod_mod by lia.
Qed.

Lemma load_zero_histogram j : load 0 zero_histogram j = 0.
Proof.
  unfold load, zero_histogram. destruct (j <? 0); [reflexivity|].
  apply nth_repeat.
Qed.

(** The gain of an empty histogram is the sentinel. *)
Lemma analyzeResult_empty :
  analyzeResult zero_histogram HISTOGRAM_LEN = GAIN_NOT_ENOUGH_SAMPLES.
Proof.
  unfold analyzeResult; cbv zeta.
  destruct (sum_elems_zero zero_histogram (Z.to_nat HISTOGRAM_LEN) 0 0
              load_zero_histogram) as [->|H].
  - reflexivity.
  - unfold HISTOGRAM_LEN in H; lia.
Qed.

(** C4 (amended). Title-to-album mirroring: a completed window is
    counted in the title histogram only.  Feeding leaves the album
    histogram, and with it the album gain, as they were; the title query
    that follows adds every title bucket into the album bucket of the same
    index, once, and empties the title histogram.  The album gain thus
    reflects the windows that a title query has finalised. *)
Theorem album_follows_title_queries fuel rg l r n ch st rg1 v rg2 :
  well_sized rg ->
  WAAnalyzeSamples fuel rg l r n ch = Some (st, rg1) ->
  WAGetTitleGain rg1 = (v, rg2) ->
  B rg1 = B rg /\
  WAGetAlbumGain rg1 = WAGetAlbumGain rg /\
  B rg2 = add_histograms (B rg) (A rg1) /\
  A rg2 = zero_histogram.
Proof.
  intros Hs Hfeed Htitle.
  destruct (feed_frame _ _ _ _ _ _ _ _ Hfeed) as [_ HB].
  pose proof (feed_sized _ _ _ _ _ _ _ _ Hs Hfeed) as Hs1.
  destruct (title_query_effects rg1 v rg2 Hs1 Htitle)
    as (_ & HB2 & HA2 & _).
  unfold WAGetAlbumGain. rewrite HB2, HB. auto.
Qed.

End FeedClaims.

(* ------------------------------------------------------------------ *)
(** ** The percentile scan *)

Section Percentile.
Context {FA : FloatArith}.

Lemma counters_load a j : counters a -> 0 <= load 0 a j < 2 ^ 32.
Proof.
  intros H. unfold load. destruct (j <? 0); [lia|].
  destruct (Nat.lt_ge_cases (Z.to_nat j) (length a)) as [Hlt|Hge].
  - unfold counters in H. rewrite Forall_forall in H.
    apply H, nth_In, Hlt.
  - rewrite nth_overflow by assumption. lia.
Qed.

Lemma range_total_nonneg a i n : counters a -> 0 <= range_total a i n.
Proof.
  intros H; revert i; induction n as [|n IH]; intros i; cbn [range_total];
    [lia|].
  pose proof (counters_load a i H). specialize (IH (i + 1)). lia.
Qed.

Lemma range_total_snoc a i n :
  range_total a i (S n)
  = range_total a i n + load 0 a (i + Z.of_nat n).
Proof.
  revert i; induction n as [|n IH]; intros i.
  - cbn [range_total Z.of_nat]. replace (i + 0) with i by lia. lia.
  - change (range_total a i (S (S n)))
      with (load 0 a i + range_total a (i + 1) (S n)).
    rewrite IH. cbn [range_total]. rewrite Nat2Z.inj_succ.
    replace (i + 1 + Z.of_nat n) with (i + Z.succ (Z.of_nat n)) by lia.
    lia.
Qed.

Lemma range_total_all a : range_total a 0 (length a) = total a.
Proof.
  assert (G : forall p, range_total (p ++ a) (Z.of_nat (length p)) (length a)
                        = total a).
  { induction a as [|x a IH]; intros p; [reflexivity|].
    cbn [length range_total total].
    replace (load 0 (p ++ x :: a) (Z.of_nat (length p))) with x.
    - f_equal. specialize (IH (p ++ [x])).
      rewrite <- app_assoc, length_app in IH. cbn [app length] in IH.
      rewrite <- IH. f_equal. lia.
    - unfold load. destruct (Z.ltb_spec (Z.of_nat (length p)) 0); [lia|].
      rewrite Nat2Z.id, nth_middle. reflexivity. }
  exact (G []).
Qed.

(** Without wrap-around the first loop computes the total. *)
Lemma sum_elems_range a n :
  forall i elems,
  counters a -> 0 <= elems -> elems + range_total a i n < 2 ^ 32 ->
  sum_elems a i n elems = elems + range_total a i n.
Proof.
  induction n as [|n IH]; intros i elems Hc He Hlt; cbn [sum_elems range_total]
    in *; [lia|].
  pose proof (counters_load a i Hc).
  pose proof (range_total_nonneg a (i + 1) n Hc).
  rewrite IH; rewrite ?wrap32_small; auto; lia.
Qed.

Lemma sum_elems_total a :
  counters a -> total a < 2 ^ 32 ->
  sum_elems a 0 (length a) 0 = total a.
Proof.
  intros Hc Hlt. rewrite sum_elems_range; rewrite ?range_total_all; auto; lia.
Qed.

(** Without wrap-around the second loop is the scan of the
    specification; a scan that finds no bucket leaves [i] wrapped. *)
Lemma scan_down_spec a n :
  forall upper,
  counters a -> upper < 2 ^ 31 ->
  - 2 ^ 31 <= upper - range_total a 0 n ->
  scan_down a n upper
  = match spec_scan a n upper with
    | Some i => i
    | None => SIZE_MAX
    end.
Proof.
  induction n as [|n IH]; intros upper Hc Hu Hl;
    cbn [scan_down spec_scan]; [reflexivity|].
  rewrite range_total_snoc in Hl. rewrite Z.add_0_l in Hl.
  pose proof (counters_load a (Z.of_nat n) Hc) as Hx.
  pose proof (range_total_nonneg a 0 n Hc) as Ht.
  replace (nth n a 0) with (load 0 a (Z.of_nat n))
    by (unfold load; destruct (Z.ltb_spec (Z.of_nat n) 0); [lia|];
        now rewrite Nat2Z.id).
  rewrite sint32_small by lia.
  destruct (_ <=? 0); [reflexivity|].
  apply IH; auto; lia.
Qed.

(** A scan that starts at or below the total stops at a bucket. *)
Lemma spec_scan_stops a n :
  forall running,
  counters a -> (0 < n)%nat -> running <= range_total a 0 n ->
  exists i, spec_scan a n running = Some i /\ 0 <= i < Z.of_nat n.
Proof.
  induction n as [|n IH]; intros running Hc Hn Hle; [lia|].
  cbn [spec_scan].
  rewrite range_total_snoc in Hle. rewrite Z.add_0_l in Hle.
  replace (nth n a 0) with (load 0 a (Z.of_nat n))
    by (unfold load; destruct (Z.ltb_spec (Z.of_nat n) 0); [lia|];
        now rewrite Nat2Z.id).
  destruct (Z.leb_spec (running - load 0 a (Z.of_nat n)) 0) as [Hs|Hs].
  - exists (Z.of_nat n). split; [reflexivity|lia].
  - destruct n as [|n].
    + cbn [range_total] in Hle. lia.
    + destruct (IH (running - load 0 a (Z.of_nat (S n))) Hc ltac:(lia)
                  ltac:(lia)) as (i & Hi & Hr).
      exists i. split; [exact Hi|lia].
Qed.

Lemma exact_percentile_count_le t :
  1 <= t -> 1 <= exact_percentile_count t <= t.
Proof.
  intros H. unfold exact_percentile_count.
  split.
  - apply Z.div_le_lower_bound; lia.
  - apply Z.div_le_upper_bound; lia.
Qed.

(** [analyzeResult] on a histogram on which nothing wraps and whose
    threshold does not exceed the total. *)
Lemma analyzeResult_unwrapped hist :
  unwrapped hist ->
  0 <= percentile_count (total hist) <= total hist ->
  analyzeResult hist HISTOGRAM_LEN =
  (if total hist =? 0 then GAIN_NOT_ENOUGH_SAMPLES
   else
     match spec_scan hist (length hist) (percentile_count (total hist)) with
     | Some i => gain_of_index i
     | None => GAIN_NOT_ENOUGH_SAMPLES
     end) /\
  (total hist <> 0 ->
   exists i, spec_scan hist (length hist) (percentile_count (total hist))
             = Some i /\ 0 <= i < HISTOGRAM_LEN).
Proof.
  intros (Hlen & Hc & Hlt) Hp.
  assert (Hn : Z.to_nat HISTOGRAM_LEN = length hist) by lia.
  pose proof (range_total_nonneg hist 0 (length hist) Hc) as Ht.
  rewrite range_total_all in Ht.
  assert (Hstop : total hist <> 0 ->
            exists i, spec_scan hist (length hist)
                        (percentile_count (total hist)) = Some i /\
                      0 <= i < HISTOGRAM_LEN).
  { intros Hnz.
    destruct (spec_scan_stops hist (length hist)
                (percentile_count (total hist)) Hc) as (i & Hi & Hr).
    - unfold HISTOGRAM_LEN in Hlen. lia.
    - rewrite range_total_all. apply Hp.
    - exists i. split; [exact Hi|lia]. }
  split; [|exact Hstop].
  unfold analyzeResult; cbv zeta. rewrite Hn.
  rewrite sum_elems_total by (auto; lia).
  destruct (Z.eqb_spec (total hist) 0) as [Hz|Hnz]; [reflexivity|].
  rewrite scan_down_spec; auto; rewrite ?range_total_all; try lia.
  destruct (Hstop Hnz) as (i & -> & _). reflexivity.
Qed.

(** *** Evaluation on whole arrays

    The two loops of [analyzeResult] over an array given as a list. *)

Lemma sum_elems_wrap a n :
  forall i elems,
  sum_elems a i n (wrap32 elems) = wrap32 (elems + range_total a i n).
Proof.
  induction n as [|n IH]; intros i elems; cbn [sum_elems range_total].
  - rewrite Z.add_0_r. reflexivity.
  - rewrite IH. unfold wrap32.
    rewrite <- Z.add_assoc, Zplus_mod_idemp_l. reflexivity.
Qed.

Lemma sum_elems_whole a :
  sum_elems a 0 (length a) 0 = wrap32 (total a).
Proof.
  change 0 with (wrap32 0) at 2.
  rewrite sum_elems_wrap, range_total_all. reflexivity.
Qed.

Lemma scan_down_ext a b n :
  forall upper,
  (forall j, 0 <= j < Z.of_nat n -> load 0 a j = load 0 b j) ->
  scan_down a n upper = scan_down b n upper.
Proof.
  induction n as [|n IH]; intros upper H; cbn [scan_down]; [reflexivity|].
  rewrite (H (Z.of_nat n)) by lia.
  destruct (_ <=? 0); [reflexivity|].
  apply IH. intros j Hj. apply H. lia.
Qed.

Lemma scan_down_whole a :
  forall upper,
  scan_down a (length a) upper
  = scan_buckets (rev a) (Z.of_nat (length a)) upper.
Proof.
  induction a as [|x a IH] using rev_ind; intros upper; [reflexivity|].
  rewrite rev_app_distr, length_app. cbn [length rev app].
  replace (length a + 1)%nat with (S (length a)) by lia.
  cbn [scan_down scan_buckets].
  replace (load 0 (a ++ [x]) (Z.of_nat (length a))) with x
    by (unfold load; destruct (Z.ltb_spec (Z.of_nat (length a)) 0); [lia|];
        now rewrite Nat2Z.id, nth_middle).
  rewrite Nat2Z.inj_succ.
  replace (Z.succ (Z.of_nat (length a)) - 1) with (Z.of_nat (length a))
    by lia.
  destruct (_ <=? 0); [reflexivity|].
  rewrite <- IH. apply scan_down_ext.
  intros j Hj. unfold load. destruct (Z.ltb_spec j 0); [lia|].
  apply app_nth1. lia.
Qed.

Lemma analyzeResult_whole a len :
  Z.to_nat len = length a ->
  analyzeResult a len
  = if wrap32 (total a) =? 0 then GAIN_NOT_ENOUGH_SAMPLES
    else gain_of_index
           (scan_buckets (rev a) (Z.of_nat (length a))
              (percentile_count (wrap32 (total a)))).
Proof.
  intros H. unfold analyzeResult; cbv zeta.
  rewrite H, sum_elems_whole, scan_down_whole. reflexivity.
Qed.

Lemma counters_check a :
  forallb (fun x => (0 <=? x) && (x <? 2 ^ 32)) a = true -> counters a.
Proof.
  intros H. unfold counters. rewrite Forall_forall. intros x Hx.
  rewrite forallb_forall in H. specialize (H x Hx).
  apply andb_prop in H. destruct H as [H1 H2].
  apply Z.leb_le in H1. apply Z.ltb_lt in H2. lia.
Qed.

End Percentile.

(* ------------------------------------------------------------------ *)
(** ** Rounding to nearest on binary64

    The threshold of the percentile scan is the only place where the
    engine rounds a product and takes its ceiling.  The lemmas below
    evaluate the rounding specification of the primitive floats on
    mantissas that are not known in advance, far enough to show what
    [ceil (elems * (1. - RMS_PERCENTILE))] is for every [elems] below
    [2 ^ 31]. *)

(** *** Digits and shifts *)

(** The exponent of the last place, away from the subnormal range. *)
Lemma fexp_normal e : - 1074 <= e - 53 -> fexp prec emax e = e - 53.
Proof. unfold fexp, emin, prec, emax. lia. Qed.

Lemma digits2_pos_size p : digits2_pos p = Pos.size p.
Proof. induction p; cbn; congruence. Qed.

(** The number of binary digits of a positive integer. *)
Lemma Zdigits2_log2 m : 0 < m -> Zdigits2 m = Z.log2 m + 1.
Proof.
  destruct m as [|p|p]; try lia. intros _. cbn [Zdigits2].
  rewrite digits2_pos_size.
  destruct p; cbn [Pos.size Z.log2]; lia.
Qed.

(** One step of the shift: the mantissa is halved, the bit shifted out
    becomes the round bit and the old round bit joins the sticky bit. *)
Lemma shr_1_nonneg m r s :
  0 <= m ->
  shr_1 (Build_shr_record m r s) = Build_shr_record (m / 2) (Z.odd m) (r || s).
Proof.
  intros H. rewrite <- Z.div2_div.
  destruct m as [|p|p]; [reflexivity| |lia].
  destruct p; reflexivity.
Qed.

Lemma iter_pos_nat {A} (f : A -> A) p x :
  iter_pos f p x = Nat.iter (Pos.to_nat p) f x.
Proof.
  revert x; induction p as [p IH|p IH|]; intros x; cbn [iter_pos].
  - rewrite !IH, Pos2Nat.inj_xI.
    replace (S (2 * Pos.to_nat p))
      with (Pos.to_nat p + (Pos.to_nat p + 1))%nat by lia.
    rewrite !Nat.iter_add. reflexivity.
  - rewrite !IH, Pos2Nat.inj_xO.
    replace (2 * Pos.to_nat p)%nat
      with (Pos.to_nat p + Pos.to_nat p)%nat by lia.
    rewrite Nat.iter_add. reflexivity.
  - reflexivity.
Qed.

Lemma shifted_step n M :
  0 <= n -> 0 <= M -> shr_1 (shifted n M) = shifted (n + 1) M.
Proof.
  intros Hn HM. unfold shifted; cbv zeta.
  assert (HP : 0 < 2 ^ n) by (apply Z.pow_pos_nonneg; lia).
  rewrite shr_1_nonneg by (apply Z.div_pos; lia).
  rewrite Z.pow_add_r, Z.pow_1_r by lia.
  set (P := 2 ^ n) in *.
  rewrite Z.div_div by lia.
  rewrite (Z.rem_mul_r M P 2) by lia.
  pose proof (Z.mod_pos_bound M P HP) as Hy.
  pose proof (Zmod_odd (M / P)) as Hb.
  set (y := M mod P) in *. set (q := M / P) in *.
  f_equal.
  - destruct (Z.odd q); rewrite Hb; symmetry;
      [apply Z.leb_le|apply Z.leb_gt]; lia.
  - destruct (Z.eq_dec y 0) as [Hz|Hz].
    + rewrite Hz.
      replace (2 * (0 + P * (q mod 2))) with ((q mod 2) * (P * 2)) by lia.
      rewrite Z.mod_mul by lia. rewrite Z.mul_0_r, Z.mod_0_l by lia.
      replace (P <=? 0) with false by (symmetry; apply Z.leb_gt; lia).
      reflexivity.
    + replace (2 * (y + P * (q mod 2)))
        with (2 * y + (q mod 2) * (P * 2)) by lia.
      rewrite Z_mod_plus_full, (Z.mod_small (2 * y) (P * 2)) by lia.
      replace (2 * y =? 0) with false by (symmetry; apply Z.eqb_neq; lia).
      destruct (Z.leb_spec P (2 * y)) as [Hl|Hl]; [reflexivity|].
      rewrite Z.mod_small by lia.
      replace (2 * y =? 0) with false by (symmetry; apply Z.eqb_neq; lia).
      reflexivity.
Qed.

(** [n] steps of the shift on an integer with no bits shifted out yet. *)
Lemma shr_iter (n : nat) M :
  0 <= M ->
  Nat.iter n shr_1 (Build_shr_record M false false) = shifted (Z.of_nat n) M.
Proof.
  intros HM. induction n as [|n IH].
  - unfold Nat.iter; cbn [nat_rect Z.of_nat]. unfold shifted; cbv zeta.
    rewrite Z.pow_0_r, Z.div_1_r, Z.mod_1_r. reflexivity.
  - rewrite Nat.iter_succ, IH, shifted_step by lia.
    f_equal. lia.
Qed.

Lemma shr_shift M e n :
  0 <= M -> 0 < n ->
  shr (Build_shr_record M false false) e n = (shifted n M, e + n).
Proof.
  intros HM Hn. destruct n as [|p|p]; try lia.
  cbn [shr]. rewrite iter_pos_nat, shr_iter by assumption.
  rewrite positive_nat_Z. reflexivity.
Qed.

(** Rounding to nearest even after the shift: at most half a unit from
    the exact quotient. *)
Lemma round_shifted n M :
  0 < n -> 0 <= M ->
  let m1 := round_nearest_even (shr_m (shifted n M))
              (loc_of_shr_record (shifted n M)) in
  (m1 = M / 2 ^ n \/ m1 = M / 2 ^ n + 1) /\
  Z.abs (m1 * 2 ^ n - M) <= 2 ^ (n - 1).
Proof.
  intros Hn HM. unfold shifted; cbv zeta. cbn [shr_m].
  assert (HP : 0 < 2 ^ n) by (apply Z.pow_pos_nonneg; lia).
  assert (E2 : 2 ^ n = 2 * 2 ^ (n - 1))
    by (rewrite <- Z.pow_succ_r by lia; f_equal; lia).
  pose proof (Z.mod_pos_bound M (2 ^ n) HP) as Hy.
  pose proof (Z.div_mod M (2 ^ n) ltac:(lia)) as HMq.
  set (P := 2 ^ n) in *. set (y := M mod P) in *. set (q := M / P) in *.
  set (H := 2 ^ (n - 1)) in *.
  destruct (Z.leb_spec P (2 * y)) as [Hl|Hl].
  - destruct (Z.eqb_spec ((2 * y) mod P) 0) as [Hz|Hz]; cbn.
    + assert (2 * y = P).
      { destruct (Z.eq_dec (2 * y) P); [assumption|].
        rewrite <- (Z_mod_plus_full _ (-1)) in Hz.
        rewrite Z.mod_small in Hz by lia. lia. }
      destruct (Z.even q); split; auto; nia.
    + split; auto; nia.
  - destruct (Z.eqb_spec ((2 * y) mod P) 0) as [Hz|Hz]; cbn;
      split; auto; nia.
Qed.

(** *** Rounding a mantissa to 53 bits *)

Lemma log2_53 M : 2 ^ 52 <= M < 2 ^ 53 -> Z.log2 M = 52.
Proof. intros H. apply Z.log2_unique; [lia|]. exact H. Qed.

Lemma shr_fexp_shift M E :
  0 < M -> 0 < Z.log2 M - 52 -> - 1074 <= E + Z.log2 M - 52 ->
  shr_fexp prec emax M E loc_Exact
  = (shifted (Z.log2 M - 52) M, E + (Z.log2 M - 52)).
Proof.
  intros HM Hn HE. unfold shr_fexp. cbn [shr_record_of_loc].
  rewrite Zdigits2_log2, fexp_normal by lia.
  replace (Z.log2 M + 1 + E - 53 - E) with (Z.log2 M - 52) by lia.
  apply shr_shift; lia.
Qed.

Lemma shr_fexp_exact M E :
  2 ^ 52 <= M < 2 ^ 53 -> - 1074 <= E ->
  shr_fexp prec emax M E loc_Exact = (Build_shr_record M false false, E).
Proof.
  intros HM HE. unfold shr_fexp. cbn [shr_record_of_loc].
  rewrite Zdigits2_log2, fexp_normal by (rewrite ?log2_53; lia).
  rewrite log2_53 by lia.
  replace (52 + 1 + E - 53 - E) with 0 by lia. reflexivity.
Qed.

(** A mantissa of more than 53 bits is shifted and rounded; the result
    is within half a unit of the last place kept, also when the rounding
    carries into the next binade. *)
Lemma binary_round_aux_nearest M E :
  2 ^ 53 <= M -> - 1074 <= E + Z.log2 M - 52 -> E + Z.log2 M - 51 <= 971 ->
  exists m e,
    binary_round_aux prec emax false M E loc_Exact = S754_finite false m e /\
    Z.log2 M - 52 <= e - E <= Z.log2 M - 51 /\
    Z.abs (Z.pos m * 2 ^ (e - E) - M) <= 2 ^ (e - E - 1).
Proof.
  intros HM Hlo Hhi.
  assert (Hlog : 53 <= Z.log2 M) by (apply Z.log2_le_pow2; lia).
  pose proof (Z.log2_spec M ltac:(lia)) as Hspec.
  set (n := Z.log2 M - 52) in *.
  assert (Hn : 0 < n) by lia.
  unfold binary_round_aux.
  rewrite shr_fexp_shift by (fold n; lia). fold n.
  destruct (round_shifted n M Hn ltac:(lia)) as [Hq Habs].
  cbv zeta in Hq, Habs.
  set (m1 := round_nearest_even (shr_m (shifted n M))
               (loc_of_shr_record (shifted n M))) in *.
  assert (HP : 0 < 2 ^ n) by (apply Z.pow_pos_nonneg; lia).
  assert (Hq52 : 2 ^ 52 <= M / 2 ^ n < 2 ^ 53).
  { replace (Z.log2 M) with (52 + n) in Hspec by lia.
    replace (Z.succ (52 + n)) with (53 + n) in Hspec by lia.
    rewrite !Z.pow_add_r in Hspec by lia.
    split.
    - apply Z.div_le_lower_bound; lia.
    - apply Z.div_lt_upper_bound; lia. }
  destruct (Z.eq_dec m1 (2 ^ 53)) as [Hc|Hc].
  - (* the rounding carries into the next binade *)
    rewrite Hc in *.
    replace (shr_fexp prec emax (2 ^ 53) (E + n) loc_Exact)
      with (shifted 1 (2 ^ 53), E + n + 1).
    2:{ symmetry. unfold shr_fexp. cbn [shr_record_of_loc].
        rewrite Zdigits2_log2, fexp_normal
          by (change (Z.log2 (2 ^ 53)) with 53; lia).
        change (Z.log2 (2 ^ 53)) with 53.
        replace (53 + 1 + (E + n) - 53 - (E + n)) with 1 by lia.
        apply shr_shift; lia. }
    change (shr_m (shifted 1 (2 ^ 53))) with (Z.pos (Z.to_pos (2 ^ 52))).
    replace (E + n + 1 <=? emax - prec) with true
      by (symmetry; apply Z.leb_le; unfold emax, prec; lia).
    eexists _, _. split; [reflexivity|].
    replace (E + n + 1 - E) with (n + 1) by lia.
    split; [lia|].
    replace (n + 1 - 1) with n by lia.
    rewrite Z.pow_add_r, Z.pow_1_r by lia.
    change (Z.pos (Z.to_pos (2 ^ 52))) with (2 ^ 52).
    assert (E2 : 2 ^ n = 2 * 2 ^ (n - 1))
      by (rewrite <- Z.pow_succ_r by lia; f_equal; lia).
    change (2 ^ 53) with (2 ^ 52 * 2) in Habs. lia.
  - rewrite shr_fexp_exact by lia. cbn [shr_m].
    destruct m1 as [|m|m]; try lia.
    replace (E + n <=? emax - prec) with true
      by (symmetry; apply Z.leb_le; unfold emax, prec; lia).
    eexists _, _. split; [reflexivity|].
    replace (E + n - E) with n by lia.
    split; [lia|exact Habs].
Qed.

(** A mantissa of exactly 53 bits is kept. *)
Lemma binary_round_aux_exact M E :
  2 ^ 52 <= M < 2 ^ 53 -> - 1074 <= E <= 971 ->
  binary_round_aux prec emax false M E loc_Exact
  = S754_finite false (Z.to_pos M) E.
Proof.
  intros HM HE. unfold binary_round_aux.
  rewrite shr_fexp_exact by lia.
  cbn [shr_m loc_of_shr_record round_nearest_even].
  rewrite shr_fexp_exact by lia. cbn [shr_m].
  destruct M as [|m|m]; try lia.
  replace (E <=? emax - prec) with true
    by (symmetry; apply Z.leb_le; unfold emax, prec; lia).
  reflexivity.
Qed.

Lemma iter_xO m k : Z.pos (Pos.iter xO m k) = Z.pos m * 2 ^ Z.pos k.
Proof.
  induction k as [|k IH] using Pos.peano_ind.
  - cbn [Pos.iter]. rewrite Pos2Z.inj_xO. lia.
  - rewrite Pos.iter_succ, Pos2Z.inj_xO, IH, Pos2Z.inj_succ, Z.pow_succ_r
      by lia.
    lia.
Qed.

(** An integer below [2 ^ 53] is a binary64 number: its normal form. *)
Lemma binary_normalize_int p :
  0 < p < 2 ^ 53 ->
  binary_normalize prec emax p 0 false
  = S754_finite false (Z.to_pos (p * 2 ^ (52 - Z.log2 p))) (Z.log2 p - 52).
Proof.
  intros Hp. destruct p as [|q|q]; try lia.
  pose proof (Z.log2_spec (Z.pos q) ltac:(lia)) as Hs.
  assert (Hl : 0 <= Z.log2 (Z.pos q) <= 52).
  { split; [apply Z.log2_nonneg|].
    assert (Z.log2 (Z.pos q) < 53); [|lia].
    apply Z.log2_lt_pow2; lia. }
  cbn [binary_normalize]. unfold binary_round.
  pose proof (Zdigits2_log2 (Z.pos q) ltac:(lia)) as Hd. cbn [Zdigits2] in Hd.
  rewrite Hd, fexp_normal by lia.
  unfold shl_align.
  set (l := Z.log2 (Z.pos q)) in *.
  replace (l + 1 + 0 - 53 - 0) with (l - 52) by lia.
  assert (Hm : 2 ^ 52 <= Z.pos q * 2 ^ (52 - l) < 2 ^ 53).
  { assert (HX : 0 < 2 ^ (52 - l)) by (apply Z.pow_pos_nonneg; lia).
    assert (E1 : 2 ^ 52 = 2 ^ l * 2 ^ (52 - l))
      by (rewrite <- Z.pow_add_r by lia; f_equal; lia).
    assert (E2 : 2 ^ 53 = 2 ^ Z.succ l * 2 ^ (52 - l))
      by (rewrite <- Z.pow_add_r by lia; f_equal; lia).
    destruct Hs as [Hs1 Hs2]. fold l in Hs1, Hs2.
    rewrite E1, E2. split.
    - apply Z.mul_le_mono_nonneg_r; lia.
    - apply Z.mul_lt_mono_pos_r; lia. }
  destruct (l - 52) as [|k|k] eqn:Ek; try lia.
  - replace (52 - l) with 0 in * by lia. rewrite Z.mul_1_r in *.
    rewrite binary_round_aux_exact by lia.
    f_equal; lia.
  - rewrite iter_xO.
    replace (Z.pos k) with (52 - l) by lia.
    rewrite binary_round_aux_exact by lia.
    f_equal; lia.
Qed.

(** [(double) t] for an unsigned [t]. *)
Lemma Prim2SF_of_Z t :
  0 < t < 2 ^ 53 ->
  Prim2SF (PrimFloat.of_uint63 (Uint63.of_Z t))
  = S754_finite false (Z.to_pos (t * 2 ^ (52 - Z.log2 t))) (Z.log2 t - 52).
Proof.
  intros Ht. rewrite of_uint63_spec.
  rewrite Uint63.of_Z_spec.
  rewrite Z.mod_small by (unfold wB; cbn; lia).
  apply binary_normalize_int; assumption.
Qed.

(** [(int)] of an integer held in a [double] gives the integer back. *)
Lemma to_int_of_Z z : 0 < z < 2 ^ 31 -> IEEE.to_int (IEEE.of_Z z) = z.
Proof.
  intros Hz. unfold IEEE.to_int, IEEE.of_Z.
  replace (z <? 0) with false by (symmetry; apply Z.ltb_ge; lia).
  rewrite Prim2SF_of_Z by lia.
  assert (Hl : 0 <= Z.log2 z < 31).
  { split; [apply Z.log2_nonneg|apply Z.log2_lt_pow2; lia]. }
  replace (0 <=? Z.log2 z - 52) with false by (symmetry; apply Z.leb_gt; lia).
  assert (HX : 0 < 2 ^ (52 - Z.log2 z)) by (apply Z.pow_pos_nonneg; lia).
  rewrite Z2Pos.id by nia.
  replace (- (Z.log2 z - 52)) with (52 - Z.log2 z) by lia.
  rewrite Z.div_mul by lia.
  replace ((- 2 ^ 31 <=? z) && (z <? 2 ^ 31)) with true; [reflexivity|].
  symmetry. apply andb_true_intro. split; [apply Z.leb_le|apply Z.ltb_lt]; lia.
Qed.

(** [ceil] of a positive binary64 number below one unit in the last
    place of the integers. *)
Lemma fceil_between x m e k :
  Prim2SF x = S754_finite false m e -> e < 0 ->
  k * 2 ^ (- e) < Z.pos m <= (k + 1) * 2 ^ (- e) ->
  IEEE.fceil x = IEEE.of_Z (k + 1).
Proof.
  intros Hx He Hk. unfold IEEE.fceil. rewrite Hx.
  replace (0 <=? e) with false by (symmetry; apply Z.leb_gt; lia).
  assert (HP : 0 < 2 ^ (- e)) by (apply Z.pow_pos_nonneg; lia).
  set (P := 2 ^ (- e)) in *.
  pose proof (Z.div_mod (Z.pos m) P ltac:(lia)) as Hdm.
  pose proof (Z.mod_pos_bound (Z.pos m) P HP) as Hr.
  f_equal.
  destruct (Z.eqb_spec (Z.pos m mod P) 0) as [Hz|Hz]; nia.
Qed.

(** *** The threshold of the percentile scan *)

(** [1. - RMS_PERCENTILE] as the engine has it. *)
Lemma percentile_factor :
  Prim2SF (PrimFloat.sub (IEEE.of_Q 1) (IEEE.of_Q RMS_PERCENTILE))
  = S754_finite false (Z.to_pos percentile_mantissa) (- 57).
Proof. vm_compute. reflexivity. Qed.

(** The arithmetic behind the threshold: [m] is the rounded mantissa of
    [t * (1. - 0.95)], [s] the number of bits rounded away, and
    [2 ^ (57 - s) * scale] the weight of one unit in units of the last
    place.  Twenty times the factor is [1 + 2 ^ -50], so the product lies
    strictly between [t / 20] and [t / 20 + 1] even after rounding. *)
Lemma threshold_arith t scale m s :
  1 <= t -> 2 ^ 22 <= scale -> 2 ^ 52 <= t * scale < 2 ^ 53 ->
  s = 52 \/ s = 53 \/ s = 54 ->
  Z.abs (m * 2 ^ s - t * scale * percentile_mantissa) <= 2 ^ (s - 1) ->
  (t / 20) * (2 ^ (57 - s) * scale) < m
  <= (t / 20 + 1) * (2 ^ (57 - s) * scale).
Proof.
  intros Ht HA HT Hs Habs.
  pose proof (Z.div_mod t 20 ltac:(lia)) as Hdm.
  pose proof (Z.mod_pos_bound t 20 ltac:(lia)) as Hj.
  set (k := t / 20) in *. set (j := t mod 20) in *.
  assert (Eu : t * scale = 20 * (k * scale) + j * scale) by (rewrite Hdm; ring).
  assert (Hv : 0 <= j * scale <= 19 * scale) by nia.
  rewrite Eu in *.
  replace ((k + 1) * (2 ^ (57 - s) * scale))
    with (2 ^ (57 - s) * (k * scale) + 2 ^ (57 - s) * scale) by ring.
  replace (k * (2 ^ (57 - s) * scale))
    with (2 ^ (57 - s) * (k * scale)) by ring.
  set (u := k * scale) in *. set (v := j * scale) in *.
  unfold percentile_mantissa in *.
  destruct Hs as [->|[->| ->]];
    match goal with
    | |- context [2 ^ (57 - ?s)] =>
        let c := eval cbv in (2 ^ (57 - s)) in change (2 ^ (57 - s)) with c
    end;
    match type of Habs with
    | context [2 ^ (?s - 1)] =>
        let c := eval cbv in (2 ^ (s - 1)) in
        let d := eval cbv in (2 ^ s) in
        change (2 ^ (s - 1)) with c in Habs; change (2 ^ s) with d in Habs
    end;
    change (2 ^ 52) with 4503599627370496 in *;
    change (2 ^ 53) with 9007199254740992 in *;
    change (2 ^ 22) with 4194304 in *;
    lia.
Qed.

(** The threshold as the engine computes it, for every total below
    [2 ^ 31]: one more than the integer part of [total / 20]. *)
Lemma binary64_percentile_count t :
  1 <= t < 2 ^ 31 -> @percentile_count IEEE.binary64 t = t / 20 + 1.
Proof.
  intros Ht.
  assert (Hl : 0 <= Z.log2 t <= 30).
  { split; [apply Z.log2_nonneg|].
    assert (Z.log2 t < 31) by (apply Z.log2_lt_pow2; lia). lia. }
  pose proof (Z.log2_spec t ltac:(lia)) as [Hs1 Hs2].
  set (l := Z.log2 t) in *.
  set (scale := 2 ^ (52 - l)).
  assert (HA : 2 ^ 22 <= scale) by (apply Z.pow_le_mono_r; lia).
  assert (HT : 2 ^ 52 <= t * scale < 2 ^ 53).
  { assert (E1 : 2 ^ 52 = 2 ^ l * scale)
      by (unfold scale; rewrite <- Z.pow_add_r by lia; f_equal; lia).
    assert (E2 : 2 ^ 53 = 2 ^ Z.succ l * scale)
      by (unfold scale; rewrite <- Z.pow_add_r by lia; f_equal; lia).
    rewrite E1, E2. split.
    - apply Z.mul_le_mono_nonneg_r; lia.
    - apply Z.mul_lt_mono_pos_r; lia. }
  set (M := t * scale * percentile_mantissa).
  assert (HM : 2 ^ 104 <= M < 2 ^ 106) by (unfold M, percentile_mantissa; lia).
  assert (HlM : 104 <= Z.log2 M <= 105).
  { split; [apply Z.log2_le_pow2; lia|].
    assert (Z.log2 M < 106) by (apply Z.log2_lt_pow2; lia). lia. }
  destruct (binary_round_aux_nearest M (l - 52 + - 57))
    as (m & e & Hr & Hs & Habs);
    try lia.
  unfold percentile_count.
  change (sint32 (IEEE.to_int (IEEE.fceil
            (PrimFloat.mul (IEEE.of_Z t)
               (PrimFloat.sub (IEEE.of_Q 1) (IEEE.of_Q RMS_PERCENTILE)))))
          = t / 20 + 1).
  set (x := PrimFloat.mul _ _).
  assert (Hx : Prim2SF x = S754_finite false m e).
  { unfold x. rewrite FloatAxioms.mul_spec, percentile_factor.
    unfold IEEE.of_Z.
    replace (t <? 0) with false by (symmetry; apply Z.ltb_ge; lia).
    rewrite Prim2SF_of_Z by lia. fold l. fold scale.
    unfold SF64mul, SFmul. cbn [xorb].
    rewrite Pos2Z.inj_mul, !Z2Pos.id by (unfold percentile_mantissa; lia).
    exact Hr. }
  set (s := e - (l - 52 + - 57)) in *.
  assert (He : - e = (57 - s) + (52 - l)) by lia.
  assert (Hk : 0 <= t / 20 < 2 ^ 27)
    by (split; [apply Z.div_pos; lia|apply Z.div_lt_upper_bound; lia]).
  rewrite (fceil_between x m e (t / 20) Hx).
  - rewrite to_int_of_Z by lia. apply sint32_small. lia.
  - lia.
  - rewrite He, Z.pow_add_r by lia. fold scale.
    apply threshold_arith; lia.
Qed.

Section Binary64Queries.
#[local] Existing Instance IEEE.binary64.

(** The threshold of the scan: between 1 and the total, and the exact
    [ceil (total * 0.05)] unless the total is a multiple of 20. *)
Lemma percentile_count_range t :
  0 <= t < 2 ^ 31 -> 0 <= percentile_count t <= t.
Proof.
  intros Ht. destruct (Z.eq_dec t 0) as [->|Hnz].
  - vm_compute. split; discriminate.
  - rewrite binary64_percentile_count by lia.
    pose proof (Z.div_mod t 20 ltac:(lia)).
    pose proof (Z.mod_pos_bound t 20 ltac:(lia)). lia.
Qed.

Lemma percentile_count_exact t :
  0 <= t < 2 ^ 31 -> (0 < t -> t mod 20 <> 0) ->
  percentile_count t = exact_percentile_count t.
Proof.
  intros Ht Hm. destruct (Z.eq_dec t 0) as [->|Hnz].
  - vm_compute. reflexivity.
  - rewrite binary64_percentile_count by lia.
    unfold exact_percentile_count.
    assert (Hpos : 0 < t) by lia. specialize (Hm Hpos).
    Z.to_euclidean_division_equations. lia.
Qed.

(** *** The range of gains *)

Lemma gain_of_index_binary64 i :
  gain_of_index i
  = PrimFloat.sub 0x1.0347ae147ae14p+6 (PrimFloat.div (IEEE.of_Z i) 100).
Proof.
  unfold gain_of_index.
  change (to_Float_t (dlit PINK_REF)) with (IEEE.of_Q PINK_REF).
  change (to_Float_t (dlit STEPS_per_dB)) with (IEEE.of_Q STEPS_per_dB).
  replace (IEEE.of_Q PINK_REF) with 0x1.0347ae147ae14p+6%float
    by (vm_compute; reflexivity).
  replace (IEEE.of_Q STEPS_per_dB) with 100%float
    by (vm_compute; reflexivity).
  reflexivity.
Qed.

(** Every bucket of the table has a gain between the two ends, by
    evaluation of all 12000 of them. *)
Lemma gain_of_index_range i :
  0 <= i <= 11999 ->
  PrimFloat.leb lowest_gain (gain_of_index i) = true /\
  PrimFloat.leb (gain_of_index i) highest_gain = true.
Proof.
  intros Hi.
  assert (Hall :
    forallb (fun n =>
      let v := PrimFloat.sub 0x1.0347ae147ae14p+6
                 (PrimFloat.div (IEEE.of_Z (Z.of_nat n)) 100) in
      PrimFloat.leb lowest_gain v && PrimFloat.leb v highest_gain)
      (seq 0 (Z.to_nat 12000)) = true) by (vm_compute; reflexivity).
  rewrite forallb_forall in Hall.
  specialize (Hall (Z.to_nat i)). cbv zeta in Hall.
  rewrite Z2Nat.id, <- gain_of_index_binary64 in Hall by lia.
  apply andb_prop, Hall, in_seq. lia.
Qed.

(** [analyzeResult] on a histogram on which nothing wraps. *)
Lemma analyzeResult_scan hist :
  unwrapped hist ->
  analyzeResult hist HISTOGRAM_LEN =
  (if total hist =? 0 then GAIN_NOT_ENOUGH_SAMPLES
   else
     match spec_scan hist (length hist) (percentile_count (total hist)) with
     | Some i => gain_of_index i
     | None => GAIN_NOT_ENOUGH_SAMPLES
     end) /\
  (total hist <> 0 ->
   exists i, spec_scan hist (length hist) (percentile_count (total hist))
             = Some i /\ 0 <= i < HISTOGRAM_LEN).
Proof.
  intros Hu. pose proof Hu as (_ & Hc & Hlt).
  pose proof (range_total_nonneg hist 0 (length hist) Hc) as Ht.
  rewrite range_total_all in Ht.
  apply (analyzeResult_unwrapped hist Hu).
  apply percentile_count_range. lia.
Qed.

(** [analyzeResult] is the scan of the specification where the
    threshold is the exact one. *)
Lemma analyzeResult_refines_spec hist :
  unwrapped hist ->
  (0 < total hist -> total hist mod 20 <> 0) ->
  analyzeResult hist HISTOGRAM_LEN = percentile_gain_spec hist.
Proof.
  intros Hu Hm. pose proof Hu as (_ & Hc & Hlt).
  pose proof (range_total_nonneg hist 0 (length hist) Hc) as Ht.
  rewrite range_total_all in Ht.
  destruct (analyzeResult_scan hist Hu) as [-> _].
  unfold percentile_gain_spec.
  rewrite percentile_count_exact by (auto; lia). reflexivity.
Qed.

(** C2 (amended). Percentile gain algorithm: for every pair of histograms
    of 12000 counters whose totals are below [2 ^ 31] and are not
    positive multiples of 20, both queries return what the specification
    describes: the sentinel when the total is 0, otherwise
    [64.82 - i / 100.0] for the bucket [i] at which the downward scan
    from [threshold = ceil (total * 0.05)] drops to [<= 0]. *)
Theorem percentile_gain_refines_spec rg :
  unwrapped (A rg) -> unwrapped (B rg) ->
  (0 < total (A rg) -> total (A rg) mod 20 <> 0) ->
  (0 < total (B rg) -> total (B rg) mod 20 <> 0) ->
  fst (WAGetTitleGain rg) = percentile_gain_spec (A rg) /\
  WAGetAlbumGain rg = percentile_gain_spec (B rg).
Proof.
  intros HA HB MA MB. split.
  - unfold WAGetTitleGain; cbn [fst].
    apply analyzeResult_refines_spec; assumption.
  - unfold WAGetAlbumGain. apply analyzeResult_refines_spec; assumption.
Qed.

(** A histogram on which nothing wraps has the gain of one of its
    buckets, unless it is empty. *)
Lemma analyzeResult_range hist :
  unwrapped hist ->
  analyzeResult hist HISTOGRAM_LEN <> GAIN_NOT_ENOUGH_SAMPLES ->
  exists i, 0 <= i <= 11999 /\
    scan_down hist (Z.to_nat HISTOGRAM_LEN) (percentile_count (total hist))
    = i /\
    analyzeResult hist HISTOGRAM_LEN = gain_of_index i /\
    PrimFloat.leb lowest_gain (analyzeResult hist HISTOGRAM_LEN) = true /\
    PrimFloat.leb (analyzeResult hist HISTOGRAM_LEN) highest_gain = true.
Proof.
  intros Hu Hne.
  destruct (analyzeResult_scan hist Hu) as [E Hstop].
  pose proof Hu as (Hlen & Hc & Hlt).
  pose proof (range_total_nonneg hist 0 (length hist) Hc) as Ht.
  rewrite range_total_all in Ht.
  assert (Hrange : 0 <= total hist < 2 ^ 31) by lia.
  pose proof (percentile_count_range (total hist) Hrange) as Hp.
  destruct (Z.eqb_spec (total hist) 0) as [Hz|Hnz]; [congruence|].
  destruct (Hstop Hnz) as (i & Hi & Hr).
  exists i. unfold HISTOGRAM_LEN in Hr.
  assert (Hi' : 0 <= i <= 11999) by lia.
  split; [exact Hi'|]. split.
  - replace (Z.to_nat HISTOGRAM_LEN) with (length hist) by lia.
    rewrite scan_down_spec; auto; rewrite ?range_total_all; try lia.
    rewrite Hi. reflexivity.
  - rewrite E, Hi. split; [reflexivity|].
    exact (gain_of_index_range i Hi').
Qed.

(** C10 (amended). Gain-result range: on histograms of 12000 counters
    whose totals are below [2 ^ 31], a query that returns a value other
    than the sentinel has stopped its scan at a bucket [i] in
    [0, 11999]; the value is [64.82 - i / 100] for that bucket and lies
    between [64.82 - 119.99] and [64.82]. *)
Theorem gain_result_range rg :
  unwrapped (A rg) -> unwrapped (B rg) ->
  (fst (WAGetTitleGain rg) <> GAIN_NOT_ENOUGH_SAMPLES ->
   exists i, 0 <= i <= 11999 /\
     scan_down (A rg) (Z.to_nat HISTOGRAM_LEN)
       (percentile_count (total (A rg))) = i /\
     fst (WAGetTitleGain rg) = gain_of_index i /\
     PrimFloat.leb lowest_gain (fst (WAGetTitleGain rg)) = true /\
     PrimFloat.leb (fst (WAGetTitleGain rg)) highest_gain = true) /\
  (WAGetAlbumGain rg <> GAIN_NOT_ENOUGH_SAMPLES ->
   exists i, 0 <= i <= 11999 /\
     scan_down (B rg) (Z.to_nat HISTOGRAM_LEN)
       (percentile_count (total (B rg))) = i /\
     WAGetAlbumGain rg = gain_of_index i /\
     PrimFloat.leb lowest_gain (WAGetAlbumGain rg) = true /\
     PrimFloat.leb (WAGetAlbumGain rg) highest_gain = true).
Proof.
  intros HA HB. split.
  - unfold WAGetTitleGain; cbn [fst]. apply analyzeResult_range, HA.
  - unfold WAGetAlbumGain. apply analyzeResult_range, HB.
Qed.

End Binary64Queries.

(* ------------------------------------------------------------------ *)
(** ** Chunking *)

Section Chunking.
Context {FA : FloatArith}.
Implicit Types (rg : ReplayGainContext) (xl xr : list Float_t).

(** A batch reads its sources from [MAX_ORDER] samples before the cursor
    to the last sample of the batch. *)
Lemma process_batch_ext rg xl1 ipl1 xr1 ipr1 xl2 ipl2 xr2 ipr2 c :
  0 <= c ->
  (forall d, - MAX_ORDER <= d < c ->
     load Fzero xl1 (ipl1 + d) = load Fzero xl2 (ipl2 + d)) ->
  (forall d, - MAX_ORDER <= d < c ->
     load Fzero xr1 (ipr1 + d) = load Fzero xr2 (ipr2 + d)) ->
  process_batch rg xl1 ipl1 xr1 ipr1 c = process_batch rg xl2 ipl2 xr2 ipr2 c.
Proof.
  intros Hc Hl Hr. unfold process_batch, filter_and_sum; cbv zeta.
  rewrite (filterYule_ext xl1 ipl1 xl2 ipl2)
    by (intros d Hd; apply Hl; lia).
  rewrite (filterYule_ext xr1 ipr1 xr2 ipr2)
    by (intros d Hd; apply Hr; lia).
  reflexivity.
Qed.

(** A batch neither reads nor writes the raw pre-buffers of the
    context. *)
Lemma process_batch_set_inpre rg a b xl ipl xr ipr c :
  process_batch (set_inpre rg a b) xl ipl xr ipr c
  = set_inpre (process_batch rg xl ipl xr ipr c) a b.
Proof.
  unfold process_batch, filter_and_sum; cbv zeta; fields.
  destruct (_ =? _); reflexivity.
Qed.

Lemma analyze_run_set_inpre n :
  forall rg a b xl xr ip,
  analyze_run (set_inpre rg a b) xl xr ip n
  = set_inpre (analyze_run rg xl xr ip n) a b.
Proof.
  induction n as [|n IH]; intros rg a b xl xr ip; cbn [analyze_run];
    [reflexivity|].
  rewrite process_batch_set_inpre. apply IH.
Qed.

Lemma analyze_run_ext n :
  forall rg xl1 xr1 ip1 xl2 xr2 ip2,
  (forall d, - MAX_ORDER <= d < Z.of_nat n ->
     load Fzero xl1 (ip1 + d) = load Fzero xl2 (ip2 + d)) ->
  (forall d, - MAX_ORDER <= d < Z.of_nat n ->
     load Fzero xr1 (ip1 + d) = load Fzero xr2 (ip2 + d)) ->
  analyze_run rg xl1 xr1 ip1 n = analyze_run rg xl2 xr2 ip2 n.
Proof.
  induction n as [|n IH]; intros rg xl1 xr1 ip1 xl2 xr2 ip2 Hl Hr;
    cbn [analyze_run]; [reflexivity|].
  rewrite (process_batch_ext rg xl1 ip1 xr1 ip1 xl2 ip2 xr2 ip2);
    [ | lia | intros d Hd; apply Hl; lia | intros d Hd; apply Hr; lia ].
  apply IH; intros d Hd.
  - replace (ip1 + 1 + d) with (ip1 + (d + 1)) by lia.
    replace (ip2 + 1 + d) with (ip2 + (d + 1)) by lia. apply Hl; lia.
  - replace (ip1 + 1 + d) with (ip1 + (d + 1)) by lia.
    replace (ip2 + 1 + d) with (ip2 + (d + 1)) by lia. apply Hr; lia.
Qed.

Lemma analyze_run_app n1 n2 :
  forall rg xl xr ip,
  analyze_run rg xl xr ip (n1 + n2)
  = analyze_run (analyze_run rg xl xr ip n1) xl xr (ip + Z.of_nat n1) n2.
Proof.
  induction n1 as [|n1 IH]; intros rg xl xr ip.
  - cbn [analyze_run Nat.add Z.of_nat]. now rewrite Z.add_0_r.
  - cbn [analyze_run Nat.add]. rewrite IH, Nat2Z.inj_succ.
    replace (ip + 1 + Z.of_nat n1) with (ip + Z.succ (Z.of_nat n1)) by lia.
    reflexivity.
Qed.

Lemma analyze_run_ready n :
  forall rg xl xr ip,
  ready rg -> ready (analyze_run rg xl xr ip n).
Proof.
  induction n as [|n IH]; intros rg xl xr ip Hr; cbn [analyze_run]; auto.
  apply IH, process_batch_ready; auto; destruct Hr as (_ & _ & _ & ?); lia.
Qed.

Lemma analyze_run_prebuf n :
  forall rg xl xr ip,
  linprebuf (analyze_run rg xl xr ip n) = linprebuf rg
  /\ rinprebuf (analyze_run rg xl xr ip n) = rinprebuf rg.
Proof.
  induction n as [|n IHn]; intros rg xl xr ip; cbn [analyze_run]; [tauto|].
  destruct (IHn (process_batch rg xl ip xr ip 1) xl xr (ip + 1)) as [-> ->].
  destruct (process_batch_frame rg xl ip xr ip 1) as (-> & -> & _).
  tauto.
Qed.

(** *** The stream a call reads *)

Lemma length_history (buf : list Float_t) :
  Z.of_nat (length (history buf)) = MAX_ORDER.
Proof. unfold history. rewrite length_slice, MAX_ORDER_value. lia. Qed.

Lemma stream_load_history (buf l : list Float_t) j :
  0 <= j < MAX_ORDER ->
  load Fzero (history buf ++ l) j = load Fzero buf j.
Proof.
  intros Hj. rewrite load_app_left by (rewrite length_history; lia).
  unfold history. rewrite load_slice; [reflexivity|].
  rewrite MAX_ORDER_value in *. lia.
Qed.

Lemma stream_load_samples (buf l : list Float_t) j :
  0 <= j -> load Fzero (history buf ++ l) (MAX_ORDER + j) = load Fzero l j.
Proof.
  intros Hj. rewrite <- (length_history buf). now apply load_app_right.
Qed.

(** After the staging copy the raw pre-buffer is the head of the
    stream. *)
Lemma staged_load (buf l : list Float_t) n j :
  Z.of_nat (length buf) = MAX_ORDER * 2 -> 0 <= n ->
  0 <= j < MAX_ORDER + Z.min n MAX_ORDER ->
  load Fzero
    (memmove Fzero buf MAX_ORDER l 0
       (if n <? MAX_ORDER then n else MAX_ORDER)) j
  = load Fzero (history buf ++ l) j.
Proof.
  intros Hlen Hn Hj.
  set (m := if n <? MAX_ORDER then n else MAX_ORDER).
  assert (Hm : m = Z.min n MAX_ORDER)
    by (unfold m; destruct (Z.ltb_spec n MAX_ORDER); lia).
  rewrite MAX_ORDER_value in *.
  destruct (Z.lt_ge_cases j 10) as [Hlo|Hhi].
  - rewrite load_memmove_outside by lia.
    symmetry. apply stream_load_history. rewrite MAX_ORDER_value. lia.
  - rewrite load_memmove_inside by lia.
    replace j with (MAX_ORDER + (j - 10)) at 2
      by (rewrite MAX_ORDER_value; lia).
    rewrite stream_load_samples by lia. f_equal; lia.
Qed.

(** After the call the history half of the raw pre-buffer holds the
    last [MAX_ORDER] samples of the stream. *)
Lemma saved_history_load (buf l : list Float_t) n j :
  Z.of_nat (length buf) = MAX_ORDER * 2 -> 0 < n ->
  0 <= j < MAX_ORDER ->
  load Fzero
    (saved_history
       (memmove Fzero buf MAX_ORDER l 0
          (if n <? MAX_ORDER then n else MAX_ORDER)) l n) j
  = load Fzero (history buf ++ l) (n + j).
Proof.
  intros Hlen Hn Hj. unfold saved_history.
  rewrite MAX_ORDER_value in *.
  destruct (Z.ltb_spec n 10) as [Hs|Hb].
  - rewrite wrap32_small by lia.
    destruct (Z.lt_ge_cases j (10 - n)) as [Hlo|Hhi].
    + rewrite load_memmove_outside by lia.
      rewrite load_memmove_inside by (rewrite ?length_memmove; lia).
      rewrite load_memmove_outside by lia.
      rewrite stream_load_history by (rewrite MAX_ORDER_value; lia).
      f_equal; lia.
    + rewrite load_memmove_inside by (rewrite ?length_memmove; lia).
      replace (n + j) with (MAX_ORDER + (n + j - 10))
        by (rewrite MAX_ORDER_value; lia).
      rewrite stream_load_samples by lia. f_equal; lia.
  - rewrite load_memmove_inside by (rewrite ?length_memmove; lia).
    replace (n + j) with (MAX_ORDER + (n + j - 10))
      by (rewrite MAX_ORDER_value; lia).
    rewrite stream_load_samples by lia. f_equal; lia.
Qed.

(** *** The context a call leaves *)

Lemma analyze_run_core n rg xl xr ip :
  core (analyze_run rg xl xr ip n) = analyze_run (core rg) xl xr ip n.
Proof. unfold core. symmetry. apply analyze_run_set_inpre. Qed.

Lemma fed_core rg l r :
  core (fed rg l r)
  = core (analyze_run rg (history (linprebuf rg) ++ l)
            (history (rinprebuf rg) ++ r) MAX_ORDER (length l)).
Proof. reflexivity. Qed.

Lemma fed_ready rg l r : ready rg -> ready (fed rg l r).
Proof.
  intros Hr. unfold fed; cbv zeta.
  pose proof (analyze_run_ready (length l) rg (history (linprebuf rg) ++ l)
                (history (rinprebuf rg) ++ r) MAX_ORDER Hr) as Hr1.
  pose proof (analyze_run_prebuf (length l) rg (history (linprebuf rg) ++ l)
                (history (rinprebuf rg) ++ r) MAX_ORDER) as [Hl1 Hr1'].
  revert Hr1 Hl1 Hr1'.
  generalize (analyze_run rg (history (linprebuf rg) ++ l)
                (history (rinprebuf rg) ++ r) MAX_ORDER (length l)).
  intros rg1 Hr1 Hl1 Hr1'.
  unfold ready, well_sized, stage_prefix in *; cbv zeta; fields.
  rewrite !length_saved_history, !length_memmove, <- Hl1, <- Hr1'. tauto.
Qed.

Lemma feed_ok_ready rg l r : ready rg -> ready (feed_ok rg l r).
Proof. destruct l; [auto|apply fed_ready]. Qed.

Lemma fed_history_left rg l r j :
  ready rg -> l <> [] -> 0 <= j < MAX_ORDER ->
  load Fzero (linprebuf (fed rg l r)) j
  = load Fzero (history (linprebuf rg) ++ l) (Z.of_nat (length l) + j).
Proof.
  intros ((Hlen & _) & _) Hl Hj. unfold fed, stage_prefix; cbv zeta; fields.
  apply saved_history_load; auto.
  destruct l; [congruence|cbn [length]; lia].
Qed.

Lemma fed_history_right rg l r j :
  ready rg -> l <> [] -> 0 <= j < MAX_ORDER ->
  load Fzero (rinprebuf (fed rg l r)) j
  = load Fzero (history (rinprebuf rg) ++ r) (Z.of_nat (length l) + j).
Proof.
  intros ((_ & Hlen & _) & _) Hl Hj.
  unfold fed, stage_prefix; cbv zeta; fields.
  apply saved_history_load; auto.
  destruct l; [congruence|cbn [length]; lia].
Qed.

Lemma fed_length rg l r :
  length (linprebuf (fed rg l r)) = length (linprebuf rg)
  /\ length (rinprebuf (fed rg l r)) = length (rinprebuf rg).
Proof.
  unfold fed, stage_prefix; cbv zeta; fields.
  now rewrite !length_saved_history, !length_memmove.
Qed.

Lemma same_but_staging_refl rg : same_but_staging rg rg.
Proof. unfold same_but_staging; tauto. Qed.

Lemma same_but_staging_trans a b c :
  same_but_staging a b -> same_but_staging b c -> same_but_staging a c.
Proof.
  unfold same_but_staging.
  intros (-> & -> & -> & -> & ->) (-> & -> & -> & -> & ->). tauto.
Qed.

(** Two calls in a row leave what one call leaves on the two chunks put
    together, up to the staging half of the raw pre-buffers. *)
Lemma fed_app rg l1 r1 l2 r2 :
  ready rg -> length r1 = length l1 -> l1 <> [] -> l2 <> [] ->
  same_but_staging (fed rg (l1 ++ l2) (r1 ++ r2)) (fed (fed rg l1 r1) l2 r2).
Proof.
  intros Hr Hlen H1 H2.
  assert (H12 : l1 ++ l2 <> []) by (destruct l1; [congruence|discriminate]).
  pose proof (fed_ready rg l1 r1 Hr) as Hr1.
  set (n1 := Z.of_nat (length l1)).
  assert (Hstream : forall (h1 h1' x1 x2 : list Float_t) d,
    Z.of_nat (length x1) = n1 ->
    (forall j, 0 <= j < MAX_ORDER ->
       load Fzero h1' j = load Fzero (history h1 ++ x1) (n1 + j)) ->
    - MAX_ORDER <= d ->
    load Fzero (history h1 ++ x1 ++ x2) (MAX_ORDER + n1 + d)
    = load Fzero (history h1' ++ x2) (MAX_ORDER + d)).
  { intros h1 h1' x1 x2 d Hx Hh Hd.
    destruct (Z.lt_ge_cases d 0) as [Hneg|Hpos].
    - rewrite (stream_load_history h1' x2 (MAX_ORDER + d)) by lia.
      rewrite Hh by lia. rewrite !app_assoc.
      rewrite load_app_left; [f_equal; lia|].
      rewrite length_app, Nat2Z.inj_add, length_history, Hx. lia.
    - rewrite (stream_load_samples h1' x2 d) by lia.
      rewrite app_assoc.
      replace (MAX_ORDER + n1 + d)
        with (Z.of_nat (length (history h1 ++ x1)) + d)
        by (rewrite length_app, Nat2Z.inj_add, length_history, Hx; lia).
      now apply load_app_right. }
  assert (Hhead : forall (h1 x1 x2 : list Float_t) j,
    Z.of_nat (length x1) = n1 -> j < MAX_ORDER + n1 ->
    load Fzero (history h1 ++ x1 ++ x2) j = load Fzero (history h1 ++ x1) j).
  { intros h1 x1 x2 j Hx Hj. unfold load.
    destruct (Z.ltb_spec j 0); [reflexivity|].
    rewrite app_assoc. apply app_nth1.
    rewrite length_app. pose proof (length_history h1). lia. }
  unfold same_but_staging. split; [|split; [|split]].
  - rewrite !fed_core, !analyze_run_core.
    unfold fed at 1; cbv zeta.
    change (core (set_inpre ?x _ _)) with (core x).
    rewrite analyze_run_core.
    rewrite length_app, analyze_run_app. fold n1.
    rewrite (analyze_run_ext (length l1) (core rg)
               (history (linprebuf rg) ++ l1 ++ l2)
               (history (rinprebuf rg) ++ r1 ++ r2) MAX_ORDER
               (history (linprebuf rg) ++ l1)
               (history (rinprebuf rg) ++ r1) MAX_ORDER).
    + apply analyze_run_ext; intros d Hd.
      * apply Hstream; [reflexivity| |lia].
        intros j Hj. now apply fed_history_left.
      * apply Hstream; [unfold n1; now rewrite Hlen| |lia].
        intros j Hj. now apply fed_history_right.
    + intros d Hd. apply Hhead; [reflexivity|fold n1 in Hd; lia].
    + intros d Hd. apply Hhead; [unfold n1; now rewrite Hlen|].
      fold n1 in Hd; lia.
  - unfold history. apply slice_ext. intros k Hk.
    rewrite Z2Nat.id in Hk by (rewrite MAX_ORDER_value; lia).
    rewrite !Z.add_0_l, !fed_history_left by auto.
    rewrite length_app, Nat2Z.inj_add. fold n1.
    replace (n1 + Z.of_nat (length l2) + k)
      with (MAX_ORDER + n1 + (Z.of_nat (length l2) + k - MAX_ORDER)) by lia.
    rewrite (Hstream (linprebuf rg) (linprebuf (fed rg l1 r1)) l1 l2);
      [f_equal; lia|reflexivity| |lia].
    intros j Hj. now apply fed_history_left.
  - unfold history. apply slice_ext. intros k Hk.
    rewrite Z2Nat.id in Hk by (rewrite MAX_ORDER_value; lia).
    rewrite !Z.add_0_l, !fed_history_right by auto.
    rewrite length_app, Nat2Z.inj_add. fold n1.
    replace (n1 + Z.of_nat (length l2) + k)
      with (MAX_ORDER + n1 + (Z.of_nat (length l2) + k - MAX_ORDER)) by lia.
    rewrite (Hstream (rinprebuf rg) (rinprebuf (fed rg l1 r1)) r1 r2);
      [f_equal; lia|unfold n1; now rewrite Hlen| |lia].
    intros j Hj. now apply fed_history_right.
  - destruct (fed_length rg (l1 ++ l2) (r1 ++ r2)) as [-> ->].
    destruct (fed_length (fed rg l1 r1) l2 r2) as [-> ->].
    destruct (fed_length rg l1 r1) as [-> ->]. tauto.
Qed.

Lemma feed_ok_app rg l1 r1 l2 r2 :
  ready rg -> length r1 = length l1 -> length r2 = length l2 ->
  same_but_staging (feed_ok rg (l1 ++ l2) (r1 ++ r2))
    (feed_ok (feed_ok rg l1 r1) l2 r2).
Proof.
  intros Hr H1 H2.
  destruct l1 as [|x1 l1].
  - destruct r1; [|discriminate]. apply same_but_staging_refl.
  - destruct l2 as [|x2 l2].
    + destruct r2; [|discriminate]. rewrite !app_nil_r.
      apply same_but_staging_refl.
    + apply (fed_app rg (x1 :: l1) r1 (x2 :: l2) r2); auto; discriminate.
Qed.

(** Any number of calls leave what one call leaves on the whole stream,
    up to the staging half of the raw pre-buffers. *)
Lemma run_chunks_whole chunks :
  forall rg,
  ready rg ->
  Forall (fun c => length (snd c) = length (fst c)) chunks ->
  same_but_staging (feed_ok rg (all_left chunks) (all_right chunks))
    (run_chunks rg chunks).
Proof.
  induction chunks as [|[l r] rest IH]; intros rg Hr Hall.
  - apply same_but_staging_refl.
  - inversion Hall as [|c cs Hc Hrest]; subst. cbn [fst snd] in Hc.
    unfold all_left, all_right in *.
    cbn [map concat fst snd run_chunks].
    eapply same_but_staging_trans.
    + apply feed_ok_app; auto.
      clear -Hrest. induction Hrest as [|[l' r'] cs Hc Hcs IHcs];
        [reflexivity|].
      cbn [map concat fst snd] in *. rewrite !length_app. congruence.
    + apply IH; auto using feed_ok_ready.
Qed.

(** The two filters over [n1 + n2] samples are the two filters over
    [n1] samples and then over [n2]. *)
Lemma butter_after_yule x ip s sp o op n1 n2 ky kb :
  let s1 := filterYule x ip s sp n1 ky in
  let s12 := filterYule x (ip + Z.of_nat n1) s1 (sp + Z.of_nat n1) n2 ky in
  filterButter s12 sp o op (n1 + n2) kb
  = filterButter s12 (sp + Z.of_nat n1) (filterButter s1 sp o op n1 kb)
      (op + Z.of_nat n1) n2 kb.
Proof.
  intros s1 s12. rewrite filterButter_app. f_equal.
  apply filterButter_ext. intros d Hd. unfold s12.
  apply filterYule_outside. lia.
Qed.

Lemma filters_split x ip s sp o op n1 n2 ky kb :
  let s1 := filterYule x ip s sp n1 ky in
  let o1 := filterButter s1 sp o op n1 kb in
  let s2 := filterYule x (ip + Z.of_nat n1) s1 (sp + Z.of_nat n1) n2 ky in
  let o2 := filterButter s2 (sp + Z.of_nat n1) o1 (op + Z.of_nat n1) n2 kb in
  let s12 := filterYule x ip s sp (n1 + n2) ky in
  let o12 := filterButter s12 sp o op (n1 + n2) kb in
  s2 = s12 /\ o2 = o12.
Proof.
  intros s1 o1 s2 o2 s12 o12.
  assert (Es : s2 = s12) by (symmetry; apply filterYule_app).
  split; [exact Es|].
  unfold o12. rewrite <- Es. symmetry. apply butter_after_yule.
Qed.

(** A batch that leaves the window open. *)
Lemma process_batch_open rg xl ipl xr ipr c :
  0 <= totsamp rg -> 0 <= c ->
  totsamp rg + c < sampleWindow rg -> sampleWindow rg < 2 ^ 32 ->
  process_batch rg xl ipl xr ipr c
  = set_totsamp (filter_and_sum rg xl ipl xr ipr c) (totsamp rg + c).
Proof.
  intros Ht Hc Hfit Hw. unfold process_batch; cbv zeta.
  replace (totsamp (filter_and_sum rg xl ipl xr ipr c)) with (totsamp rg)
    by (unfold filter_and_sum; cbv zeta; reflexivity).
  rewrite wrap32_small by lia. fields.
  replace (sampleWindow (filter_and_sum rg xl ipl xr ipr c))
    with (sampleWindow rg)
    by (unfold filter_and_sum; cbv zeta; reflexivity).
  destruct (Z.eqb_spec (totsamp rg + c) (sampleWindow rg)); [lia|].
  reflexivity.
Qed.

Lemma as_read_left ch chunks : all_left (as_read ch chunks) = all_left chunks.
Proof.
  unfold all_left, as_read. rewrite map_map. reflexivity.
Qed.

Lemma as_read_right ch chunks :
  Forall (fun c => ch = 2 -> length (snd c) = length (fst c)) chunks ->
  ch = 1 \/ ch = 2 ->
  all_right (as_read ch chunks)
  = right_of ch (all_left chunks) (all_right chunks).
Proof.
  intros _ Hch. unfold all_left, all_right, as_read, right_of.
  rewrite map_map. cbn [snd fst]. unfold right_of.
  destruct (Z.eqb_spec ch 1); reflexivity.
Qed.

(** *** Calls and runs seen through a view

    [view] keeps the part of a context a statement is about.  What
    follows holds for every view that the engine respects and through
    which a batch is its two halves in a row. *)

Section Views.
Variable view : ReplayGainContext -> ReplayGainContext.
Hypothesis view_control :
  forall a b, view a = view b ->
  totsamp a = totsamp b /\ sampleWindow a = sampleWindow b.
Hypothesis view_batch :
  forall a b xl ipl xr ipr c, view a = view b ->
  view (process_batch a xl ipl xr ipr c)
  = view (process_batch b xl ipl xr ipr c).
Hypothesis view_set_inpre :
  forall a b l r, view a = view b ->
  view (set_inpre a l r) = view (set_inpre b l r).
Hypothesis view_split :
  forall rg xl xr ip c1 c2,
  0 <= totsamp rg -> 0 <= c1 -> 1 <= c2 ->
  totsamp rg + c1 + c2 <= sampleWindow rg -> sampleWindow rg < 2 ^ 32 ->
  view (process_batch rg xl ip xr ip (c1 + c2))
  = view (process_batch (process_batch rg xl ip xr ip c1)
            xl (ip + c1) xr (ip + c1) c2).

(** A batch that fits the window is its samples taken one by one. *)
Lemma view_batch_run n :
  forall rg xl xr ip,
  0 <= totsamp rg -> (1 <= n)%nat ->
  totsamp rg + Z.of_nat n <= sampleWindow rg -> sampleWindow rg < 2 ^ 32 ->
  view (process_batch rg xl ip xr ip (Z.of_nat n))
  = view (analyze_run rg xl xr ip n).
Proof.
  induction n as [|n IH]; intros rg xl xr ip Ht Hn Hfit Hw; [lia|].
  destruct n as [|n]; [reflexivity|].
  replace (Z.of_nat (S (S n))) with (1 + Z.of_nat (S n)) by lia.
  rewrite view_split by lia.
  pose proof (process_batch_totsamp rg xl ip xr ip 1 Ht ltac:(lia) ltac:(lia)
                Hw) as Ht1.
  destruct (Z.eqb_spec (totsamp rg + 1) (sampleWindow rg)); [lia|].
  destruct (process_batch_frame rg xl ip xr ip 1)
    as (_ & _ & (_ & Hw1 & _) & _).
  change (analyze_run rg xl xr ip (S (S n)))
    with (analyze_run (process_batch rg xl ip xr ip 1) xl xr (ip + 1) (S n)).
  apply IH; rewrite ?Ht1, ?Hw1; lia.
Qed.

Lemma view_analyze_run n :
  forall a b xl xr ip, view a = view b ->
  view (analyze_run a xl xr ip n) = view (analyze_run b xl xr ip n).
Proof.
  induction n as [|n IH]; intros a b xl xr ip H; cbn [analyze_run]; auto.
Qed.

(** The loop of [WAAnalyzeSamples], started with the prefix of the call
    staged behind the history, is the engine run sample by sample over
    the stream [history ++ samples]. *)
Lemma view_loop fuel l r xl xr :
  forall rg rgm batchsamples cursamplepos,
  ready rg -> view rg = view rgm ->
  0 <= batchsamples -> 0 <= cursamplepos ->
  batchsamples + cursamplepos < 2 ^ 32 ->
  (forall j, 0 <= j < MAX_ORDER + Z.min (batchsamples + cursamplepos) MAX_ORDER
     -> load Fzero (linprebuf rg) j = load Fzero xl j) ->
  (forall j, 0 <= j < MAX_ORDER + Z.min (batchsamples + cursamplepos) MAX_ORDER
     -> load Fzero (rinprebuf rg) j = load Fzero xr j) ->
  (forall j, 0 <= j -> load Fzero l j = load Fzero xl (MAX_ORDER + j)) ->
  (forall j, 0 <= j -> load Fzero r j = load Fzero xr (MAX_ORDER + j)) ->
  (Z.to_nat batchsamples < fuel)%nat ->
  exists rg',
    analyze_loop fuel l r rg batchsamples cursamplepos = Some (true, rg')
    /\ view rg'
       = view (analyze_run rgm xl xr (MAX_ORDER + cursamplepos)
                 (Z.to_nat batchsamples))
    /\ linprebuf rg' = linprebuf rg /\ rinprebuf rg' = rinprebuf rg.
Proof.
  rewrite MAX_ORDER_value.
  induction fuel as [|fuel IH];
    intros rg rgm b p Hr Hv Hb Hp Hlt Hsl Hsr Hl Hrr Hf; [lia|].
  cbn [analyze_loop].
  destruct (Z.gtb_spec b 0) as [Hpos|Hzero].
  2:{ exists rg. replace (Z.to_nat b) with O by lia.
      cbn [analyze_run]. auto. }
  unfold analyze_step; cbv zeta.
  destruct (batch_size_bounds rg b p Hr Hpos Hp) as (Hc & Hfit & Hstage).
  rewrite MAX_ORDER_value in Hstage.
  set (c := batch_size rg b p) in *.
  pose proof Hr as (_ & (Hlp & _ & _ & Hrp & _ & _) & Hw & Ht).
  rewrite MAX_ORDER_value in Hlp, Hrp.
  unfold MAX_SAMPLES_PER_WINDOW in Hw.
  assert (E : (if p <? MAX_ORDER
               then process_batch rg (linprebuf rg) (linpre rg + p)
                      (rinprebuf rg) (rinpre rg + p) c
               else process_batch rg l p r p c)
              = process_batch rg xl (10 + p) xr (10 + p) c).
  { rewrite MAX_ORDER_value.
    destruct (Z.ltb_spec p 10).
    - rewrite Hlp, Hrp.
      apply process_batch_ext; [lia| |]; rewrite MAX_ORDER_value;
        intros d Hd; [apply Hsl | apply Hsr]; lia.
    - apply process_batch_ext; [lia| |]; rewrite MAX_ORDER_value;
        intros d Hd.
      + rewrite Hl by lia. f_equal; lia.
      + rewrite Hrr by lia. f_equal; lia. }
  rewrite E. clear E.
  set (rg1 := process_batch rg xl (10 + p) xr (10 + p) c).
  assert (Hr1 : ready rg1) by (apply process_batch_ready; auto; lia).
  destruct (process_batch_frame rg xl (10 + p) xr (10 + p) c)
    as (Hfl & Hfrr & _). fold rg1 in Hfl, Hfrr.
  destruct (view_control _ _ Hv) as [Htm Hwm].
  assert (Hv1 : view rg1
                = view (analyze_run rgm xl xr (10 + p) (Z.to_nat c))).
  { unfold rg1. rewrite (view_batch rg rgm) by exact Hv.
    rewrite <- view_batch_run by lia. now rewrite Z2Nat.id by lia. }
  assert (Hno : (totsamp rg1 >? sampleWindow rg1) = false).
  { destruct Hr1 as (_ & _ & _ & Ht1).
    destruct (Z.gtb_spec (totsamp rg1) (sampleWindow rg1)); [lia|easy]. }
  rewrite Hno, !wrap32_small by lia.
  destruct (IH rg1 (analyze_run rgm xl xr (10 + p) (Z.to_nat c))
              (b - c) (p + c)) as (rg' & Hloop & Hv' & Hl' & Hr');
    try assumption; try lia.
  - intros j Hj. rewrite Hfl. apply Hsl.
    replace (b + p) with (b - c + (p + c)) by lia. exact Hj.
  - intros j Hj. rewrite Hfrr. apply Hsr.
    replace (b + p) with (b - c + (p + c)) by lia. exact Hj.
  - exists rg'. split; [exact Hloop|]. split; [|split; congruence].
    rewrite Hv'. f_equal.
    replace (Z.to_nat b) with (Z.to_nat c + Z.to_nat (b - c))%nat by lia.
    rewrite analyze_run_app. f_equal. lia.
Qed.

(** A call that reads samples leaves, through the view, the context
    [fed]. *)
Lemma view_feed rg l r ch :
  ready rg -> l <> [] -> Z.of_nat (length l) < 2 ^ 32 -> ch = 1 \/ ch = 2 ->
  exists rg',
    feed rg l r ch = Some (GAIN_ANALYSIS_OK, rg')
    /\ agree_on view rg' (fed rg l (right_of ch l r)).
Proof.
  intros Hr Hl Hlen Hch. unfold feed.
  set (n := Z.of_nat (length l)) in *.
  assert (Hn : 0 < n) by (destruct l; [congruence|cbn [length] in n; lia]).
  destruct (feed_cases (S (length l)) rg l r n ch)
    as [(H0 & _) | [(_ & H1 & H2 & _) | (_ & _ & ->)]]; [lia|lia|].
  cbv zeta. fold (right_of ch l r). set (r' := right_of ch l r).
  set (xl := history (linprebuf rg) ++ l).
  set (xr := history (rinprebuf rg) ++ r').
  pose proof Hr as ((Hll & Hlr & _) & _).
  destruct (view_loop (S (length l)) l r' xl xr (stage_prefix rg l r' n)
              (stage_prefix rg l r' n) n 0)
    as (rg' & -> & Hv & Hpl & Hpr);
    try lia; try reflexivity; try (apply stage_prefix_ready, Hr).
  - intros j Hj. rewrite Z.add_0_r in Hj.
    unfold stage_prefix; cbv zeta; fields. apply staged_load; auto; lia.
  - intros j Hj. rewrite Z.add_0_r in Hj.
    unfold stage_prefix; cbv zeta; fields. apply staged_load; auto; lia.
  - intros j Hj. symmetry. now apply stream_load_samples.
  - intros j Hj. symmetry. now apply stream_load_samples.
  - exists (save_history rg' l r' n). split; [reflexivity|].
    rewrite Z.add_0_r in Hv. unfold n in Hv. rewrite Nat2Z.id in Hv.
    unfold stage_prefix in Hv. cbv zeta in Hv.
    rewrite analyze_run_set_inpre in Hv.
    unfold agree_on, save_history, fed; cbv zeta; fields. fold n xl xr.
    rewrite Hpl, Hpr. split; [|split; reflexivity].
    exact (view_set_inpre _ _ _ _ Hv).
Qed.

Lemma view_feed_ok rg l r ch :
  ready rg -> Z.of_nat (length l) < 2 ^ 32 -> ch = 1 \/ ch = 2 ->
  exists rg',
    feed rg l r ch = Some (GAIN_ANALYSIS_OK, rg')
    /\ ready rg'
    /\ agree_on view rg' (feed_ok rg l (right_of ch l r)).
Proof.
  intros Hr Hlen Hch. destruct l as [|x l].
  - exists rg. unfold agree_on. cbn. auto.
  - destruct (view_feed rg (x :: l) r ch) as (rg' & E & Ha);
      auto; [discriminate|].
    exists rg'. split; [exact E|]. split; [|exact Ha].
    unfold feed in E.
    destruct (feed_ready (S (length (x :: l))) rg (x :: l) r
                (Z.of_nat (length (x :: l))) ch Hr ltac:(lia)) as (H & _).
    now destruct (H _ _ E).
Qed.

Lemma agree_feed_ok a b l r :
  agree_on view a b -> agree_on view (feed_ok a l r) (feed_ok b l r).
Proof.
  intros (Hv & Hl & Hr). destruct l as [|x l]; [split; auto|].
  unfold feed_ok, fed, stage_prefix, agree_on; cbv zeta; fields.
  rewrite <- Hl, <- Hr. split; [|split; reflexivity].
  apply view_set_inpre, view_analyze_run, Hv.
Qed.

Lemma agree_run_chunks chunks :
  forall a b, agree_on view a b ->
  agree_on view (run_chunks a chunks) (run_chunks b chunks).
Proof.
  induction chunks as [|[l r] rest IH]; intros a b H; cbn [run_chunks];
    auto using agree_feed_ok.
Qed.

Lemma agree_on_trans a b c :
  agree_on view a b -> agree_on view b c -> agree_on view a c.
Proof. unfold agree_on. intros (-> & -> & ->) (-> & -> & ->). tauto. Qed.

Lemma view_feed_chunks chunks ch :
  forall rg,
  ready rg -> ch = 1 \/ ch = 2 ->
  Forall (fun c => Z.of_nat (length (fst c)) < 2 ^ 32) chunks ->
  exists rg',
    feed_chunks rg chunks ch = Some (GAIN_ANALYSIS_OK, rg')
    /\ agree_on view rg' (run_chunks rg (as_read ch chunks)).
Proof.
  induction chunks as [|[l r] rest IH]; intros rg Hr Hch Hall.
  - exists rg. unfold agree_on. cbn. auto.
  - inversion Hall as [|c cs Hc Hrest]; subst. cbn [fst] in Hc.
    destruct (view_feed_ok rg l r ch Hr Hc Hch) as (rg1 & E & Hr1 & Ha).
    destruct (IH rg1 Hr1 Hch Hrest) as (rg' & E' & Ha').
    exists rg'. cbn [feed_chunks]. rewrite E. split; [exact E'|].
    unfold as_read in *. cbn [map run_chunks fst snd].
    eapply agree_on_trans; [exact Ha'|].
    apply agree_run_chunks, Ha.
Qed.

Lemma view_chunking rg chunks ch :
  ready rg -> ch = 1 \/ ch = 2 ->
  Forall (fun c => ch = 2 -> length (snd c) = length (fst c)) chunks ->
  Z.of_nat (length (all_left chunks)) < 2 ^ 32 ->
  exists whole split one many,
    feed rg (all_left chunks) (all_right chunks) ch
    = Some (GAIN_ANALYSIS_OK, whole)
    /\ feed_chunks rg chunks ch = Some (GAIN_ANALYSIS_OK, split)
    /\ agree_on view whole one /\ agree_on view split many
    /\ same_but_staging one many.
Proof.
  intros Hr Hch Hall Hlen.
  destruct (view_feed_ok rg (all_left chunks) (all_right chunks) ch Hr Hlen
              Hch) as (whole & Ew & _ & Hw).
  destruct (view_feed_chunks chunks ch rg Hr Hch) as (split & Es & Hs).
  { clear -Hlen. unfold all_left in Hlen. induction chunks as [|[l r] cs IH];
      constructor; cbn [map concat fst] in *; rewrite length_app in Hlen;
      [lia | apply IH; lia]. }
  exists whole, split. eexists. eexists.
  split; [exact Ew|]. split; [exact Es|].
  split; [exact Hw|]. split; [exact Hs|].
  rewrite <- (as_read_left ch chunks) at 1.
  rewrite <- (as_read_right ch chunks) by assumption.
  apply run_chunks_whole; [exact Hr|].
  clear -Hch Hall. unfold as_read.
  induction Hall as [|[l r] cs Hc Hcs IH]; cbn [map]; constructor; auto.
  cbn [fst snd] in *. unfold right_of.
  destruct (Z.eqb_spec ch 1); [reflexivity|apply Hc; lia].
Qed.

End Views.

(** *** The filter state is independent of the chunking *)

Lemma filter_state_fields a b :
  filter_state a = filter_state b ->
  (linpre a = linpre b /\ lstepbuf a = lstepbuf b /\ lstep a = lstep b /\
   loutbuf a = loutbuf b /\ lout a = lout b) /\
  (rinpre a = rinpre b /\ rstepbuf a = rstepbuf b /\ rstep a = rstep b /\
   routbuf a = routbuf b /\ rout a = rout b) /\
  (sampleWindow a = sampleWindow b /\ totsamp a = totsamp b /\
   freqindex a = freqindex b /\ first a = first b /\ B a = B b).
Proof.
  intros H.
  repeat split;
    match goal with |- ?f a = ?f b => exact (f_equal f H) end.
Qed.

Ltac filter_fields H :=
  destruct (filter_state_fields _ _ H)
    as ((?E & ?E & ?E & ?E & ?E) & (?E & ?E & ?E & ?E & ?E)
        & (?E & ?E & ?E & ?E & ?E)).

Ltac filter_rewrite :=
  repeat match goal with
         | E : ?f ?a = ?f ?b |- _ => rewrite ?E; clear E
         end.

Lemma filter_state_control a b :
  filter_state a = filter_state b ->
  totsamp a = totsamp b /\ sampleWindow a = sampleWindow b.
Proof. intros H. filter_fields H. auto. Qed.

Lemma filter_state_set_inpre a b (l r : list Float_t) :
  filter_state a = filter_state b ->
  filter_state (set_inpre a l r) = filter_state (set_inpre b l r).
Proof. intros H. exact H. Qed.

Lemma filter_state_filter_and_sum a b xl ipl xr ipr c :
  filter_state a = filter_state b ->
  filter_state (filter_and_sum a xl ipl xr ipr c)
  = filter_state (filter_and_sum b xl ipl xr ipr c).
Proof.
  intros H. filter_fields H.
  unfold filter_state, filter_and_sum; cbv zeta; fields.
  filter_rewrite. reflexivity.
Qed.

Lemma filter_state_finish a b v :
  filter_state a = filter_state b ->
  filter_state (if v =? sampleWindow a then close_window (set_totsamp a v)
                else set_totsamp a v)
  = filter_state (if v =? sampleWindow b then close_window (set_totsamp b v)
                  else set_totsamp b v).
Proof.
  intros H. filter_fields H.
  replace (sampleWindow a) with (sampleWindow b) by congruence.
  destruct (_ =? _); unfold filter_state, close_window, set_totsamp; fields;
    filter_rewrite; reflexivity.
Qed.

Lemma process_batch_unfold rg xl ipl xr ipr c :
  process_batch rg xl ipl xr ipr c
  = let s := filter_and_sum rg xl ipl xr ipr c in
    let v := wrap32 (totsamp rg + c) in
    if v =? sampleWindow s then close_window (set_totsamp s v)
    else set_totsamp s v.
Proof. reflexivity. Qed.

Lemma filter_state_batch a b xl ipl xr ipr c :
  filter_state a = filter_state b ->
  filter_state (process_batch a xl ipl xr ipr c)
  = filter_state (process_batch b xl ipl xr ipr c).
Proof.
  intros H. rewrite !process_batch_unfold; cbv zeta.
  destruct (filter_state_control a b H) as [-> _].
  now apply filter_state_finish, filter_state_filter_and_sum.
Qed.

Lemma filter_state_filter_and_sum_split rg xl xr ip n1 n2 :
  filter_state
    (filter_and_sum
       (set_totsamp (filter_and_sum rg xl ip xr ip (Z.of_nat n1))
          (totsamp rg + Z.of_nat n1))
       xl (ip + Z.of_nat n1) xr (ip + Z.of_nat n1) (Z.of_nat n2))
  = filter_state
      (set_totsamp (filter_and_sum rg xl ip xr ip (Z.of_nat (n1 + n2)))
         (totsamp rg + Z.of_nat n1)).
Proof.
  unfold filter_state, filter_and_sum, set_totsamp; cbv zeta; fields.
  rewrite !Nat2Z.id, !Z.add_assoc.
  destruct (filters_split xl ip (lstepbuf rg) (lstep rg + totsamp rg)
              (loutbuf rg) (lout rg + totsamp rg) n1 n2
              (ABYule (freqindex rg)) (ABButter (freqindex rg)))
    as (El1 & El2).
  destruct (filters_split xr ip (rstepbuf rg) (rstep rg + totsamp rg)
              (routbuf rg) (rout rg + totsamp rg) n1 n2
              (ABYule (freqindex rg)) (ABButter (freqindex rg)))
    as (Er1 & Er2).
  cbv zeta in El1, El2, Er1, Er2.
  rewrite El2, El1, Er2, Er1. reflexivity.
Qed.

Lemma set_totsamp_twice rg u v :
  set_totsamp (set_totsamp rg u) v = set_totsamp rg v.
Proof. reflexivity. Qed.

(** Whatever the arithmetic, a batch of [c1 + c2] samples that fits the
    window leaves the filter state of a batch of [c1] followed by a
    batch of [c2]. *)
Lemma filter_state_split rg xl xr ip c1 c2 :
  0 <= totsamp rg -> 0 <= c1 -> 1 <= c2 ->
  totsamp rg + c1 + c2 <= sampleWindow rg -> sampleWindow rg < 2 ^ 32 ->
  filter_state (process_batch rg xl ip xr ip (c1 + c2))
  = filter_state
      (process_batch (process_batch rg xl ip xr ip c1) xl (ip + c1)
         xr (ip + c1) c2).
Proof.
  intros Ht H1 H2 Hfit Hw.
  rewrite (process_batch_open rg xl ip xr ip c1) by lia.
  rewrite !process_batch_unfold; cbv zeta.
  change (totsamp (set_totsamp ?x ?u)) with u.
  replace (totsamp rg + c1 + c2) with (totsamp rg + (c1 + c2)) by lia.
  pose proof (filter_state_filter_and_sum_split rg xl xr ip (Z.to_nat c1)
                (Z.to_nat c2)) as E.
  rewrite Nat2Z.inj_add, !Z2Nat.id in E by lia.
  rewrite (filter_state_finish _ _ (wrap32 (totsamp rg + (c1 + c2))) E).
  rewrite set_totsamp_twice. reflexivity.
Qed.

(** *** With an associative addition the sums are independent too *)

Section Regrouped.
Hypothesis dadd_assoc :
  forall a b c : double, dadd a (dadd b c) = dadd (dadd a b) c.

Lemma squares_after_butter (s1 s12 o : list Float_t) sp op n1 n2 kb sum :
  let o1 := filterButter s1 sp o op n1 kb in
  let o12 :=
    filterButter s12 (sp + Z.of_nat n1) o1 (op + Z.of_nat n1) n2 kb in
  sum_squares o12 op (Z.of_nat (n1 + n2)) sum
  = sum_squares o12 (op + Z.of_nat n1) (Z.of_nat n2)
      (sum_squares o1 op (Z.of_nat n1) sum).
Proof.
  intros o1 o12.
  rewrite !(sum_squares_sequential dadd_assoc) by lia.
  rewrite !Nat2Z.id, sum_tail_app. f_equal.
  apply sum_tail_ext. intros d Hd. unfold o12.
  apply filterButter_outside. lia.
Qed.

Lemma channel_split x ip s sp o op sum n1 n2 ky kb :
  let s1 := filterYule x ip s sp n1 ky in
  let o1 := filterButter s1 sp o op n1 kb in
  let sum1 := sum_squares o1 op (Z.of_nat n1) sum in
  let s2 := filterYule x (ip + Z.of_nat n1) s1 (sp + Z.of_nat n1) n2 ky in
  let o2 := filterButter s2 (sp + Z.of_nat n1) o1 (op + Z.of_nat n1) n2 kb in
  let sum2 := sum_squares o2 (op + Z.of_nat n1) (Z.of_nat n2) sum1 in
  let s12 := filterYule x ip s sp (n1 + n2) ky in
  let o12 := filterButter s12 sp o op (n1 + n2) kb in
  let sum12 := sum_squares o12 op (Z.of_nat (n1 + n2)) sum in
  s2 = s12 /\ o2 = o12 /\ sum2 = sum12.
Proof.
  intros s1 o1 sum1 s2 o2 sum2 s12 o12 sum12.
  assert (Es : s2 = s12) by (symmetry; apply filterYule_app).
  assert (Eo : o2 = o12).
  { unfold o12. rewrite <- Es. symmetry. apply butter_after_yule. }
  split; [exact Es|]. split; [exact Eo|].
  unfold sum12. rewrite <- Eo. symmetry. apply squares_after_butter.
Qed.

Lemma filter_and_sum_split rg xl xr ip n1 n2 :
  filter_and_sum
    (set_totsamp (filter_and_sum rg xl ip xr ip (Z.of_nat n1))
       (totsamp rg + Z.of_nat n1))
    xl (ip + Z.of_nat n1) xr (ip + Z.of_nat n1) (Z.of_nat n2)
  = set_totsamp (filter_and_sum rg xl ip xr ip (Z.of_nat (n1 + n2)))
      (totsamp rg + Z.of_nat n1).
Proof.
  unfold filter_and_sum, set_totsamp; cbv zeta; fields.
  rewrite !Nat2Z.id, !Z.add_assoc.
  destruct (channel_split xl ip (lstepbuf rg) (lstep rg + totsamp rg)
              (loutbuf rg) (lout rg + totsamp rg) (lsum rg) n1 n2
              (ABYule (freqindex rg)) (ABButter (freqindex rg)))
    as (El1 & El2 & El3).
  destruct (channel_split xr ip (rstepbuf rg) (rstep rg + totsamp rg)
              (routbuf rg) (rout rg + totsamp rg) (rsum rg) n1 n2
              (ABYule (freqindex rg)) (ABButter (freqindex rg)))
    as (Er1 & Er2 & Er3).
  cbv zeta in El1, El2, El3, Er1, Er2, Er3.
  rewrite El3, El2, El1, Er3, Er2, Er1. reflexivity.
Qed.

(** A batch of [c1 + c2] samples that fits the window is a batch of [c1]
    followed by a batch of [c2]. *)
Lemma process_batch_split rg xl xr ip c1 c2 :
  0 <= totsamp rg -> 0 <= c1 -> 1 <= c2 ->
  totsamp rg + c1 + c2 <= sampleWindow rg -> sampleWindow rg < 2 ^ 32 ->
  process_batch rg xl ip xr ip (c1 + c2)
  = process_batch (process_batch rg xl ip xr ip c1) xl (ip + c1) xr (ip + c1)
      c2.
Proof.
  intros Ht H1 H2 Hfit Hw.
  assert (E1 : process_batch rg xl ip xr ip c1
               = set_totsamp (filter_and_sum rg xl ip xr ip c1)
                   (totsamp rg + c1)).
  { unfold process_batch; cbv zeta.
    replace (totsamp (filter_and_sum rg xl ip xr ip c1)) with (totsamp rg)
      by (unfold filter_and_sum; cbv zeta; reflexivity).
    rewrite wrap32_small by lia. fields.
    replace (sampleWindow (filter_and_sum rg xl ip xr ip c1))
      with (sampleWindow rg)
      by (unfold filter_and_sum; cbv zeta; reflexivity).
    destruct (Z.eqb_spec (totsamp rg + c1) (sampleWindow rg)); [lia|].
    reflexivity. }
  rewrite E1.
  pose proof (filter_and_sum_split rg xl xr ip (Z.to_nat c1) (Z.to_nat c2))
    as E2.
  rewrite Nat2Z.inj_add, !Z2Nat.id in E2 by lia.
  unfold process_batch at 1 2; cbv zeta.
  rewrite E2. fields.
  replace (totsamp (filter_and_sum rg xl ip xr ip (c1 + c2)))
    with (totsamp rg) by (unfold filter_and_sum; cbv zeta; reflexivity).
  rewrite !wrap32_small by lia.
  replace (totsamp rg + c1 + c2) with (totsamp rg + (c1 + c2)) by lia.
  unfold set_totsamp; fields. reflexivity.
Qed.

End Regrouped.

Lemma same_but_staging_gains a b :
  same_but_staging a b ->
  fst (WAGetTitleGain a) = fst (WAGetTitleGain b)
  /\ WAGetAlbumGain (snd (WAGetTitleGain a))
     = WAGetAlbumGain (snd (WAGetTitleGain b)).
Proof.
  intros (Hc & _).
  pose proof (f_equal A Hc) as Ha. pose proof (f_equal B Hc) as Hb.
  unfold core in Ha, Hb. fields_in_all.
  unfold WAGetAlbumGain, WAGetTitleGain; cbv zeta; fields.
  rewrite Ha, Hb. auto.
Qed.

Lemma same_filter_state_of whole split one many :
  agree_on filter_state whole one -> agree_on filter_state split many ->
  same_but_staging one many -> same_filter_state whole split.
Proof.
  intros (Hw & Hwl & Hwr) (Hs & Hsl & Hsr) (Hc & Hl & Hr & Hll & Hlr).
  unfold same_filter_state. rewrite Hw, Hs, Hwl, Hwr, Hsl, Hsr.
  split; [|tauto].
  change (filter_state (core one) = filter_state (core many)).
  now rewrite Hc.
Qed.

(** A ready context is fed a stream in one call and, chunk by chunk, in
    several calls, on one or two channels.  Both ways succeed.  Whatever
    the floating-point arithmetic, the two contexts have the same filter
    state, position in the window, configuration, saved history and
    album histogram, and so the same album gain.  They may differ in the
    staging half of the raw pre-buffers, which every call overwrites
    before reading it, and in the grouping of the additions behind the
    two running sums of squares.  In an arithmetic whose addition is
    associative the sums and the title histogram are the same too. *)
Lemma chunking_views rg chunks ch :
  ready rg -> ch = 1 \/ ch = 2 ->
  Forall (fun c => ch = 2 -> length (snd c) = length (fst c)) chunks ->
  Z.of_nat (length (all_left chunks)) < 2 ^ 32 ->
  exists whole split,
    feed rg (all_left chunks) (all_right chunks) ch
    = Some (GAIN_ANALYSIS_OK, whole)
    /\ feed_chunks rg chunks ch = Some (GAIN_ANALYSIS_OK, split)
    /\ same_filter_state whole split
    /\ WAGetAlbumGain whole = WAGetAlbumGain split
    /\ ((forall a b c : double, dadd a (dadd b c) = dadd (dadd a b) c) ->
        same_but_staging whole split
        /\ fst (WAGetTitleGain whole) = fst (WAGetTitleGain split)
        /\ WAGetAlbumGain (snd (WAGetTitleGain whole))
           = WAGetAlbumGain (snd (WAGetTitleGain split))).
Proof.
  intros Hr Hch Hall Hlen.
  destruct (view_chunking filter_state filter_state_control
              filter_state_batch filter_state_set_inpre filter_state_split
              rg chunks ch Hr Hch Hall Hlen)
    as (whole & split & one & many & Ew & Es & Hw & Hs & Hsame).
  exists whole, split.
  pose proof (same_filter_state_of _ _ _ _ Hw Hs Hsame) as Hfs.
  split; [exact Ew|]. split; [exact Es|]. split; [exact Hfs|].
  split.
  { destruct Hfs as (Hf & _). unfold WAGetAlbumGain.
    now rewrite (f_equal B Hf : B whole = B split). }
  intros Hassoc.
  destruct (view_chunking (fun x => x)
              (fun a b H => conj (f_equal totsamp H) (f_equal sampleWindow H))
              (fun a b xl ipl xr ipr c H =>
                 f_equal (fun x => process_batch x xl ipl xr ipr c) H)
              (fun a b l r H => f_equal (fun x => set_inpre x l r) H)
              (process_batch_split Hassoc)
              rg chunks ch Hr Hch Hall Hlen)
    as (whole' & split' & one' & many' & Ew' & Es' & (Hw' & _) & (Hs' & _)
        & Hsame').
  rewrite Ew in Ew'. rewrite Es in Es'.
  apply (f_equal (fun o => context_of whole o)) in Ew'.
  apply (f_equal (fun o => context_of split o)) in Es'.
  cbn in Ew', Es'. subst whole' split' one' many'.
  split; [exact Hsame'|]. now apply same_but_staging_gains.
Qed.

End Chunking.

(* ------------------------------------------------------------------ *)
(** ** Further properties of the engine *)

Section Coverage.
Context {FA : FloatArith}.
Implicit Types (rg : ReplayGainContext).

Local Notation "a +! b" := (dadd a b) (at level 50, left associativity).
Local Notation "a *! b" := (dmul a b) (at level 40, left associativity).
Local Notation "a /! b" := (ddiv a b) (at level 40, left associativity).

(** *** Empty histograms *)

Lemma total_repeat_zero n : total (repeat 0 n) = 0.
Proof. induction n as [|n IH]; cbn [repeat total]; lia. Qed.

Lemma counters_zero_histogram : counters zero_histogram.
Proof.
  unfold counters, zero_histogram. apply Forall_forall. intros x Hx.
  apply repeat_spec in Hx. subst x. lia.
Qed.

Lemma total_zero_histogram : total zero_histogram = 0.
Proof. apply total_repeat_zero. Qed.

(** *** analyzeResult: the bucket it returns *)

(** Where the scan of the specification stops, the buckets above hold
    fewer windows than the running value it started from, and the
    buckets from there on hold at least as many. *)
Lemma spec_scan_tail a n :
  forall running i,
  0 < running ->
  spec_scan a n running = Some i ->
  0 <= i < Z.of_nat n /\
  range_total a (i + 1) (n - 1 - Z.to_nat i) < running
  /\ running <= range_total a i (n - Z.to_nat i).
Proof.
  induction n as [|n IH]; intros running i Hpos H; [discriminate|].
  cbn [spec_scan] in H.
  replace (nth n a 0) with (load 0 a (Z.of_nat n)) in H
    by (unfold load; destruct (Z.ltb_spec (Z.of_nat n) 0); [lia|];
        now rewrite Nat2Z.id).
  destruct (Z.leb_spec (running - load 0 a (Z.of_nat n)) 0) as [Hs|Hs].
  - injection H as <-. rewrite Nat2Z.id.
    replace (S n - 1 - n)%nat with O by lia.
    replace (S n - n)%nat with 1%nat by lia.
    cbn [range_total]. lia.
  - destruct (IH _ _ Hs H) as (Hi & Hlo & Hhi).
    split; [lia|].
    replace (S n - 1 - Z.to_nat i)%nat with (S (n - 1 - Z.to_nat i)) by lia.
    replace (S n - Z.to_nat i)%nat with (S (n - Z.to_nat i)) by lia.
    rewrite !range_total_snoc.
    replace (i + 1 + Z.of_nat (n - 1 - Z.to_nat i)) with (Z.of_nat n) by lia.
    replace (i + Z.of_nat (n - Z.to_nat i)) with (Z.of_nat n) by lia.
    lia.
Qed.

(** X1. The value [analyzeResult] returns on a histogram with at least
    one window is the gain of a bucket [i] of the table such that fewer
    windows than the threshold lie in the buckets above [i] and at least
    as many as the threshold lie in the buckets from [i] on: the bucket of
    the loudest windows that make up the threshold. *)
Theorem percentile_bucket (hist : list Z) :
  unwrapped hist ->
  total hist <> 0 ->
  1 <= percentile_count (total hist) <= total hist ->
  exists i,
    0 <= i < HISTOGRAM_LEN /\
    analyzeResult hist HISTOGRAM_LEN = gain_of_index i /\
    range_total hist (i + 1) (Z.to_nat (HISTOGRAM_LEN - 1 - i))
    < percentile_count (total hist) /\
    percentile_count (total hist)
    <= range_total hist i (Z.to_nat (HISTOGRAM_LEN - i)).
Proof.
  intros Hu Hnz Hp.
  assert (Hp0 : 0 <= percentile_count (total hist) <= total hist) by lia.
  destruct (analyzeResult_unwrapped hist Hu Hp0) as (Hv & Hstop).
  destruct (Hstop Hnz) as (i & Hi & Hr).
  destruct (Z.eqb_spec (total hist) 0) as [|_]; [contradiction|].
  rewrite Hi in Hv.
  assert (Hp1 : 0 < percentile_count (total hist)) by lia.
  destruct (spec_scan_tail hist (length hist) _ i Hp1 Hi)
    as (_ & Hlo & Hhi).
  destruct Hu as (Hlen & _).
  exists i. split; [exact Hr|]. split; [exact Hv|].
  replace (Z.to_nat (HISTOGRAM_LEN - 1 - i))
    with (length hist - 1 - Z.to_nat i)%nat by lia.
  replace (Z.to_nat (HISTOGRAM_LEN - i))
    with (length hist - Z.to_nat i)%nat by lia.
  split; assumption.
Qed.

(** *** Initialisation and rate change *)

(** X2. A successful [WAInitGainAnalysis] leaves no data behind,
    whatever the block held: both histograms are empty, so both queries
    answer with the sentinel; the window is empty and its sums are zero;
    the cursors stand behind the history prefixes, which are cleared;
    window size and coefficients are those of the rate. *)
Theorem init_leaves_no_data block samplefreq rg :
  WAInitGainAnalysis block samplefreq = (INIT_GAIN_ANALYSIS_OK, rg) ->
  (A rg = zero_histogram /\ B rg = zero_histogram) /\
  (fst (WAGetTitleGain rg) = GAIN_NOT_ENOUGH_SAMPLES /\
   WAGetAlbumGain rg = GAIN_NOT_ENOUGH_SAMPLES) /\
  (totsamp rg = 0 /\ lsum rg = dlit 0 /\ rsum rg = dlit 0) /\
  (linpre rg = MAX_ORDER /\ lstep rg = MAX_ORDER /\ lout rg = MAX_ORDER /\
   rinpre rg = MAX_ORDER /\ rstep rg = MAX_ORDER /\ rout rg = MAX_ORDER) /\
  history_cleared block rg /\
  sampleWindow rg = window_samples samplefreq /\
  freqindex_of samplefreq = Some (freqindex rg).
Proof.
  unfold WAInitGainAnalysis, WAResetSampleFrequency.
  destruct (freqindex_of samplefreq) as [i|]; [|discriminate].
  intros H. apply (f_equal snd) in H. cbn [snd] in H. subst rg.
  unfold WAGetTitleGain, WAGetAlbumGain; fields.
  split; [split; reflexivity|].
  split; [split; exact analyzeResult_empty|].
  split; [repeat split|].
  split; [repeat split|].
  split; [|split; reflexivity].
  exact (zero_history_cleared block).
Qed.

(** X3. A successful [WAResetSampleFrequency] keeps the album: the
    album histogram and the album gain are those of before.  It discards
    the title so far (empty title histogram, empty window, cleared
    history prefixes) and selects window size and coefficients of the new
    rate.  It does not set the cursors; on a context that was ready it
    leaves a ready context. *)
Theorem reset_keeps_album rg samplefreq rg' :
  WAResetSampleFrequency rg samplefreq = (INIT_GAIN_ANALYSIS_OK, rg') ->
  (B rg' = B rg /\ WAGetAlbumGain rg' = WAGetAlbumGain rg) /\
  (A rg' = zero_histogram /\
   fst (WAGetTitleGain rg') = GAIN_NOT_ENOUGH_SAMPLES) /\
  (totsamp rg' = 0 /\ lsum rg' = dlit 0 /\ rsum rg' = dlit 0) /\
  (linpre rg' = linpre rg /\ lstep rg' = lstep rg /\ lout rg' = lout rg /\
   rinpre rg' = rinpre rg /\ rstep rg' = rstep rg /\ rout rg' = rout rg) /\
  history_cleared rg rg' /\
  sampleWindow rg' = window_samples samplefreq /\
  freqindex_of samplefreq = Some (freqindex rg') /\
  (window_law -> - 2 ^ 31 <= samplefreq < 2 ^ 31 -> ready rg -> ready rg').
Proof.
  intros H.
  assert (Hready : window_law -> - 2 ^ 31 <= samplefreq < 2 ^ 31 ->
                   ready rg -> ready rg')
    by (intros Hlaw Hr Hrdy; exact (reset_ready _ _ _ _ Hlaw Hrdy Hr H)).
  revert H Hready. unfold WAResetSampleFrequency.
  destruct (freqindex_of samplefreq) as [i|]; [|discriminate].
  intros H Hready. apply (f_equal snd) in H. cbn [snd] in H. subst rg'.
  unfold WAGetTitleGain, WAGetAlbumGain; fields.
  split; [split; reflexivity|].
  split; [split; [reflexivity|exact analyzeResult_empty]|].
  split; [repeat split|].
  split; [repeat split|].
  split; [exact (zero_history_cleared rg)|].
  split; [reflexivity|]. split; [reflexivity|exact Hready].
Qed.

(** *** Title query *)

Lemma zero_fill_twice (buf : list Float_t) :
  zero_fill (Z.to_nat MAX_ORDER) 0 (zero_fill (Z.to_nat MAX_ORDER) 0 buf)
  = zero_fill (Z.to_nat MAX_ORDER) 0 buf.
Proof.
  rewrite !zero_fill_blit. apply (load_ext Fzero).
  - now rewrite !length_blit.
  - intros j Hj. rewrite !length_blit in Hj.
    destruct (Z.lt_ge_cases j MAX_ORDER) as [Hlo|Hhi].
    + rewrite !load_blit_inside
        by (rewrite ?length_blit, ?repeat_length; lia).
      reflexivity.
    + rewrite (load_blit_outside _ (blit buf 0 _))
        by (rewrite repeat_length; lia).
      reflexivity.
Qed.

Lemma add_histograms_counters (b a : list Z) :
  counters (add_histograms b a).
Proof.
  unfold counters, add_histograms. apply Forall_forall. intros x Hx.
  apply in_map_iff in Hx. destruct Hx as (p & <- & _).
  unfold wrap32. apply Z.mod_pos_bound. lia.
Qed.

Lemma add_histograms_zero (b : list Z) :
  counters b -> Z.of_nat (length b) = HISTOGRAM_LEN ->
  add_histograms b zero_histogram = b.
Proof.
  intros Hc Hl.
  assert (Hz : length zero_histogram = length b)
    by (unfold zero_histogram; rewrite repeat_length; lia).
  apply (load_ext 0).
  - unfold add_histograms. rewrite length_map, length_combine. lia.
  - intros j Hj. unfold add_histograms in Hj.
    rewrite length_map, length_combine in Hj.
    rewrite load_add_histograms by (auto; lia).
    rewrite load_zero_histogram, Z.add_0_r.
    apply wrap32_small, counters_load, Hc.
Qed.

(** X4. A title query that follows a title query answers with the
    sentinel and changes nothing: neither the album histogram, whose
    counters it adds zero to, nor any other part of the context. *)
Theorem title_query_idempotent rg :
  well_sized rg ->
  WAGetTitleGain (snd (WAGetTitleGain rg))
  = (GAIN_NOT_ENOUGH_SAMPLES, snd (WAGetTitleGain rg)).
Proof.
  intros (_ & _ & _ & _ & _ & _ & HA & HB).
  assert (Hz : Z.of_nat (length zero_histogram) = HISTOGRAM_LEN)
    by (unfold zero_histogram; rewrite repeat_length; lia).
  assert (Hs : Z.of_nat (length (add_histograms (B rg) (A rg)))
               = HISTOGRAM_LEN)
    by (unfold add_histograms; rewrite length_map, length_combine; lia).
  pose proof (merge_histograms_all _ _ HA HB) as E1.
  pose proof (merge_histograms_all _ _ Hz Hs) as E2.
  rewrite add_histograms_zero in E2
    by (auto using add_histograms_counters).
  unfold WAGetTitleGain; cbv zeta; fields.
  rewrite E1; fields. rewrite E2; fields.
  rewrite !zero_fill_twice.
  apply f_equal2; [exact analyzeResult_empty|reflexivity].
Qed.

(** *** WAAnalyzeSamples: the windows it completes *)

Lemma total_store_nat (a : list Z) :
  forall (n : nat) v, (n < length a)%nat ->
  total (store_nat a n v) = total a - nth n a 0 + v.
Proof.
  induction a as [|h t IH]; intros [|n] v H; cbn [length] in H;
    cbn [store_nat total nth]; try lia.
  rewrite IH by lia. lia.
Qed.

Lemma total_store (a : list Z) i v :
  0 <= i < Z.of_nat (length a) ->
  total (store a i v) = total a - load 0 a i + v.
Proof.
  intros H. unfold store, load. destruct (Z.ltb_spec i 0); [lia|].
  apply total_store_nat. lia.
Qed.

Lemma counters_store (a : list Z) i v :
  counters a -> 0 <= v < 2 ^ 32 -> counters (store a i v).
Proof.
  intros Hc Hv. unfold store. destruct (i <? 0); [exact Hc|].
  generalize (Z.to_nat i). intros n. revert n. unfold counters in *.
  induction Hc as [|h t Hh Ht IH]; intros [|n]; cbn [store_nat];
    constructor; auto; apply IH.
Qed.

Lemma load_le_total (a : list Z) i : counters a -> load 0 a i <= total a.
Proof.
  intros Hc. unfold load. destruct (i <? 0).
  - pose proof (range_total_nonneg a 0 (length a) Hc) as H.
    now rewrite range_total_all in H.
  - generalize (Z.to_nat i). intros n. revert n.
    induction Hc as [|h t Hh Ht IH]; intros [|n]; cbn [nth total];
      try lia.
    + pose proof (range_total_nonneg t 0 (length t) Ht) as H.
      rewrite range_total_all in H. lia.
    + specialize (IH n). lia.
Qed.

Lemma window_bucket_range rg : 0 <= window_bucket rg < HISTOGRAM_LEN.
Proof.
  unfold window_bucket; cbv zeta.
  generalize (sint32 (int_of_double
    (dlit STEPS_per_dB *! dlit 10
     *! log10 ((lsum rg +! rsum rg) /! d_of_int (totsamp rg) *! dlit 0.5
               +! dlit 1e-37)))).
  intros v. unfold HISTOGRAM_LEN.
  destruct (Z.ltb_spec v 0);
    match goal with |- context [?a >=? ?b] => destruct (Z.geb_spec a b) end;
    lia.
Qed.

(** The title histogram after a batch that fits the window: one more
    window in one bucket when the batch fills the window, the histogram
    of before otherwise. *)
Lemma process_batch_histogram rg xl ipl xr ipr c :
  0 <= totsamp rg -> 0 <= c ->
  totsamp rg + c <= sampleWindow rg -> sampleWindow rg < 2 ^ 32 ->
  exists ival,
    0 <= ival < HISTOGRAM_LEN /\
    A (process_batch rg xl ipl xr ipr c)
    = if totsamp rg + c =? sampleWindow rg
      then store (A rg) ival (wrap32 (load 0 (A rg) ival + 1))
      else A rg.
Proof.
  intros Ht Hc Hfit Hw. rewrite process_batch_unfold; cbv zeta.
  rewrite wrap32_small by lia.
  change (sampleWindow (filter_and_sum rg xl ipl xr ipr c))
    with (sampleWindow rg).
  set (full := set_totsamp (filter_and_sum rg xl ipl xr ipr c)
                 (totsamp rg + c)).
  exists (window_bucket full). split; [apply window_bucket_range|].
  destruct (_ =? _); reflexivity.
Qed.

Lemma analyze_loop_counts fuel l r :
  forall rg batchsamples cursamplepos,
  ready rg -> counters (A rg) ->
  0 <= batchsamples -> 0 <= cursamplepos ->
  batchsamples + cursamplepos < 2 ^ 32 ->
  total (A rg) + (totsamp rg + batchsamples) / sampleWindow rg < 2 ^ 32 ->
  (Z.to_nat batchsamples < fuel)%nat ->
  exists rg',
    analyze_loop fuel l r rg batchsamples cursamplepos = Some (true, rg')
    /\ totsamp rg' = (totsamp rg + batchsamples) mod sampleWindow rg
    /\ total (A rg')
       = total (A rg) + (totsamp rg + batchsamples) / sampleWindow rg
    /\ counters (A rg').
Proof.
  induction fuel as [|fuel IH]; intros rg b p Hr Hc Hb Hp Hbp Hroom Hf;
    [lia|].
  pose proof Hr as ((_ & _ & _ & _ & _ & _ & HlenA & _) & _ & Hw & Ht).
  unfold MAX_SAMPLES_PER_WINDOW in Hw.
  cbn [analyze_loop].
  destruct (Z.gtb_spec b 0) as [Hpos|Hzero].
  2:{ exists rg. replace b with 0 by lia. rewrite Z.add_0_r.
      rewrite Z.mod_small, Z.div_small by lia.
      split; [reflexivity|]. split; [reflexivity|]. split; [lia|exact Hc]. }
  unfold analyze_step; cbv zeta.
  destruct (batch_size_bounds rg b p Hr Hpos Hp) as (Hcb & Hfit & _).
  set (c := batch_size rg b p) in *.
  match goal with
  | |- context [if p <? MAX_ORDER then process_batch rg ?a1 ?a2 ?a3 ?a4 c
                else process_batch rg ?b1 ?b2 ?b3 ?b4 c] =>
      assert (E : exists xl ipl xr ipr,
                (if p <? MAX_ORDER then process_batch rg a1 a2 a3 a4 c
                 else process_batch rg b1 b2 b3 b4 c)
                = process_batch rg xl ipl xr ipr c)
        by (destruct (p <? MAX_ORDER); eauto)
  end.
  destruct E as (xl & ipl & xr & ipr & ->).
  set (rg1 := process_batch rg xl ipl xr ipr c).
  assert (Hr1 : ready rg1) by (apply process_batch_ready; auto; lia).
  pose proof (process_batch_totsamp rg xl ipl xr ipr c ltac:(lia) ltac:(lia)
                Hfit ltac:(lia)) as Ht1.
  destruct (process_batch_frame rg xl ipl xr ipr c)
    as (_ & _ & (_ & Hw1 & _) & _).
  destruct (process_batch_histogram rg xl ipl xr ipr c)
    as (ival & Hival & HA1); try lia.
  fold rg1 in Ht1, Hw1, HA1.
  assert (Hno : (totsamp rg1 >? sampleWindow rg1) = false).
  { destruct Hr1 as (_ & _ & _ & Ht1').
    destruct (Z.gtb_spec (totsamp rg1) (sampleWindow rg1)); [lia|easy]. }
  rewrite Hno, !wrap32_small by lia.
  pose proof (load_le_total (A rg) ival Hc) as Hle.
  pose proof (counters_load (A rg) ival Hc) as Hld.
  pose proof (range_total_nonneg (A rg) 0 (length (A rg)) Hc) as Htot.
  rewrite range_total_all in Htot.
  destruct (Z.eqb_spec (totsamp rg + c) (sampleWindow rg)) as [Hfull|Hopen].
  - assert (Hdiv : (totsamp rg + b) / sampleWindow rg
                   = 1 + (b - c) / sampleWindow rg).
    { replace (totsamp rg + b) with (1 * sampleWindow rg + (b - c)) by lia.
      rewrite Z.add_comm, Z.div_add by lia. lia. }
    assert (Hmod : (totsamp rg + b) mod sampleWindow rg
                   = (b - c) mod sampleWindow rg).
    { replace (totsamp rg + b) with ((b - c) + 1 * sampleWindow rg) by lia.
      apply Z.mod_add. lia. }
    assert (Hq : 0 <= (b - c) / sampleWindow rg)
      by (apply Z.div_pos; lia).
    assert (Hinc : wrap32 (load 0 (A rg) ival + 1) = load 0 (A rg) ival + 1)
      by (apply wrap32_small; lia).
    assert (Htot1 : total (A rg1) = total (A rg) + 1).
    { rewrite HA1, total_store, Hinc by (unfold HISTOGRAM_LEN in *; lia).
      lia. }
    assert (Hc1 : counters (A rg1)).
    { rewrite HA1. apply counters_store; [exact Hc|]. rewrite Hinc. lia. }
    destruct (IH rg1 (b - c) (p + c)) as (rg' & E' & Ht' & HA' & Hc');
      try assumption; try lia.
    + rewrite Ht1, Hw1, Htot1, Z.add_0_l. lia.
    + exists rg'. split; [exact E'|].
      rewrite Ht', HA', Ht1, Hw1, Htot1, Z.add_0_l, Hdiv, Hmod.
      split; [reflexivity|]. split; [lia|exact Hc'].
  - destruct (IH rg1 (b - c) (p + c)) as (rg' & E' & Ht' & HA' & Hc');
      try assumption; try lia.
    + now rewrite HA1.
    + rewrite Ht1, Hw1, HA1.
      replace (totsamp rg + c + (b - c)) with (totsamp rg + b) by lia.
      exact Hroom.
    + exists rg'. split; [exact E'|].
      rewrite Ht', HA', Ht1, Hw1, HA1.
      replace (totsamp rg + c + (b - c)) with (totsamp rg + b) by lia.
      split; [reflexivity|]. split; [reflexivity|exact Hc'].
Qed.

(** The windows a call completes. *)
Lemma feed_counts fuel rg l r num_samples ch :
  ready rg -> counters (A rg) ->
  ch = 1 \/ ch = 2 -> 0 <= num_samples < 2 ^ 32 ->
  total (A rg) + (totsamp rg + num_samples) / sampleWindow rg < 2 ^ 32 ->
  (Z.to_nat num_samples < fuel)%nat ->
  exists rg',
    WAAnalyzeSamples fuel rg l r num_samples ch = Some (GAIN_ANALYSIS_OK, rg')
    /\ totsamp rg' = (totsamp rg + num_samples) mod sampleWindow rg
    /\ total (A rg')
       = total (A rg) + (totsamp rg + num_samples) / sampleWindow rg
    /\ counters (A rg').
Proof.
  intros Hr Hc Hch Hn Hroom Hf.
  pose proof Hr as (_ & _ & Hw & Ht). unfold MAX_SAMPLES_PER_WINDOW in Hw.
  destruct (feed_cases fuel rg l r num_samples ch)
    as [(H0 & ->) | [(_ & H1 & H2 & _) | (_ & _ & ->)]]; [|lia|].
  - exists rg. subst num_samples. rewrite Z.add_0_r.
    rewrite Z.mod_small, Z.div_small by lia.
    split; [reflexivity|]. split; [reflexivity|]. split; [lia|exact Hc].
  - cbv zeta. set (r' := if ch =? 1 then l else r).
    destruct (analyze_loop_counts fuel l r' (stage_prefix rg l r' num_samples)
                num_samples 0) as (rg' & -> & Ht' & HA' & Hc');
      try (unfold stage_prefix; cbv zeta; fields; assumption); try lia.
    + apply stage_prefix_ready, Hr.
    + exists (save_history rg' l r' num_samples).
      split; [reflexivity|].
      unfold stage_prefix in Ht', HA'; cbv zeta in Ht', HA'.
      unfold save_history; fields. fields_in_all. auto.
Qed.

(** X5. A call with [num_samples] samples on one or two channels
    succeeds on a ready context, completes one window for every
    [sampleWindow] samples counted from the start of the open window,
    whatever the samples are, and leaves the remainder in the open
    window: the counters of the title histogram add up to what they
    added up to plus [(totsamp + num_samples) / sampleWindow], and
    [totsamp] is [(totsamp + num_samples) mod sampleWindow]. *)
Theorem windows_counted fuel rg l r num_samples ch :
  ready rg -> counters (A rg) ->
  ch = 1 \/ ch = 2 -> 0 <= num_samples < 2 ^ 32 ->
  total (A rg) + (totsamp rg + num_samples) / sampleWindow rg < 2 ^ 32 ->
  (Z.to_nat num_samples < fuel)%nat ->
  exists rg',
    WAAnalyzeSamples fuel rg l r num_samples ch = Some (GAIN_ANALYSIS_OK, rg')
    /\ totsamp rg' = (totsamp rg + num_samples) mod sampleWindow rg
    /\ total (A rg')
       = total (A rg) + (totsamp rg + num_samples) / sampleWindow rg
    /\ counters (A rg').
Proof.
  intros Hr Hc Hch Hn Hroom Hf.
  destruct (feed_counts fuel rg l r num_samples ch Hr Hc Hch Hn Hroom Hf)
    as (rg' & E & Ht & HA & Hc').
  exists rg'. auto.
Qed.

(** *** filterYule, filterButter: the recurrences they solve *)

Lemma filterYule_step input ip output op n kernel :
  filterYule input ip output op (S n) kernel
  = filterYule input (ip + 1)
      (store output op (yule_sample input ip output op kernel)) (op + 1) n
      kernel.
Proof. reflexivity. Qed.

Lemma filterButter_step input ip output op n kernel :
  filterButter input ip output op (S n) kernel
  = filterButter input (ip + 1)
      (store output op (butter_sample input ip output op kernel)) (op + 1) n
      kernel.
Proof. reflexivity. Qed.

(** A sample depends on the output array through the [MAX_ORDER]
    entries before the pointer only. *)
Lemma yule_sample_ext input ip output1 output2 op kernel :
  (forall k, 1 <= k <= YULE_ORDER ->
     load Fzero output1 (op - k) = load Fzero output2 (op - k)) ->
  yule_sample input ip output1 op kernel
  = yule_sample input ip output2 op kernel.
Proof.
  intros H. unfold yule_sample; cbv zeta.
  rewrite !H by (unfold YULE_ORDER; lia). reflexivity.
Qed.

Lemma butter_sample_ext input ip output1 output2 op kernel :
  (forall k, 1 <= k <= BUTTER_ORDER ->
     load Fzero output1 (op - k) = load Fzero output2 (op - k)) ->
  butter_sample input ip output1 op kernel
  = butter_sample input ip output2 op kernel.
Proof.
  intros H. unfold butter_sample; cbv zeta.
  rewrite !H by (unfold BUTTER_ORDER; lia). reflexivity.
Qed.

(** X6. [filterYule] solves the recurrence of the order-10 filter: in
    the array it leaves, each of the [nSamples] entries from [output] on
    is [1e-10] plus the weighted sum of the input sample and the ten
    input samples before it, minus the weighted sum of the ten entries
    of the same array before it; the array keeps its length and every
    other entry. *)
Theorem filterYule_recurrence input ip output op (nSamples : nat) kernel :
  0 <= op -> op + Z.of_nat nSamples <= Z.of_nat (length output) ->
  let filtered := filterYule input ip output op nSamples kernel in
  length filtered = length output /\
  (forall j, 0 <= j < Z.of_nat nSamples ->
     load Fzero filtered (op + j)
     = yule_sample input (ip + j) filtered (op + j) kernel) /\
  (forall i, i < op \/ op + Z.of_nat nSamples <= i ->
     load Fzero filtered i = load Fzero output i).
Proof.
  intros Hop Hlen filtered.
  split; [apply length_filterYule|].
  split; [|intros i Hi; now apply filterYule_outside].
  subst filtered. revert ip output op Hop Hlen.
  induction nSamples as [|n IH]; intros ip output op Hop Hlen j Hj; [lia|].
  rewrite filterYule_step.
  set (v := yule_sample input ip output op kernel).
  destruct (Z.eq_dec j 0) as [->|Hnz].
  - rewrite !Z.add_0_r.
    rewrite filterYule_outside by lia.
    rewrite load_store_eq by lia.
    apply yule_sample_ext. intros k Hk.
    rewrite filterYule_outside by lia.
    rewrite load_store_neq by lia. reflexivity.
  - specialize (IH (ip + 1) (store output op v) (op + 1)).
    rewrite length_store in IH.
    specialize (IH ltac:(lia) ltac:(lia) (j - 1) ltac:(lia)).
    replace (op + 1 + (j - 1)) with (op + j) in IH by lia.
    replace (ip + 1 + (j - 1)) with (ip + j) in IH by lia.
    exact IH.
Qed.

(** X7. [filterButter] solves the recurrence of the order-2 filter: in
    the array it leaves, each of the [nSamples] entries from [output] on
    is the weighted sum of the input sample and the two input samples
    before it, minus the weighted sum of the two entries of the same
    array before it; the array keeps its length and every other entry. *)
Theorem filterButter_recurrence input ip output op (nSamples : nat) kernel :
  0 <= op -> op + Z.of_nat nSamples <= Z.of_nat (length output) ->
  let filtered := filterButter input ip output op nSamples kernel in
  length filtered = length output /\
  (forall j, 0 <= j < Z.of_nat nSamples ->
     load Fzero filtered (op + j)
     = butter_sample input (ip + j) filtered (op + j) kernel) /\
  (forall i, i < op \/ op + Z.of_nat nSamples <= i ->
     load Fzero filtered i = load Fzero output i).
Proof.
  intros Hop Hlen filtered.
  split; [apply length_filterButter|].
  split; [|intros i Hi; now apply filterButter_outside].
  subst filtered. revert ip output op Hop Hlen.
  induction nSamples as [|n IH]; intros ip output op Hop Hlen j Hj; [lia|].
  rewrite filterButter_step.
  set (v := butter_sample input ip output op kernel).
  destruct (Z.eq_dec j 0) as [->|Hnz].
  - rewrite !Z.add_0_r.
    rewrite filterButter_outside by lia.
    rewrite load_store_eq by lia.
    apply butter_sample_ext. intros k Hk.
    rewrite filterButter_outside by lia.
    rewrite load_store_neq by lia. reflexivity.
  - specialize (IH (ip + 1) (store output op v) (op + 1)).
    rewrite length_store in IH.
    specialize (IH ltac:(lia) ltac:(lia) (j - 1) ltac:(lia)).
    replace (op + 1 + (j - 1)) with (op + j) in IH by lia.
    replace (ip + 1 + (j - 1)) with (ip + j) in IH by lia.
    exact IH.
Qed.

(** X8. Both filters can be resumed: filtering [n1 + n2] samples is
    filtering [n1] samples and then [n2] more with both pointers moved on
    by [n1], and what the first part wrote is not touched again. *)
Theorem filters_resume input ip output op (n1 n2 : nat) kernel :
  (filterYule input ip output op (n1 + n2) kernel
   = filterYule input (ip + Z.of_nat n1)
       (filterYule input ip output op n1 kernel) (op + Z.of_nat n1) n2
       kernel
   /\ forall j, j < op + Z.of_nat n1 ->
        load Fzero (filterYule input ip output op (n1 + n2) kernel) j
        = load Fzero (filterYule input ip output op n1 kernel) j)
  /\
  (filterButter input ip output op (n1 + n2) kernel
   = filterButter input (ip + Z.of_nat n1)
       (filterButter input ip output op n1 kernel) (op + Z.of_nat n1) n2
       kernel
   /\ forall j, j < op + Z.of_nat n1 ->
        load Fzero (filterButter input ip output op (n1 + n2) kernel) j
        = load Fzero (filterButter input ip output op n1 kernel) j).
Proof.
  split; split.
  - apply filterYule_app.
  - intros j Hj. rewrite filterYule_app. apply filterYule_outside. lia.
  - apply filterButter_app.
  - intros j Hj. rewrite filterButter_app. apply filterButter_outside. lia.
Qed.

(** *** WAAnalyzeSamples: where a batch reads and writes *)

(** X9. In every iteration of the loop of [WAAnalyzeSamples] on a ready
    context the batch has at least one sample and no more than are left,
    it fits the open window, and the filters stay inside their arrays:
    the source, with the [MAX_ORDER] entries before it, lies inside the
    raw pre-buffer up to its staged part while [cursamplepos] is below
    [MAX_ORDER] and inside the samples of the call afterwards; the
    entries written, with the [MAX_ORDER] entries before them, lie inside
    the step and output buffers; and the [MAX_ORDER] entries a full
    window moves to the front lie inside them too. *)
Theorem batch_in_bounds rg batchsamples cursamplepos :
  ready rg -> 0 < batchsamples -> 0 <= cursamplepos ->
  let c := batch_size rg batchsamples cursamplepos in
  let num_samples := cursamplepos + batchsamples in
  (1 <= c <= batchsamples /\ totsamp rg + c <= sampleWindow rg) /\
  (if cursamplepos <? MAX_ORDER
   then 0 <= linpre rg + cursamplepos - MAX_ORDER /\
        linpre rg + cursamplepos + c
        <= MAX_ORDER + Z.min num_samples MAX_ORDER
        <= Z.of_nat (length (linprebuf rg)) /\
        0 <= rinpre rg + cursamplepos - MAX_ORDER /\
        rinpre rg + cursamplepos + c
        <= MAX_ORDER + Z.min num_samples MAX_ORDER
        <= Z.of_nat (length (rinprebuf rg))
   else 0 <= cursamplepos - MAX_ORDER /\ cursamplepos + c <= num_samples) /\
  (0 <= lstep rg + totsamp rg - MAX_ORDER /\
   lstep rg + totsamp rg + c <= Z.of_nat (length (lstepbuf rg)) /\
   0 <= rstep rg + totsamp rg - MAX_ORDER /\
   rstep rg + totsamp rg + c <= Z.of_nat (length (rstepbuf rg))) /\
  (0 <= lout rg + totsamp rg - MAX_ORDER /\
   lout rg + totsamp rg + c <= Z.of_nat (length (loutbuf rg)) /\
   0 <= rout rg + totsamp rg - MAX_ORDER /\
   rout rg + totsamp rg + c <= Z.of_nat (length (routbuf rg))) /\
  (sampleWindow rg + MAX_ORDER <= Z.of_nat (length (lstepbuf rg)) /\
   sampleWindow rg + MAX_ORDER <= Z.of_nat (length (loutbuf rg)) /\
   sampleWindow rg + MAX_ORDER <= Z.of_nat (length (rstepbuf rg)) /\
   sampleWindow rg + MAX_ORDER <= Z.of_nat (length (routbuf rg))).
Proof.
  intros Hr Hb Hp c num_samples.
  destruct (batch_size_bounds rg batchsamples cursamplepos Hr Hb Hp)
    as (Hc & Hfit & Hstage).
  fold c in Hc, Hfit, Hstage.
  destruct Hr as ((H1 & H2 & H3 & H4 & H5 & H6 & _)
                  & (-> & -> & -> & -> & -> & ->) & Hw & Ht).
  unfold MAX_SAMPLES_PER_WINDOW in *. rewrite MAX_ORDER_value in *.
  subst num_samples.
  split; [lia|]. split; [|lia].
  destruct (Z.ltb_spec cursamplepos 10); lia.
Qed.

(** *** WAAnalyzeSamples: the samples it remembers *)

(** X10. After a call that reads samples, the history halves of the two
    raw pre-buffers hold the last [MAX_ORDER] samples of the stream made
    of the history of before and the samples of the call (on one channel
    the right stream is fed the left samples). *)
Theorem history_is_stream_tail rg l r ch :
  ready rg -> l <> [] -> Z.of_nat (length l) < 2 ^ 32 -> ch = 1 \/ ch = 2 ->
  exists rg',
    feed rg l r ch = Some (GAIN_ANALYSIS_OK, rg') /\
    history (linprebuf rg')
    = slice Fzero (history (linprebuf rg) ++ l) (Z.of_nat (length l))
        (Z.to_nat MAX_ORDER) /\
    history (rinprebuf rg')
    = slice Fzero (history (rinprebuf rg) ++ right_of ch l r)
        (Z.of_nat (length l)) (Z.to_nat MAX_ORDER).
Proof.
  intros Hr Hl Hlen Hch.
  destruct (view_feed filter_state filter_state_control filter_state_batch
              filter_state_set_inpre filter_state_split rg l r ch Hr Hl Hlen
              Hch) as (rg' & E & _ & El & Er).
  exists rg'. split; [exact E|]. rewrite El, Er.
  unfold history at 1 3.
  split; apply slice_ext; intros k Hk;
    rewrite Z2Nat.id in Hk by (rewrite MAX_ORDER_value; lia);
    rewrite Z.add_0_l.
  - now apply fed_history_left.
  - now apply fed_history_right.
Qed.

(** *** Titles are analysed independently *)

(** Started on arrays with the same [MAX_ORDER] entries before the
    pointer, a filter writes the same entries. *)
Lemma filterYule_agree input ip (nSamples : nat) kernel :
  forall output1 output2 op,
  length output1 = length output2 ->
  (forall k, 1 <= k <= YULE_ORDER ->
     load Fzero output1 (op - k) = load Fzero output2 (op - k)) ->
  forall j, op - YULE_ORDER <= j < op + Z.of_nat nSamples ->
    load Fzero (filterYule input ip output1 op nSamples kernel) j
    = load Fzero (filterYule input ip output2 op nSamples kernel) j.
Proof.
  unfold YULE_ORDER. revert ip.
  induction nSamples as [|n IH]; intros ip output1 output2 op Hlen H j Hj.
  - cbn [filterYule]. replace j with (op - (op - j)) by lia. apply H. lia.
  - rewrite !filterYule_step.
    rewrite (yule_sample_ext input ip output1 output2) by exact H.
    set (v := yule_sample input ip output2 op kernel).
    destruct (Z.eq_dec j (op - 10)) as [->|Hne].
    + rewrite !filterYule_outside by lia.
      rewrite !load_store_neq by lia. apply H; lia.
    + apply IH; [now rewrite !length_store| |lia].
      intros k Hk. destruct (Z.eq_dec k 1) as [->|Hk1].
      * replace (op + 1 - 1) with op by lia.
        destruct (Z_lt_ge_dec op 0) as [Hneg|Hpos];
          [|destruct (Z_lt_ge_dec op (Z.of_nat (length output1)))
              as [Hin|Hout]].
        -- rewrite !store_outside by lia. rewrite !load_outside by lia.
           reflexivity.
        -- rewrite !load_store_eq by lia. reflexivity.
        -- rewrite !store_outside by lia. rewrite !load_outside by lia.
           reflexivity.
      * rewrite !load_store_neq by lia.
        replace (op + 1 - k) with (op - (k - 1)) by lia. apply H. lia.
Qed.

Lemma filterButter_agree input ip (nSamples : nat) kernel :
  forall output1 output2 op,
  length output1 = length output2 ->
  (forall k, 1 <= k <= BUTTER_ORDER ->
     load Fzero output1 (op - k) = load Fzero output2 (op - k)) ->
  forall j, op - BUTTER_ORDER <= j < op + Z.of_nat nSamples ->
    load Fzero (filterButter input ip output1 op nSamples kernel) j
    = load Fzero (filterButter input ip output2 op nSamples kernel) j.
Proof.
  unfold BUTTER_ORDER. revert ip.
  induction nSamples as [|n IH]; intros ip output1 output2 op Hlen H j Hj.
  - cbn [filterButter]. replace j with (op - (op - j)) by lia. apply H. lia.
  - rewrite !filterButter_step.
    rewrite (butter_sample_ext input ip output1 output2) by exact H.
    set (v := butter_sample input ip output2 op kernel).
    destruct (Z.eq_dec j (op - 2)) as [->|Hne].
    + rewrite !filterButter_outside by lia.
      rewrite !load_store_neq by lia. apply H; lia.
    + apply IH; [now rewrite !length_store| |lia].
      intros k Hk. destruct (Z.eq_dec k 1) as [->|Hk1].
      * replace (op + 1 - 1) with op by lia.
        destruct (Z_lt_ge_dec op 0) as [Hneg|Hpos];
          [|destruct (Z_lt_ge_dec op (Z.of_nat (length output1)))
              as [Hin|Hout]].
        -- rewrite !store_outside by lia. rewrite !load_outside by lia.
           reflexivity.
        -- rewrite !load_store_eq by lia. reflexivity.
        -- rewrite !store_outside by lia. rewrite !load_outside by lia.
           reflexivity.
      * rewrite !load_store_neq by lia.
        replace (op + 1 - k) with (op - (k - 1)) by lia. apply H. lia.
Qed.

(** One channel of a batch on two contexts whose buffers hold the same
    entries up to the open window. *)
Lemma channel_agree x ip (s1 s2 o1 o2 : list Float_t) p (n : nat) ky kb sum :
  MAX_ORDER <= p ->
  agree_upto p s1 s2 -> agree_upto p o1 o2 ->
  let s1' := filterYule x ip s1 p n ky in
  let s2' := filterYule x ip s2 p n ky in
  let o1' := filterButter s1' p o1 p n kb in
  let o2' := filterButter s2' p o2 p n kb in
  agree_upto (p + Z.of_nat n) s1' s2' /\
  agree_upto (p + Z.of_nat n) o1' o2' /\
  sum_squares o1' p (Z.of_nat n) sum = sum_squares o2' p (Z.of_nat n) sum.
Proof.
  rewrite MAX_ORDER_value.
  intros Hp (Hls & Hs) (Hlo & Ho) s1' s2' o1' o2'.
  assert (As : agree_upto (p + Z.of_nat n) s1' s2').
  { split; [unfold s1', s2'; now rewrite !length_filterYule|].
    intros j Hj. unfold s1', s2'.
    destruct (Z_lt_ge_dec j (p - 10)).
    - rewrite !filterYule_outside by lia. apply Hs; lia.
    - apply filterYule_agree; auto; unfold YULE_ORDER; [|lia].
      intros k Hk. apply Hs; lia. }
  assert (Ao : agree_upto (p + Z.of_nat n) o1' o2').
  { split; [unfold o1', o2'; now rewrite !length_filterButter|].
    intros j Hj. unfold o1', o2'.
    rewrite (filterButter_ext s1' p s2' p)
      by (intros d Hd; apply (proj2 As); unfold BUTTER_ORDER in Hd; lia).
    destruct (Z_lt_ge_dec j (p - 2)).
    - rewrite !filterButter_outside by lia. apply Ho; lia.
    - apply filterButter_agree; auto; unfold BUTTER_ORDER; [|lia].
      intros k Hk. apply Ho; lia. }
  split; [exact As|]. split; [exact Ao|].
  apply sum_squares_ext; [lia|]. intros d Hd. apply (proj2 Ao). lia.
Qed.

Lemma memmove_agree (x y : list Float_t) v :
  0 <= v -> agree_upto (v + MAX_ORDER) x y ->
  agree_upto MAX_ORDER (memmove Fzero x 0 x v MAX_ORDER)
    (memmove Fzero y 0 y v MAX_ORDER).
Proof.
  rewrite MAX_ORDER_value. intros Hv (Hl & Ha).
  split; [now rewrite !length_memmove|].
  intros j Hj.
  destruct (Z_lt_ge_dec j 0) as [Hneg|Hpos];
    [|destruct (Z_lt_ge_dec j (Z.of_nat (length x))) as [Hin|Hout]].
  - rewrite !load_outside by lia. reflexivity.
  - rewrite !load_memmove_inside by lia. apply Ha. lia.
  - rewrite !load_outside by (rewrite length_memmove; lia). reflexivity.
Qed.

(** The filters and the sums of a batch, on two contexts in the same
    title state. *)
Lemma filter_and_sum_same_title a b xl ipl xr ipr c :
  same_title_core a b ->
  lstep a = MAX_ORDER -> lout a = MAX_ORDER ->
  rstep a = MAX_ORDER -> rout a = MAX_ORDER ->
  0 <= totsamp a -> 0 <= c ->
  let sa := filter_and_sum a xl ipl xr ipr c in
  let sb := filter_and_sum b xl ipl xr ipr c in
  lsum sa = lsum sb /\ rsum sa = rsum sb /\
  agree_upto (MAX_ORDER + totsamp a + c) (lstepbuf sa) (lstepbuf sb) /\
  agree_upto (MAX_ORDER + totsamp a + c) (loutbuf sa) (loutbuf sb) /\
  agree_upto (MAX_ORDER + totsamp a + c) (rstepbuf sa) (rstepbuf sb) /\
  agree_upto (MAX_ORDER + totsamp a + c) (routbuf sa) (routbuf sb).
Proof.
  intros ((Hfi & Hsw & _ & Hls & Hlo & _ & Hrs & Hro & _) & Ht & Hsl & Hsr
          & _ & Als & Alo & Ars & Aro) El1 El2 Er1 Er2 Ht0 Hc sa sb.
  subst sa sb. unfold filter_and_sum; cbv zeta; fields.
  rewrite Hfi, Hls, Hlo, Hrs, Hro, <- Ht, <- Hsl, <- Hsr.
  rewrite El1, El2, Er1, Er2.
  destruct (channel_agree xl ipl (lstepbuf a) (lstepbuf b) (loutbuf a)
              (loutbuf b) (MAX_ORDER + totsamp a) (Z.to_nat c)
              (ABYule (freqindex a)) (ABButter (freqindex a)) (lsum a))
    as (L1 & L2 & L3); auto; try lia.
  destruct (channel_agree xr ipr (rstepbuf a) (rstepbuf b) (routbuf a)
              (routbuf b) (MAX_ORDER + totsamp a) (Z.to_nat c)
              (ABYule (freqindex a)) (ABButter (freqindex a)) (rsum a))
    as (R1 & R2 & R3); auto; try lia.
  rewrite Z2Nat.id in L1, L2, L3, R1, R2, R3 by lia.
  tauto.
Qed.

Lemma process_batch_same_title a b xl ipl xr ipr c :
  same_title_core a b ->
  lstep a = MAX_ORDER -> lout a = MAX_ORDER ->
  rstep a = MAX_ORDER -> rout a = MAX_ORDER ->
  0 <= totsamp a -> 0 <= c ->
  totsamp a + c <= sampleWindow a -> sampleWindow a < 2 ^ 32 ->
  same_title_core (process_batch a xl ipl xr ipr c)
    (process_batch b xl ipl xr ipr c).
Proof.
  intros Hs El1 El2 Er1 Er2 Ht0 Hc Hfit Hw.
  destruct (filter_and_sum_same_title a b xl ipl xr ipr c Hs El1 El2 Er1 Er2
              Ht0 Hc) as (Sl & Sr & Als & Alo & Ars & Aro).
  destruct (filter_and_sum_frame a xl ipl xr ipr c)
    as (_ & _ & Hca & Hta & HAa & _).
  destruct (filter_and_sum_frame b xl ipl xr ipr c)
    as (_ & _ & Hcb & Htb & HAb & _).
  destruct Hs as (Hcfg & Ht & _ & _ & HA & _).
  rewrite !process_batch_unfold; cbv zeta.
  set (sa := filter_and_sum a xl ipl xr ipr c) in *.
  set (sb := filter_and_sum b xl ipl xr ipr c) in *.
  assert (Hcs : same_configuration sa sb).
  { unfold same_configuration in *.
    destruct Hca as (-> & -> & -> & -> & -> & -> & -> & -> & ->).
    destruct Hcb as (-> & -> & -> & -> & -> & -> & -> & -> & ->).
    exact Hcfg. }
  assert (Hsws : sampleWindow sb = sampleWindow sa) by apply Hcs.
  rewrite <- Ht, Hsws, wrap32_small by lia.
  assert (Hswa : sampleWindow sa = sampleWindow a) by apply Hca.
  destruct (Z.eqb_spec (totsamp a + c) (sampleWindow sa)) as [Hfull|Hopen].
  - assert (Hb : window_bucket (set_totsamp sa (totsamp a + c))
                 = window_bucket (set_totsamp sb (totsamp a + c))).
    { unfold window_bucket; cbv zeta; fields. now rewrite Sl, Sr. }
    unfold same_title_core, close_window; cbv zeta; fields.
    rewrite Hb, HAa, HAb, HA.
    split; [exact Hcs|]. repeat (split; [reflexivity|]).
    rewrite Z.add_0_r.
    split; [|split; [|split]]; apply memmove_agree; try lia;
      rewrite Z.add_comm, Z.add_assoc; assumption.
  - unfold same_title_core; fields. rewrite HAa, HAb, HA, Z.add_assoc.
    split; [exact Hcs|]. tauto.
Qed.

Lemma batch_size_same_title a b batchsamples cursamplepos :
  same_title_core a b ->
  batch_size b batchsamples cursamplepos
  = batch_size a batchsamples cursamplepos.
Proof.
  intros ((_ & Hsw & _) & Ht & _). unfold batch_size.
  now rewrite Hsw, Ht.
Qed.

(** The loop of [WAAnalyzeSamples] on two contexts in the same title
    state whose raw pre-buffers hold the same history and staged
    samples. *)
Lemma analyze_loop_same_title fuel l r :
  forall a b batchsamples cursamplepos res,
  ready a -> same_title_core a b ->
  0 <= batchsamples -> 0 <= cursamplepos ->
  batchsamples + cursamplepos < 2 ^ 32 ->
  (forall j, j < MAX_ORDER + Z.min (batchsamples + cursamplepos) MAX_ORDER ->
     load Fzero (linprebuf a) j = load Fzero (linprebuf b) j) ->
  (forall j, j < MAX_ORDER + Z.min (batchsamples + cursamplepos) MAX_ORDER ->
     load Fzero (rinprebuf a) j = load Fzero (rinprebuf b) j) ->
  analyze_loop fuel l r a batchsamples cursamplepos = Some res ->
  exists b',
    analyze_loop fuel l r b batchsamples cursamplepos = Some (fst res, b')
    /\ same_title_core (snd res) b'.
Proof.
  induction fuel as [|fuel IH];
    intros a b bs p res Hr Hs Hbs Hp Hlt Hl Hrr H; [discriminate|].
  cbn [analyze_loop] in *.
  destruct (Z.gtb_spec bs 0) as [Hpos|Hzero].
  2:{ injection H as <-. exists b. split; [reflexivity|exact Hs]. }
  unfold analyze_step in *; cbv zeta in *.
  rewrite (batch_size_same_title a b bs p Hs).
  destruct (batch_size_bounds a bs p Hr Hpos Hp) as (Hc & Hfit & Hstage).
  rewrite MAX_ORDER_value in Hstage, Hl, Hrr.
  set (c := batch_size a bs p) in *.
  pose proof Hr as (_ & (Hlp & El1 & El2 & Hrp & Er1 & Er2) & Hw & Ht).
  unfold MAX_SAMPLES_PER_WINDOW in Hw.
  pose proof Hs as ((_ & _ & Hlpb & _ & _ & Hrpb & _) & _).
  set (a1 := if p <? MAX_ORDER
             then process_batch a (linprebuf a) (linpre a + p)
                    (rinprebuf a) (rinpre a + p) c
             else process_batch a l p r p c) in *.
  set (b1 := if p <? MAX_ORDER
             then process_batch b (linprebuf b) (linpre b + p)
                    (rinprebuf b) (rinpre b + p) c
             else process_batch b l p r p c).
  assert (Hs1 : same_title_core a1 b1 /\ ready a1 /\
                linprebuf a1 = linprebuf a /\ rinprebuf a1 = rinprebuf a /\
                linprebuf b1 = linprebuf b /\ rinprebuf b1 = rinprebuf b).
  { unfold a1, b1. rewrite MAX_ORDER_value.
    destruct (Z.ltb_spec p 10).
    - rewrite Hlpb, Hrpb.
      rewrite (process_batch_ext b (linprebuf b) (linpre a + p)
                 (rinprebuf b) (rinpre a + p) (linprebuf a) (linpre a + p)
                 (rinprebuf a) (rinpre a + p));
        [ | lia
          | intros d Hd; symmetry; apply Hl; rewrite MAX_ORDER_value in *; lia
          | intros d Hd; symmetry; apply Hrr; rewrite MAX_ORDER_value in *;
            lia ].
      split; [apply process_batch_same_title; auto; lia|].
      split; [apply process_batch_ready; auto; lia|].
      destruct (process_batch_frame a (linprebuf a) (linpre a + p)
                  (rinprebuf a) (rinpre a + p) c) as (-> & -> & _).
      destruct (process_batch_frame b (linprebuf a) (linpre a + p)
                  (rinprebuf a) (rinpre a + p) c) as (-> & -> & _).
      tauto.
    - split; [apply process_batch_same_title; auto; lia|].
      split; [apply process_batch_ready; auto; lia|].
      destruct (process_batch_frame a l p r p c) as (-> & -> & _).
      destruct (process_batch_frame b l p r p c) as (-> & -> & _).
      tauto. }
  destruct Hs1 as (Hs1 & Hr1 & Ela & Era & Elb & Erb).
  pose proof Hs1 as ((_ & Hsw1 & _) & Ht1 & _).
  rewrite <- Ht1, Hsw1.
  destruct (totsamp a1 >? sampleWindow a1).
  - injection H as <-. exists b1. split; [reflexivity|exact Hs1].
  - rewrite !wrap32_small in * by lia.
    apply (IH a1 b1 (bs - c) (p + c) res); auto; try lia.
    + intros j Hj. rewrite Ela, Elb. apply Hl. rewrite MAX_ORDER_value in *.
      lia.
    + intros j Hj. rewrite Era, Erb. apply Hrr. rewrite MAX_ORDER_value in *.
      lia.
Qed.

Lemma history_agree (x y : list Float_t) :
  agree_upto MAX_ORDER x y -> history x = history y.
Proof.
  intros (_ & H). unfold history. apply slice_ext. intros k Hk.
  rewrite Z2Nat.id in Hk by (rewrite MAX_ORDER_value; lia).
  apply H. lia.
Qed.

Lemma staged_agree (x y l : list Float_t) n :
  Z.of_nat (length x) = MAX_ORDER * 2 -> 0 <= n ->
  agree_upto MAX_ORDER x y ->
  let m := if n <? MAX_ORDER then n else MAX_ORDER in
  forall j, j < MAX_ORDER + Z.min n MAX_ORDER ->
    load Fzero (memmove Fzero x MAX_ORDER l 0 m) j
    = load Fzero (memmove Fzero y MAX_ORDER l 0 m) j.
Proof.
  intros Hx Hn Ha m j Hj. pose proof (history_agree x y Ha) as Hh.
  destruct Ha as (Hl & _).
  destruct (Z_lt_ge_dec j 0) as [Hneg|Hpos].
  - rewrite !load_outside by lia. reflexivity.
  - unfold m. rewrite !staged_load by (auto; lia). now rewrite Hh.
Qed.

Lemma saved_agree (x y l : list Float_t) n :
  Z.of_nat (length x) = MAX_ORDER * 2 -> 0 < n ->
  agree_upto MAX_ORDER x y ->
  let m := if n <? MAX_ORDER then n else MAX_ORDER in
  agree_upto MAX_ORDER
    (saved_history (memmove Fzero x MAX_ORDER l 0 m) l n)
    (saved_history (memmove Fzero y MAX_ORDER l 0 m) l n).
Proof.
  intros Hx Hn Ha m. pose proof (history_agree x y Ha) as Hh.
  destruct Ha as (Hl & _).
  split; [now rewrite !length_saved_history, !length_memmove|].
  intros j Hj.
  destruct (Z_lt_ge_dec j 0) as [Hneg|Hpos].
  - rewrite !load_outside by lia. reflexivity.
  - unfold m. rewrite !saved_history_load by (auto; lia). now rewrite Hh.
Qed.

(** A call on two contexts in the same title state. *)
Lemma feed_same_title fuel a b l r n ch st a' :
  ready a -> same_title_state a b -> 0 <= n < 2 ^ 32 ->
  WAAnalyzeSamples fuel a l r n ch = Some (st, a') ->
  exists b',
    WAAnalyzeSamples fuel b l r n ch = Some (st, b')
    /\ same_title_state a' b'.
Proof.
  intros Hr (Hs & Al & Ar) Hn H.
  pose proof Hr as ((Hll & Hlr & _) & _).
  destruct (feed_cases fuel a l r n ch)
    as [(H0 & Ea) | [(Hnz & H1 & H2 & Ea) | (Hnz & Hch & Ea)]];
    destruct (feed_cases fuel b l r n ch)
      as [(H0' & Eb) | [(Hnz' & H1' & H2' & Eb) | (Hnz' & Hch' & Eb)]];
    try lia; rewrite Ea in H; rewrite Eb; clear Ea Eb.
  - injection H as <- <-. exists b. split; [reflexivity|].
    split; [exact Hs|]. split; assumption.
  - injection H as <- <-. exists b. split; [reflexivity|].
    split; [exact Hs|]. split; assumption.
  - cbv zeta in *. set (r' := if ch =? 1 then l else r) in *.
    set (sa := stage_prefix a l r' n) in *.
    set (sb := stage_prefix b l r' n).
    assert (Hss : same_title_core sa sb) by exact Hs.
    assert (Hrs : ready sa) by apply stage_prefix_ready, Hr.
    assert (Hpl : forall j, j < MAX_ORDER + Z.min (n + 0) MAX_ORDER ->
                    load Fzero (linprebuf sa) j = load Fzero (linprebuf sb) j).
    { intros j Hj. rewrite Z.add_0_r in Hj.
      unfold sa, sb, stage_prefix; cbv zeta; fields.
      apply staged_agree; auto; lia. }
    assert (Hpr : forall j, j < MAX_ORDER + Z.min (n + 0) MAX_ORDER ->
                    load Fzero (rinprebuf sa) j = load Fzero (rinprebuf sb) j).
    { intros j Hj. rewrite Z.add_0_r in Hj.
      unfold sa, sb, stage_prefix; cbv zeta; fields.
      apply staged_agree; auto; lia. }
    destruct (analyze_loop fuel l r' sa n 0) as [[flag a1]|] eqn:E;
      [|discriminate].
    destruct (analyze_loop_same_title fuel l r' sa sb n 0 (flag, a1) Hrs Hss
                ltac:(lia) ltac:(lia) ltac:(lia) Hpl Hpr E)
      as (b1 & Eb & Hs1).
    cbn [fst snd] in Eb, Hs1. rewrite Eb.
    apply analyze_loop_frame in E. apply analyze_loop_frame in Eb.
    cbn [snd] in E, Eb.
    destruct E as (Ela & Era & _). destruct Eb as (Elb & Erb & _).
    destruct flag; injection H as <- <-.
    + exists (save_history b1 l r' n). split; [reflexivity|].
      unfold same_title_state, save_history; fields.
      split; [exact Hs1|].
      rewrite Ela, Era, Elb, Erb.
      unfold sa, sb, stage_prefix; cbv zeta; fields.
      split; apply saved_agree; auto; lia.
    + exists b1. split; [reflexivity|].
      split; [exact Hs1|]. rewrite Ela, Era, Elb, Erb.
      rewrite MAX_ORDER_value in Hpl, Hpr.
      pose proof Al as (Hlen1 & _). pose proof Ar as (Hlen2 & _).
      split; (split;
        [unfold sa, sb, stage_prefix; cbv zeta; fields;
         now rewrite !length_memmove
        | intros j Hj; rewrite MAX_ORDER_value in Hj;
          first [apply Hpl | apply Hpr]; lia ]).
Qed.

Lemma zero_fill_agree (x y : list Float_t) :
  length x = length y ->
  agree_upto MAX_ORDER (zero_fill (Z.to_nat MAX_ORDER) 0 x)
    (zero_fill (Z.to_nat MAX_ORDER) 0 y).
Proof.
  intros Hl. rewrite !zero_fill_blit.
  split; [now rewrite !length_blit|]. intros j Hj.
  destruct (Z_lt_ge_dec j 0) as [Hneg|Hpos];
    [|destruct (Z_lt_ge_dec j (Z.of_nat (length x))) as [Hin|Hout]].
  - rewrite !load_outside by lia. reflexivity.
  - rewrite !load_blit_inside by (rewrite ?repeat_length; lia).
    reflexivity.
  - rewrite !load_outside by (rewrite length_blit; lia). reflexivity.
Qed.

(** After a title query two contexts of the same configuration are in
    the same title state. *)
Lemma title_query_same_title a b :
  well_sized a -> well_sized b -> same_configuration a b ->
  same_title_state (snd (WAGetTitleGain a)) (snd (WAGetTitleGain b)).
Proof.
  intros (Ha1 & Ha2 & Ha3 & Ha4 & Ha5 & Ha6 & HAa & HBa)
         (Hb1 & Hb2 & Hb3 & Hb4 & Hb5 & Hb6 & HAb & HBb) Hc.
  unfold WAGetTitleGain; cbv zeta; fields.
  rewrite !merge_histograms_all by assumption.
  unfold same_title_state, same_title_core, same_configuration in *; fields.
  rewrite Z.add_0_r.
  split; [|split; apply zero_fill_agree; lia].
  split; [exact Hc|]. repeat (split; [reflexivity|]).
  split; [|split; [|split]]; apply zero_fill_agree; lia.
Qed.

Lemma feed_chunks_same_title chunks ch :
  forall a b st a',
  ready a -> same_title_state a b ->
  Forall (fun c => Z.of_nat (length (fst c)) < 2 ^ 32) chunks ->
  feed_chunks a chunks ch = Some (st, a') ->
  exists b',
    feed_chunks b chunks ch = Some (st, b') /\ same_title_state a' b'.
Proof.
  induction chunks as [|[l r] rest IH]; intros a b st a' Hr Hs Hall H.
  - cbn [feed_chunks] in *. injection H as <- <-. eauto.
  - inversion Hall as [|c cs Hc Hrest]; subst. cbn [fst] in Hc.
    cbn [feed_chunks] in *. unfold feed in *.
    destruct (WAAnalyzeSamples (S (length l)) a l r (Z.of_nat (length l)) ch)
      as [[st1 a1]|] eqn:E; [|discriminate].
    assert (Hn : 0 <= Z.of_nat (length l) < 2 ^ 32) by lia.
    destruct (feed_same_title _ a b l r _ ch st1 a1 Hr Hs Hn E)
      as (b1 & -> & Hs1).
    destruct (feed_ready (S (length l)) a l r (Z.of_nat (length l)) ch Hr
                Hn) as (Hrdy & _).
    destruct (Hrdy _ _ E) as (Hr1 & _).
    destruct st1;
      [injection H as <- <-; eauto | apply (IH a1 b1); assumption].
Qed.

(** X11. Titles are analysed independently of each other.  Two ready
    contexts of the same configuration, whatever they have analysed, are
    each asked for the title gain and then fed the same chunks: the calls
    return the same statuses and leave the same title state (window,
    sums, title histogram, history, and the filter buffers up to the open
    window), so the next title query returns the same gain on both. *)
Theorem titles_are_independent a b chunks ch st a' :
  ready a -> ready b -> same_configuration a b ->
  Forall (fun c => Z.of_nat (length (fst c)) < 2 ^ 32) chunks ->
  feed_chunks (snd (WAGetTitleGain a)) chunks ch = Some (st, a') ->
  exists b',
    feed_chunks (snd (WAGetTitleGain b)) chunks ch = Some (st, b')
    /\ same_title_state a' b'
    /\ fst (WAGetTitleGain a') = fst (WAGetTitleGain b').
Proof.
  intros Hra Hrb Hc Hall H.
  pose proof (title_query_same_title a b (proj1 Hra) (proj1 Hrb) Hc) as Hs.
  pose proof (title_ready a Hra) as Hr0.
  destruct (feed_chunks_same_title chunks ch _ _ st a' Hr0 Hs Hall H)
    as (b' & Eb & Hs').
  exists b'. split; [exact Eb|]. split; [exact Hs'|].
  destruct Hs' as ((_ & _ & _ & _ & HA & _) & _).
  unfold WAGetTitleGain; cbn [fst]. now rewrite HA.
Qed.

(** *** One channel *)




(** *** Windows and queries *)

Lemma total_add_histograms (b : list Z) :
  forall a,
  counters a -> counters b -> length a = length b ->
  total a + total b < 2 ^ 32 ->
  total (add_histograms b a) = total b + total a.
Proof.
  unfold add_histograms, counters.
  induction b as [|y b IH]; intros [|x a] Ha Hb Hl Hlt;
    try discriminate; [reflexivity|].
  inversion Ha as [|? ? Hx Ha']; inversion Hb as [|? ? Hy Hb']; subst.
  cbn [combine map total fst snd] in *.
  pose proof (range_total_nonneg a 0 (length a) Ha') as Hta.
  pose proof (range_total_nonneg b 0 (length b) Hb') as Htb.
  rewrite range_total_all in Hta, Htb.
  rewrite IH by (auto; lia). rewrite wrap32_small by lia. lia.
Qed.

(** X13. A title query loses and invents no window: when the two
    histograms together hold fewer than [2 ^ 32] windows, the album
    histogram afterwards holds as many windows as both held before, and
    the title histogram holds none. *)
Theorem title_query_conserves_windows rg :
  well_sized rg -> counters (A rg) -> counters (B rg) ->
  total (A rg) + total (B rg) < 2 ^ 32 ->
  total (B (snd (WAGetTitleGain rg))) = total (B rg) + total (A rg) /\
  total (A (snd (WAGetTitleGain rg))) = 0 /\
  counters (B (snd (WAGetTitleGain rg))).
Proof.
  intros (_ & _ & _ & _ & _ & _ & HA & HB) Hca Hcb Hlt.
  unfold WAGetTitleGain; cbv zeta; fields.
  rewrite (merge_histograms_all _ _ HA HB); fields.
  split; [apply total_add_histograms; auto; lia|].
  split; [apply total_zero_histogram|apply add_histograms_counters].
Qed.

(** X14. The title gain needs one full window.  A call on a ready
    context with an empty title histogram succeeds; when its samples do
    not fill the open window the title query that follows answers with
    the sentinel, and when they do it answers with the gain of a bucket
    of the table (the threshold of the windows completed lying between 1
    and their number). *)
Theorem title_gain_needs_a_window fuel rg l r num_samples ch :
  ready rg -> A rg = zero_histogram ->
  ch = 1 \/ ch = 2 -> 0 <= num_samples < 2 ^ 32 ->
  (Z.to_nat num_samples < fuel)%nat ->
  exists rg',
    WAAnalyzeSamples fuel rg l r num_samples ch = Some (GAIN_ANALYSIS_OK, rg')
    /\ (totsamp rg + num_samples < sampleWindow rg ->
        fst (WAGetTitleGain rg') = GAIN_NOT_ENOUGH_SAMPLES)
    /\ (sampleWindow rg <= totsamp rg + num_samples ->
        let windows := (totsamp rg + num_samples) / sampleWindow rg in
        windows < 2 ^ 31 -> 1 <= percentile_count windows <= windows ->
        exists i, 0 <= i < HISTOGRAM_LEN /\
                  fst (WAGetTitleGain rg') = gain_of_index i).
Proof.
  intros Hr HA Hch Hn Hf.
  pose proof Hr as (Hsz & _ & Hw & Ht).
  unfold MAX_SAMPLES_PER_WINDOW in Hw.
  assert (Hq : 0 <= (totsamp rg + num_samples) / sampleWindow rg
               <= num_samples).
  { split; [apply Z.div_pos; lia|].
    apply Z.lt_succ_r, Z.div_lt_upper_bound; [lia|]. nia. }
  destruct (feed_counts fuel rg l r num_samples ch)
    as (rg' & E & _ & Htot & Hc'); auto.
  { rewrite HA. apply counters_zero_histogram. }
  { rewrite HA, total_zero_histogram. lia. }
  rewrite HA, total_zero_histogram, Z.add_0_l in Htot.
  pose proof (feed_sized _ _ _ _ _ _ _ _ Hsz E)
    as (_ & _ & _ & _ & _ & _ & HlenA & _).
  exists rg'. split; [exact E|]. split.
  - intros Hsmall. rewrite Z.div_small in Htot by lia.
    unfold WAGetTitleGain; cbn [fst]. unfold analyzeResult; cbv zeta.
    replace (Z.to_nat HISTOGRAM_LEN) with (length (A rg')) by lia.
    rewrite sum_elems_total by (auto; lia). rewrite Htot. reflexivity.
  - intros Hbig windows Hlt Hp. subst windows.
    assert (Hu : unwrapped (A rg'))
      by (split; [exact HlenA|]; split; [exact Hc'|]; lia).
    assert (Hone : 1 <= (totsamp rg + num_samples) / sampleWindow rg)
      by (apply Z.div_le_lower_bound; lia).
    rewrite <- Htot in Hp, Hone.
    assert (Hp0 : 0 <= percentile_count (total (A rg')) <= total (A rg'))
      by lia.
    assert (Hnz : total (A rg') <> 0) by lia.
    destruct (analyzeResult_unwrapped (A rg') Hu Hp0) as (Hv & Hs).
    destruct (Hs Hnz) as (i & Hi & Hr').
    exists i. split; [exact Hr'|].
    unfold WAGetTitleGain; cbn [fst]. rewrite Hv, Hi.
    destruct (Z.eqb_spec (total (A rg')) 0); [lia|reflexivity].
Qed.

End Coverage.

(* ------------------------------------------------------------------ *)
(** ** Scans, completed windows and chunked feeds *)

Section Scans.
Context {FA : FloatArith}.

(** *** Scans over empty buckets *)

(** The second loop of [analyzeResult] passes a run of empty buckets
    with its running value unchanged. *)
Lemma scan_down_skip (a : list Z) (m : nat) upper :
  0 < upper < 2 ^ 31 ->
  forall n : nat,
  (m <= n)%nat ->
  (forall j : nat, (m <= j < n)%nat -> load 0 a (Z.of_nat j) = 0) ->
  scan_down a n upper = scan_down a m upper.
Proof.
  intros Hu. induction n as [|n IH]; intros Hmn Hz.
  - replace m with O by lia. reflexivity.
  - destruct (Nat.eq_dec m (S n)) as [->|Hne]; [reflexivity|].
    cbn [scan_down]. rewrite Hz by lia.
    rewrite Z.sub_0_r, sint32_small by lia.
    destruct (Z.leb_spec upper 0); [lia|].
    apply IH; [lia|]. intros j Hj. apply Hz. lia.
Qed.

Lemma spec_scan_skip (a : list Z) (m : nat) running :
  0 < running ->
  forall n : nat,
  (m <= n)%nat ->
  (forall j : nat, (m <= j < n)%nat -> load 0 a (Z.of_nat j) = 0) ->
  spec_scan a n running = spec_scan a m running.
Proof.
  intros Hu. induction n as [|n IH]; intros Hmn Hz.
  - replace m with O by lia. reflexivity.
  - destruct (Nat.eq_dec m (S n)) as [->|Hne]; [reflexivity|].
    cbn [spec_scan].
    replace (nth n a 0) with (load 0 a (Z.of_nat n))
      by (unfold load; destruct (Z.ltb_spec (Z.of_nat n) 0); [lia|];
          now rewrite Nat2Z.id).
    rewrite Hz by lia. rewrite Z.sub_0_r.
    destruct (Z.leb_spec running 0); [lia|].
    apply IH; [lia|]. intros j Hj. apply Hz. lia.
Qed.

(** [analyzeResult] on a whole histogram, by its total. *)
Lemma analyzeResult_total (a : list Z) :
  Z.of_nat (length a) = HISTOGRAM_LEN ->
  analyzeResult a HISTOGRAM_LEN
  = if wrap32 (total a) =? 0 then GAIN_NOT_ENOUGH_SAMPLES
    else gain_of_index
           (scan_down a (Z.to_nat HISTOGRAM_LEN)
              (percentile_count (wrap32 (total a)))).
Proof.
  intros Hl. unfold analyzeResult; cbv zeta.
  replace (Z.to_nat HISTOGRAM_LEN) with (length a) by lia.
  rewrite sum_elems_whole. reflexivity.
Qed.

(** A histogram whose 32-bit total is 0 is taken for an empty one. *)
Lemma analyzeResult_wrapped (a : list Z) :
  Z.of_nat (length a) = HISTOGRAM_LEN ->
  wrap32 (total a) = 0 ->
  analyzeResult a HISTOGRAM_LEN = GAIN_NOT_ENOUGH_SAMPLES.
Proof.
  intros Hl Hz. rewrite (analyzeResult_total a Hl), Hz. reflexivity.
Qed.

Lemma analyzeResult_stops (a : list Z) t upper i :
  Z.of_nat (length a) = HISTOGRAM_LEN ->
  total a = t -> wrap32 t <> 0 ->
  percentile_count (wrap32 t) = upper ->
  scan_down a (Z.to_nat HISTOGRAM_LEN) upper = i ->
  analyzeResult a HISTOGRAM_LEN = gain_of_index i.
Proof.
  intros Hl Ht Hnz Hu Hs. rewrite (analyzeResult_total a Hl), Ht, Hu, Hs.
  destruct (Z.eqb_spec (wrap32 t) 0); [contradiction|reflexivity].
Qed.

End Scans.

(** *** Window completion within a call *)

Section Completion.
Context {FA : FloatArith}.
Implicit Types (rg : ReplayGainContext).

Local Notation "a +! b" := (dadd a b) (at level 50, left associativity).
Local Notation "a *! b" := (dmul a b) (at level 40, left associativity).
Local Notation "a /! b" := (ddiv a b) (at level 40, left associativity).

Lemma analyze_step_counted l r rg b p :
  analyze_step l r rg b p
  = (let full := batch_counted l r rg b p in
     if totsamp full =? sampleWindow full then close_window full else full,
     wrap32 (b - batch_size rg b p), wrap32 (p + batch_size rg b p)).
Proof.
  unfold analyze_step, batch_counted, process_batch; cbv zeta.
  destruct (p <? MAX_ORDER); reflexivity.
Qed.

Lemma batch_counted_frame l r rg b p :
  let full := batch_counted l r rg b p in
  totsamp full = wrap32 (totsamp rg + batch_size rg b p) /\
  sampleWindow full = sampleWindow rg /\ A full = A rg.
Proof.
  unfold batch_counted; cbv zeta.
  destruct (p <? MAX_ORDER); unfold filter_and_sum, set_totsamp; cbv zeta;
    fields; auto.
Qed.

Lemma window_bucket_clamp rg :
  window_bucket rg
  = Z.max 0
      (Z.min
         (sint32
            (int_of_double
               (dlit 100 *! dlit 10
                *! log10 ((lsum rg +! rsum rg) /! d_of_int (totsamp rg)
                          *! dlit 0.5 +! dlit 1e-37))))
         11999).
Proof.
  unfold window_bucket; cbv zeta. unfold STEPS_per_dB, HISTOGRAM_LEN.
  match goal with |- context [sint32 ?v] => generalize (sint32 v) end.
  intros z.
  destruct (Z.ltb_spec z 0);
    match goal with |- context [?a >=? ?b] => destruct (Z.geb_spec a b) end;
    lia.
Qed.

Lemma analyze_loop_windows fuel l r :
  forall rg b p,
  ready rg -> 0 <= b -> 0 <= p -> b + p < 2 ^ 32 ->
  (Z.to_nat b < fuel)%nat ->
  exists rg',
    analyze_loop fuel l r rg b p = Some (true, rg')
    /\ Z.of_nat (length (completed_windows fuel l r rg b p))
       = (totsamp rg + b) / sampleWindow rg
    /\ Forall (fun full => totsamp full = sampleWindow rg)
         (completed_windows fuel l r rg b p)
    /\ A rg'
       = fold_left (fun hist full => count_window hist (window_bucket full))
           (completed_windows fuel l r rg b p) (A rg)
    /\ totsamp rg' = (totsamp rg + b) mod sampleWindow rg
    /\ (totsamp rg' = 0 ->
        0 < b \/ (lsum rg = dlit 0 /\ rsum rg = dlit 0) ->
        lsum rg' = dlit 0 /\ rsum rg' = dlit 0).
Proof.
  induction fuel as [|fuel IH]; intros rg b p Hr Hb Hp Hbp Hf; [lia|].
  pose proof Hr as (_ & _ & Hw & Ht).
  unfold MAX_SAMPLES_PER_WINDOW in Hw.
  cbn [analyze_loop completed_windows].
  destruct (Z.gtb_spec b 0) as [Hpos|Hzero].
  2:{ exists rg. replace b with 0 by lia. rewrite Z.add_0_r.
      rewrite Z.mod_small, Z.div_small by lia.
      split; [reflexivity|]. split; [reflexivity|].
      split; [constructor|]. split; [reflexivity|].
      split; [reflexivity|]. intros _ [H|H]; [lia|exact H]. }
  pose proof (analyze_step_ready l r rg b p Hr Hpos Hp Hbp) as Hstep.
  rewrite analyze_step_counted in *. cbv zeta in *.
  destruct (batch_size_bounds rg b p Hr Hpos Hp) as (Hcb & Hfit & _).
  destruct (batch_counted_frame l r rg b p) as (Htf & Hwf & HAf).
  set (c := batch_size rg b p) in *.
  set (full := batch_counted l r rg b p) in *.
  rewrite wrap32_small in Htf by lia.
  rewrite !wrap32_small in * by lia.
  destruct Hstep as (Hr1 & _).
  set (rg1 := if totsamp full =? sampleWindow full then close_window full
              else full) in *.
  assert (Hno : (totsamp rg1 >? sampleWindow rg1) = false).
  { destruct Hr1 as (_ & _ & _ & Ht1).
    destruct (Z.gtb_spec (totsamp rg1) (sampleWindow rg1)); [lia|easy]. }
  rewrite Hno.
  destruct (IH rg1 (b - c) (p + c) Hr1)
    as (rg' & E & Hlen & Hall & HA & Htot & Hsum);
    try lia.
  exists rg'. split; [exact E|].
  rewrite length_app, Nat2Z.inj_add, Hlen, HA, Htot, fold_left_app.
  unfold rg1 in *. clear rg1.
  rewrite ?Hwf, ?Htf in *.
  destruct (Z.eqb_spec (totsamp rg + c) (sampleWindow rg)) as [Hfull|Hopen].
  - change (totsamp (close_window full)) with 0 in *.
    change (sampleWindow (close_window full)) with (sampleWindow full) in *.
    change (A (close_window full))
      with (count_window (A full) (window_bucket full)).
    change (lsum (close_window full)) with (dlit 0) in *.
    change (rsum (close_window full)) with (dlit 0) in *.
    rewrite ?Hwf, ?HAf in *. cbn [length fold_left Z.of_nat].
    rewrite ?Z.add_0_l in *.
    replace (totsamp rg + b) with ((b - c) + 1 * sampleWindow rg) by lia.
    rewrite Z.div_add, Z.mod_add by lia.
    split; [lia|].
    split; [apply Forall_app; split;
             [constructor; [lia|constructor]|exact Hall]|].
    split; [reflexivity|]. split; [reflexivity|].
    intros H0 _. apply Hsum; [congruence|auto].
  - rewrite ?Hwf, ?HAf, ?Htf in *. cbn [length fold_left Z.of_nat app].
    replace (totsamp rg + c + (b - c)) with (totsamp rg + b) in * by lia.
    split; [lia|]. split; [exact Hall|].
    split; [reflexivity|]. split; [reflexivity|].
    intros H0 _. apply Hsum; [congruence|].
    left. destruct (Z.eq_dec (b - c) 0) as [Hz|Hz]; [|lia].
    exfalso.
    replace (totsamp rg + b) with (totsamp rg + c) in H0 by lia.
    rewrite Z.mod_small in H0 by lia. lia.
Qed.

Lemma fold_left_ext {X Y} (f g : X -> Y -> X) (ys : list Y) :
  (forall x y, f x y = g x y) ->
  forall x, fold_left f ys x = fold_left g ys x.
Proof.
  intros H. induction ys as [|y ys IH]; intros x; cbn [fold_left];
    [reflexivity|].
  rewrite H. apply IH.
Qed.

(** C3. Window completion: in every feed call on a context in the state a
    successful [initialize (rate)] leaves between calls, the window size
    is [ceil (rate * 0.050)], and whenever [totsamp] reaches it the
    engine computes
    [100 * 10 * log10 ((lsum + rsum) / totsamp * 0.5 + 1e-37)], clamps its
    integer part into [0, 12000), increments that bucket of the title
    histogram, and restarts [lsum], [rsum] and [totsamp] from zero: the
    call completes [(totsamp + num_samples) / window] windows, the title
    histogram it leaves is the one it found with one increment per
    completed window, at the bucket of the sums of that window, and a
    call that ends on a window boundary leaves both sums and the counter
    at zero. *)
Theorem window_completion block samplefreq rg0 fuel rg l r num_samples ch :
  let r' := right_of ch l r in
  let windows :=
    completed_windows fuel l r' (stage_prefix rg l r' num_samples)
      num_samples 0 in
  let bucket full :=
    let val :=
      dlit 100 *! dlit 10
      *! log10 ((lsum full +! rsum full) /! d_of_int (totsamp full)
                *! dlit 0.5 +! dlit 1e-37) in
    Z.max 0 (Z.min (sint32 (int_of_double val)) 11999) in
  window_law ->
  - 2 ^ 31 <= samplefreq < 2 ^ 31 ->
  WAInitGainAnalysis block samplefreq = (INIT_GAIN_ANALYSIS_OK, rg0) ->
  ready rg -> sampleWindow rg = sampleWindow rg0 ->
  ch = 1 \/ ch = 2 -> 0 <= num_samples < 2 ^ 32 ->
  (Z.to_nat num_samples < fuel)%nat ->
  exists rg',
    WAAnalyzeSamples fuel rg l r num_samples ch
    = Some (GAIN_ANALYSIS_OK, rg')
    /\ Z.of_nat (length windows)
       = (totsamp rg + num_samples) / exact_window samplefreq
    /\ Forall (fun full => totsamp full = exact_window samplefreq) windows
    /\ A rg'
       = fold_left (fun hist full => count_window hist (bucket full))
           windows (A rg)
    /\ totsamp rg' = (totsamp rg + num_samples) mod exact_window samplefreq
    /\ (0 < num_samples -> totsamp rg' = 0 ->
        lsum rg' = dlit 0 /\ rsum rg' = dlit 0).
Proof.
  intros r' windows bucket Hlaw Hrate Hinit Hr Hsame Hch Hn Hf.
  assert (Hw : sampleWindow rg = exact_window samplefreq).
  { rewrite Hsame. unfold WAInitGainAnalysis in Hinit.
    destruct (WAResetSampleFrequency block samplefreq) as [st1 rg1] eqn:E.
    destruct st1; [discriminate|].
    apply (f_equal snd) in Hinit; cbn [snd] in Hinit. subst rg0.
    destruct (reset_ok_inv block samplefreq rg1 Hrate E) as (Hin & i & ->).
    fields. apply Hlaw, Hin. }
  rewrite <- Hw.
  pose proof Hr as (_ & _ & Hws & Ht). unfold MAX_SAMPLES_PER_WINDOW in Hws.
  assert (Hb : forall hist full,
            count_window hist (window_bucket full)
            = count_window hist (bucket full))
    by (intros hist full; unfold bucket; cbv zeta;
        now rewrite window_bucket_clamp).
  destruct (feed_cases fuel rg l r num_samples ch)
    as [(H0 & ->) | [(_ & H1 & H2 & _) | (Hnz & _ & ->)]]; [|lia|].
  - exists rg. subst num_samples.
    assert (Hnone : windows = [])
      by (unfold windows; destruct fuel; reflexivity).
    rewrite Hnone, Z.add_0_r, Z.mod_small, Z.div_small by lia.
    split; [reflexivity|]. split; [reflexivity|].
    split; [constructor|]. split; [reflexivity|].
    split; [reflexivity|]. intros H; lia.
  - cbv zeta. fold (right_of ch l r). fold r'.
    destruct (analyze_loop_windows fuel l r' (stage_prefix rg l r' num_samples)
                num_samples 0)
      as (rg' & -> & Hlen & Hall & HA & Htot & Hsum); try lia.
    + apply stage_prefix_ready, Hr.
    + fold windows in Hlen, Hall, HA.
      exists (save_history rg' l r' num_samples).
      split; [reflexivity|].
      unfold stage_prefix in Hlen, Hall, HA, Htot; cbv zeta in *.
      revert Hlen Hall HA Htot Hsum. unfold save_history; fields.
      intros Hlen Hall HA Htot Hsum.
      split; [exact Hlen|]. split; [exact Hall|].
      split; [rewrite HA; apply fold_left_ext, Hb|].
      split; [exact Htot|].
      intros Hpos H0. apply Hsum; [exact H0|left; exact Hpos].
Qed.

End Completion.

(** *** Chunked feeding: what every arithmetic preserves *)

Section ChunkedWindows.
Context {FA : FloatArith}.
Implicit Types (rg : ReplayGainContext).




End ChunkedWindows.

(* ------------------------------------------------------------------ *)
(** ** Concrete runs on IEEE-754 binary64 *)

Section Runs.
#[local] Existing Instance IEEE.binary64.
Import Samples.

(** A pair, or the result of a call, is known once its status is. *)
Lemma pair_of_status {S C : Type} (p : S * C) (st : S) :
  fst p = st -> p = (st, snd p).
Proof. intros <-. apply surjective_pairing. Qed.

Lemma call_of_status (rg : ReplayGainContext)
    (o : option (gain_status * ReplayGainContext)) (st : gain_status) :
  option_map fst o = Some st -> o = Some (st, context_of rg o).
Proof.
  destruct o as [[st' rg']|]; cbn; intros H; inversion H; reflexivity.
Qed.

Lemma binary64_window_law : window_law.
Proof.
  unfold window_law, supported_rates; cbn [In]; intros rate H.
  repeat (destruct H as [<-|H]; [vm_compute; reflexivity|]).
  contradiction.
Qed.

Lemma fresh_well_sized : well_sized fresh.
Proof. repeat split; vm_compute; reflexivity. Qed.

Lemma init_8000 :
  WAInitGainAnalysis (WACreateRGContext fresh) 8000
  = (INIT_GAIN_ANALYSIS_OK, at_8000).
Proof. apply pair_of_status. vm_compute; reflexivity. Qed.

Lemma init_44100 :
  WAInitGainAnalysis (WACreateRGContext fresh) 44100
  = (INIT_GAIN_ANALYSIS_OK, at_44100).
Proof. apply pair_of_status. vm_compute; reflexivity. Qed.

Lemma at_8000_reachable : reachable at_8000.
Proof.
  apply (reach_init fresh 8000);
    [exact fresh_well_sized | lia | exact init_8000].
Qed.

Lemma at_8000_well_sized : well_sized at_8000.
Proof. repeat split; vm_compute; reflexivity. Qed.

Lemma at_8000_ready : ready at_8000.
Proof.
  exact (reachable_ready at_8000 binary64_window_law at_8000_reachable).
Qed.

Lemma at_8000_empty :
  A at_8000 = zero_histogram /\ totsamp at_8000 = 0 /\
  sampleWindow at_8000 = 400.
Proof.
  pose proof init_8000 as H.
  unfold WAInitGainAnalysis, WAResetSampleFrequency in H.
  change (freqindex_of 8000) with (Some 11) in H. cbv iota in H.
  apply (f_equal snd) in H. cbn [snd] in H. rewrite <- H. fields.
  split; [reflexivity|]. split; [reflexivity|].
  rewrite binary64_window_law; [reflexivity|].
  unfold supported_rates. cbn [In]. auto.
Qed.

Lemma feed_silence :
  WAAnalyzeSamples 401 at_8000 (silence 400) [] 400 1
  = Some (GAIN_ANALYSIS_OK, after_silence).
Proof. apply call_of_status. vm_compute; reflexivity. Qed.

(** Witness of C6: the rate 44100 Hz. *)
Lemma init_accepts_44100 :
  (fst (WAInitGainAnalysis fresh 44100) = INIT_GAIN_ANALYSIS_OK <->
   In 44100 supported_rates) /\
  (~ In 44100 supported_rates ->
   fst (WAInitGainAnalysis fresh 44100) = INIT_GAIN_ANALYSIS_ERROR).
Proof.
  apply (init_accepts_exactly_supported_rates fresh 44100). lia.
Defined.

(** Counterexample to C5 as stated: a context initialised at 44100 Hz
    keeps its window size of 2205 samples when a later initialisation at
    44101 Hz is refused, whereas no context without a successful
    initialisation that starts from the same block has it. *)
Lemma failed_init_keeps_configuration :
  WAInitGainAnalysis (WACreateRGContext fresh) 44100
  = (INIT_GAIN_ANALYSIS_OK, at_44100) /\
  WAInitGainAnalysis at_44100 44101
  = (INIT_GAIN_ANALYSIS_ERROR, after_failed_init) /\
  sampleWindow after_failed_init = 2205 /\
  sampleWindow fresh = 0 /\
  ~ never_initialized fresh after_failed_init.
Proof.
  split; [exact init_44100|].
  split; [apply pair_of_status; vm_compute; reflexivity|].
  assert (Hw : sampleWindow after_failed_init = 2205)
    by (vm_compute; reflexivity).
  assert (H0 : sampleWindow fresh = 0) by reflexivity.
  split; [exact Hw|]. split; [exact H0|].
  intros Hn. apply never_initialized_window in Hn. congruence.
Qed.

(** Witness of C5 (amended): the same refused initialisation. *)
Lemma failed_init_44101 :
  exists rg',
    WAInitGainAnalysis at_44100 44101 = (INIT_GAIN_ANALYSIS_ERROR, rg') /\
    history_cleared at_44100 rg' /\
    same_configuration at_44100 rg' /\
    totsamp rg' = totsamp at_44100 /\ lsum rg' = lsum at_44100 /\
    rsum rg' = rsum at_44100 /\
    A rg' = A at_44100 /\ B rg' = B at_44100.
Proof.
  apply (failed_init_clears_history_only at_44100 44101); [lia|].
  unfold supported_rates; cbn [In]. intros H.
  repeat (destruct H as [H|H]; [discriminate H|]). exact H.
Defined.

(** Witness of C8: the title query after one window of silence. *)
Lemma title_query_after_silence :
  fst (WAGetTitleGain after_silence)
  = analyzeResult (A after_silence) HISTOGRAM_LEN /\
  B (snd (WAGetTitleGain after_silence))
  = add_histograms (B after_silence) (A after_silence) /\
  A (snd (WAGetTitleGain after_silence)) = zero_histogram /\
  history_cleared after_silence (snd (WAGetTitleGain after_silence)) /\
  totsamp (snd (WAGetTitleGain after_silence)) = 0 /\
  lsum (snd (WAGetTitleGain after_silence)) = dlit 0 /\
  rsum (snd (WAGetTitleGain after_silence)) = dlit 0 /\
  same_configuration after_silence (snd (WAGetTitleGain after_silence)).
Proof.
  apply (title_query_effects after_silence).
  - exact (feed_sized _ _ _ _ _ _ _ _ at_8000_well_sized feed_silence).
  - apply surjective_pairing.
Defined.

(** Counterexample to C9 as stated: an empty call with three channels is
    not rejected. *)
Lemma empty_call_skips_channel_check :
  WAAnalyzeSamples 0 at_8000 [] [] 0 3 = Some (GAIN_ANALYSIS_OK, at_8000).
Proof. unfold WAAnalyzeSamples. reflexivity. Qed.

(** Witness of C9 (amended): three channels, one sample and no sample. *)
Lemma three_channels :
  (1 <> 0 ->
   WAAnalyzeSamples 2 at_8000 (silence 1) (silence 1) 1 3
   = Some (GAIN_ANALYSIS_ERROR, at_8000)) /\
  (1 = 0 ->
   WAAnalyzeSamples 2 at_8000 (silence 1) (silence 1) 1 3
   = Some (GAIN_ANALYSIS_OK, at_8000)).
Proof.
  apply (channel_check_follows_empty_check 2 at_8000 (silence 1) (silence 1)
           1 3); lia.
Defined.

(** Counterexample to C4 as stated: after one full window of silence the
    title histogram holds the window (bucket 0), the album histogram holds
    nothing and the album query has nothing to report. *)
Lemma album_misses_unqueried_window :
  WAAnalyzeSamples 401 at_8000 (silence 400) [] 400 1
  = Some (GAIN_ANALYSIS_OK, after_silence) /\
  load 0 (A after_silence) 0 = 1 /\
  B after_silence = zero_histogram /\
  WAGetAlbumGain after_silence = GAIN_NOT_ENOUGH_SAMPLES.
Proof.
  split; [exact feed_silence|].
  split; [vm_compute; reflexivity|].
  assert (HB : B after_silence = zero_histogram)
    by (vm_compute; reflexivity).
  split; [exact HB|].
  unfold WAGetAlbumGain. rewrite HB. apply analyzeResult_empty.
Qed.

(** Witness of C4 (amended): the same window, then the title query. *)
Lemma album_after_silence :
  B after_silence = B at_8000 /\
  WAGetAlbumGain after_silence = WAGetAlbumGain at_8000 /\
  B (snd (WAGetTitleGain after_silence))
  = add_histograms (B at_8000) (A after_silence) /\
  A (snd (WAGetTitleGain after_silence)) = zero_histogram.
Proof.
  apply (album_follows_title_queries 401 at_8000 (silence 400) [] 400 1
           GAIN_ANALYSIS_OK after_silence
           (fst (WAGetTitleGain after_silence))).
  - exact at_8000_well_sized.
  - exact feed_silence.
  - apply surjective_pairing.
Defined.

(** Witness of C7: the context initialised at 8000 Hz. *)
Lemma window_counter_at_8000 :
  0 <= totsamp at_8000 < sampleWindow at_8000 /\
  (forall fuel l r n ch rg',
     0 <= n < 2 ^ 32 ->
     WAAnalyzeSamples fuel at_8000 l r n ch
     = Some (GAIN_ANALYSIS_ERROR, rg') ->
     ch <> 1 /\ ch <> 2) /\
  (forall l r n ch,
     0 <= n < 2 ^ 32 -> ch = 1 \/ ch = 2 ->
     exists rg', forall fuel, (Z.to_nat n < fuel)%nat ->
       WAAnalyzeSamples fuel at_8000 l r n ch
       = Some (GAIN_ANALYSIS_OK, rg')).
Proof.
  apply (window_counter_invariant at_8000).
  - exact binary64_window_law.
  - exact at_8000_reachable.
Defined.

Lemma after_silence_title_unwrapped : unwrapped (A after_silence).
Proof.
  split; [vm_compute; reflexivity|].
  split; [apply counters_check; vm_compute; reflexivity|].
  vm_compute; reflexivity.
Qed.

Lemma after_silence_album_unwrapped : unwrapped (B after_silence).
Proof.
  split; [vm_compute; reflexivity|].
  split; [apply counters_check; vm_compute; reflexivity|].
  vm_compute; reflexivity.
Qed.

(** *** Windows completed by a call *)

(** Witness of C3: a thousand samples of a constant signal fed in one
    call to the context initialised at 8000 Hz, where a window has 400
    samples. *)
Lemma window_completion_of_a_level :
  let r' := right_of 1 (repeat level 1000) [] in
  let windows :=
    completed_windows 1001 (repeat level 1000) r'
      (stage_prefix at_8000 (repeat level 1000) r' 1000) 1000 0 in
  let bucket full :=
    let val :=
      dmul (dmul (dlit 100) (dlit 10))
        (log10 (dadd (dmul (ddiv (dadd (lsum full) (rsum full))
                              (d_of_int (totsamp full))) (dlit 0.5))
                  (dlit 1e-37))) in
    Z.max 0 (Z.min (sint32 (int_of_double val)) 11999) in
  exists rg',
    WAAnalyzeSamples 1001 at_8000 (repeat level 1000) [] 1000 1
    = Some (GAIN_ANALYSIS_OK, rg')
    /\ Z.of_nat (length windows) = (totsamp at_8000 + 1000) / exact_window 8000
    /\ Forall (fun full => totsamp full = exact_window 8000) windows
    /\ A rg'
       = fold_left (fun hist full => count_window hist (bucket full))
           windows (A at_8000)
    /\ totsamp rg' = (totsamp at_8000 + 1000) mod exact_window 8000
    /\ (0 < 1000 -> totsamp rg' = 0 ->
        lsum rg' = dlit 0 /\ rsum rg' = dlit 0).
Proof.
  apply (window_completion fresh 8000 at_8000 1001 at_8000
           (repeat level 1000) [] 1000 1).
  - exact binary64_window_law.
  - lia.
  - exact init_8000.
  - exact at_8000_ready.
  - reflexivity.
  - left; reflexivity.
  - lia.
  - lia.
Defined.

(** *** The percentile scan on concrete histograms *)


Lemma thirty_windows_total :
  Z.of_nat (length thirty_windows) = HISTOGRAM_LEN /\
  total thirty_windows = 30 /\ counters thirty_windows /\
  (forall j : nat, (121 <= j < Z.to_nat HISTOGRAM_LEN)%nat ->
     load 0 thirty_windows (Z.of_nat j) = 0).
Proof.
  assert (Hlen0 : Z.of_nat (length (store zero_histogram 60 27))
                  = HISTOGRAM_LEN)
    by (rewrite length_store; apply length_zero_histogram).
  split; [unfold thirty_windows; rewrite length_store; exact Hlen0|].
  split.
  { unfold thirty_windows.
    rewrite total_store by (unfold HISTOGRAM_LEN in Hlen0; lia).
    rewrite load_store_neq by lia.
    rewrite total_store
      by (rewrite length_zero_histogram; unfold HISTOGRAM_LEN; lia).
    rewrite total_zero_histogram, !load_zero_histogram. reflexivity. }
  split.
  { unfold thirty_windows.
    repeat (apply counters_store; [|lia]). apply counters_zero_histogram. }
  intros j Hj. unfold thirty_windows.
  rewrite !load_store_neq by lia. apply load_zero_histogram.
Qed.

Lemma forty_one_windows_total :
  Z.of_nat (length forty_one_windows) = HISTOGRAM_LEN /\
  total forty_one_windows = 41 /\ counters forty_one_windows /\
  (forall j : nat, (201 <= j < Z.to_nat HISTOGRAM_LEN)%nat ->
     load 0 forty_one_windows (Z.of_nat j) = 0).
Proof.
  assert (Hlen0 : Z.of_nat (length (store zero_histogram 50 38))
                  = HISTOGRAM_LEN)
    by (rewrite length_store; apply length_zero_histogram).
  assert (Hlen1 : Z.of_nat (length (store (store zero_histogram 50 38) 100 2))
                  = HISTOGRAM_LEN)
    by (rewrite length_store; exact Hlen0).
  split; [unfold forty_one_windows; rewrite length_store; exact Hlen1|].
  split.
  { unfold forty_one_windows.
    rewrite total_store by (unfold HISTOGRAM_LEN in Hlen1; lia).
    rewrite !load_store_neq by lia.
    rewrite total_store by (unfold HISTOGRAM_LEN in Hlen0; lia).
    rewrite load_store_neq by lia.
    rewrite total_store
      by (rewrite length_zero_histogram; unfold HISTOGRAM_LEN; lia).
    rewrite total_zero_histogram, !load_zero_histogram. reflexivity. }
  split.
  { unfold forty_one_windows.
    repeat (apply counters_store; [|lia]). apply counters_zero_histogram. }
  intros j Hj. unfold forty_one_windows.
  rewrite !load_store_neq by lia. apply load_zero_histogram.
Qed.

Lemma title_in_album_unwrapped :
  unwrapped (A title_in_album) /\ unwrapped (B title_in_album).
Proof.
  destruct thirty_windows_total as (Hl1 & Ht1 & Hc1 & _).
  destruct forty_one_windows_total as (Hl2 & Ht2 & Hc2 & _).
  change (A title_in_album) with thirty_windows.
  change (B title_in_album) with forty_one_windows.
  unfold unwrapped. rewrite Ht1, Ht2. repeat split; auto; lia.
Qed.

(** The scans of the specification on the two histograms: the title
    stops at its bucket 120 with the threshold 2, the album at its
    bucket 100 with the threshold 3, after the single window of
    bucket 200. *)
Lemma title_in_album_scans :
  percentile_gain_spec (A title_in_album) = gain_of_index 120 /\
  percentile_gain_spec (B title_in_album) = gain_of_index 100.
Proof.
  destruct thirty_windows_total as (Hl1 & Ht1 & _ & Hz1).
  destruct forty_one_windows_total as (Hl2 & Ht2 & _ & Hz2).
  change (A title_in_album) with thirty_windows.
  change (B title_in_album) with forty_one_windows.
  unfold percentile_gain_spec. rewrite Ht1, Ht2.
  change (30 =? 0) with false. change (41 =? 0) with false. cbv iota.
  replace (length thirty_windows) with (Z.to_nat HISTOGRAM_LEN) by lia.
  replace (length forty_one_windows) with (Z.to_nat HISTOGRAM_LEN) by lia.
  rewrite (spec_scan_skip thirty_windows 121);
    [|vm_compute; reflexivity|unfold HISTOGRAM_LEN; lia|exact Hz1].
  rewrite (spec_scan_skip forty_one_windows 201);
    [|vm_compute; reflexivity|unfold HISTOGRAM_LEN; lia|exact Hz2].
  split; vm_compute; reflexivity.
Qed.

(** The gains the engine returns on the two histograms. *)
Lemma title_in_album_gains :
  fst (WAGetTitleGain title_in_album) = gain_of_index 120 /\
  WAGetAlbumGain title_in_album = gain_of_index 100.
Proof.
  destruct title_in_album_unwrapped as [HA HB].
  destruct title_in_album_scans as [ST SB].
  unfold WAGetTitleGain, WAGetAlbumGain; cbn [fst].
  rewrite <- ST, <- SB. split; apply analyzeResult_refines_spec; auto.
  - change (A title_in_album) with thirty_windows.
    rewrite (proj1 (proj2 thirty_windows_total)). discriminate.
  - change (B title_in_album) with forty_one_windows.
    rewrite (proj1 (proj2 forty_one_windows_total)). discriminate.
Qed.

(** Witness of C2 (amended): a title of thirty windows in an album of
    forty-one. *)
Lemma percentile_gain_of_title_in_album :
  fst (WAGetTitleGain title_in_album) = percentile_gain_spec (A title_in_album)
  /\ WAGetAlbumGain title_in_album = percentile_gain_spec (B title_in_album).
Proof.
  apply (percentile_gain_refines_spec title_in_album).
  - exact (proj1 title_in_album_unwrapped).
  - exact (proj2 title_in_album_unwrapped).
  - change (A title_in_album) with thirty_windows.
    rewrite (proj1 (proj2 thirty_windows_total)). discriminate.
  - change (B title_in_album) with forty_one_windows.
    rewrite (proj1 (proj2 forty_one_windows_total)). discriminate.
Defined.

(** Two album buckets of [2 ^ 31] windows each.  The bucket counts add up
    to [2 ^ 32], the [Uint32_t] sum of the engine is 0, and the album
    query returns the sentinel where the specification has
    [64.82 - 1 / 100.0]. *)
Lemma wrapped_total_gives_sentinel :
  total wrapping_histogram = 2 ^ 32 /\
  WAGetAlbumGain (with_album at_8000 wrapping_histogram)
  = GAIN_NOT_ENOUGH_SAMPLES /\
  percentile_gain_spec wrapping_histogram = gain_of_index 1 /\
  PrimFloat.eqb (gain_of_index 1) GAIN_NOT_ENOUGH_SAMPLES = false.
Proof.
  assert (Hlen0 : Z.of_nat (length (store zero_histogram 0 (2 ^ 31)))
                  = HISTOGRAM_LEN)
    by (rewrite length_store; apply length_zero_histogram).
  assert (Hlen : Z.of_nat (length wrapping_histogram) = HISTOGRAM_LEN)
    by (unfold wrapping_histogram; rewrite length_store; exact Hlen0).
  assert (Htot : total wrapping_histogram = 2 ^ 32).
  { unfold wrapping_histogram.
    rewrite total_store by (unfold HISTOGRAM_LEN in Hlen0; lia).
    rewrite load_store_neq by lia.
    rewrite total_store
      by (rewrite length_zero_histogram; unfold HISTOGRAM_LEN; lia).
    rewrite total_zero_histogram, !load_zero_histogram. reflexivity. }
  split; [exact Htot|].
  split.
  { unfold WAGetAlbumGain, with_album; fields.
    apply (analyzeResult_wrapped _ Hlen). rewrite Htot. reflexivity. }
  split; [|vm_compute; reflexivity].
  unfold percentile_gain_spec. rewrite Htot.
  change (2 ^ 32 =? 0) with false. cbv iota.
  replace (length wrapping_histogram) with (Z.to_nat HISTOGRAM_LEN) by lia.
  rewrite (spec_scan_skip wrapping_histogram 2).
  - vm_compute; reflexivity.
  - vm_compute; reflexivity.
  - unfold HISTOGRAM_LEN. lia.
  - intros j Hj. unfold wrapping_histogram.
    rewrite !load_store_neq by lia. apply load_zero_histogram.
Qed.

(** The threshold of twenty windows: [1. - 0.95] is above [0.05] in
    binary64, the product is above 1 and its ceiling is 2, where
    [ceil (20 * 0.05)] is 1.  With nineteen windows in bucket 50 and one
    in bucket 100 the engine stops at bucket 50 and the scan of the
    specification at bucket 100. *)
Lemma threshold_of_twenty_windows :
  percentile_count 20 = 2 /\ exact_percentile_count 20 = 1 /\
  WAGetAlbumGain (with_album at_8000 twenty_windows) = gain_of_index 50 /\
  percentile_gain_spec twenty_windows = gain_of_index 100 /\
  PrimFloat.eqb (gain_of_index 50) (gain_of_index 100) = false.
Proof.
  assert (Hp : percentile_count 20 = 2) by (vm_compute; reflexivity).
  assert (Hlen0 : Z.of_nat (length (store zero_histogram 50 19))
                  = HISTOGRAM_LEN)
    by (rewrite length_store; apply length_zero_histogram).
  assert (Hlen : Z.of_nat (length twenty_windows) = HISTOGRAM_LEN)
    by (unfold twenty_windows; rewrite length_store; exact Hlen0).
  assert (Htot : total twenty_windows = 20).
  { unfold twenty_windows.
    rewrite total_store by (unfold HISTOGRAM_LEN in Hlen0; lia).
    rewrite load_store_neq by lia.
    rewrite total_store
      by (rewrite length_zero_histogram; unfold HISTOGRAM_LEN; lia).
    rewrite total_zero_histogram, !load_zero_histogram. reflexivity. }
  assert (Hz : forall j : nat, (101 <= j < Z.to_nat HISTOGRAM_LEN)%nat ->
                 load 0 twenty_windows (Z.of_nat j) = 0).
  { intros j Hj. unfold twenty_windows.
    rewrite !load_store_neq by lia. apply load_zero_histogram. }
  split; [exact Hp|].
  split; [reflexivity|].
  split.
  { unfold WAGetAlbumGain, with_album; fields.
    apply (analyzeResult_stops _ 20 2 50 Hlen Htot);
      [discriminate|exact Hp|].
    rewrite (scan_down_skip twenty_windows 101).
    - vm_compute; reflexivity.
    - lia.
    - unfold HISTOGRAM_LEN. lia.
    - exact Hz. }
  split; [|vm_compute; reflexivity].
  unfold percentile_gain_spec. rewrite Htot.
  change (20 =? 0) with false. cbv iota.
  replace (length twenty_windows) with (Z.to_nat HISTOGRAM_LEN) by lia.
  rewrite (spec_scan_skip twenty_windows 101).
  - vm_compute; reflexivity.
  - vm_compute; reflexivity.
  - unfold HISTOGRAM_LEN. lia.
  - exact Hz.
Qed.

(** Counterexample to C2 as stated: the histogram whose counts add up to
    [2 ^ 32], and the histogram of twenty windows. *)
Lemma percentile_scan_departs_twice :
  (total wrapping_histogram = 2 ^ 32 /\
   WAGetAlbumGain (with_album at_8000 wrapping_histogram)
   = GAIN_NOT_ENOUGH_SAMPLES /\
   percentile_gain_spec wrapping_histogram = gain_of_index 1 /\
   PrimFloat.eqb (gain_of_index 1) GAIN_NOT_ENOUGH_SAMPLES = false) /\
  (percentile_count 20 = 2 /\ exact_percentile_count 20 = 1 /\
   WAGetAlbumGain (with_album at_8000 twenty_windows) = gain_of_index 50 /\
   percentile_gain_spec twenty_windows = gain_of_index 100 /\
   PrimFloat.eqb (gain_of_index 50) (gain_of_index 100) = false).
Proof.
  exact (conj wrapped_total_gives_sentinel threshold_of_twenty_windows).
Qed.

Lemma gain_is_no_sentinel i :
  PrimFloat.eqb (gain_of_index i) GAIN_NOT_ENOUGH_SAMPLES = false ->
  gain_of_index i <> GAIN_NOT_ENOUGH_SAMPLES.
Proof.
  intros H E. rewrite E in H. vm_compute in H. discriminate H.
Qed.

(** Witness of C10 (amended): the title of thirty windows and the album
    of forty-one; neither query returns the sentinel. *)
Lemma gain_range_of_title_in_album :
  (exists i, 0 <= i <= 11999 /\
     scan_down (A title_in_album) (Z.to_nat HISTOGRAM_LEN)
       (percentile_count (total (A title_in_album))) = i /\
     fst (WAGetTitleGain title_in_album) = gain_of_index i /\
     PrimFloat.leb lowest_gain (fst (WAGetTitleGain title_in_album)) = true /\
     PrimFloat.leb (fst (WAGetTitleGain title_in_album)) highest_gain = true)
  /\
  (exists i, 0 <= i <= 11999 /\
     scan_down (B title_in_album) (Z.to_nat HISTOGRAM_LEN)
       (percentile_count (total (B title_in_album))) = i /\
     WAGetAlbumGain title_in_album = gain_of_index i /\
     PrimFloat.leb lowest_gain (WAGetAlbumGain title_in_album) = true /\
     PrimFloat.leb (WAGetAlbumGain title_in_album) highest_gain = true).
Proof.
  destruct (gain_result_range title_in_album
              (proj1 title_in_album_unwrapped)
              (proj2 title_in_album_unwrapped)) as [HT HB].
  destruct title_in_album_gains as [ET EB].
  split.
  - apply HT. rewrite ET. apply gain_is_no_sentinel. vm_compute; reflexivity.
  - apply HB. rewrite EB. apply gain_is_no_sentinel. vm_compute; reflexivity.
Defined.

(** Counterexample to C10 as stated: an album histogram with
    [2 ^ 32 - 1] windows in one bucket.  The running value of the scan,
    an [Int32_t], wraps at that bucket and stays positive, no bucket stops
    the scan, [i] leaves the loop as [SIZE_MAX], and the value returned is
    neither the sentinel nor in the range of the buckets. *)
Lemma saturated_bucket_escapes_scan :
  scan_down saturated_histogram (Z.to_nat HISTOGRAM_LEN)
    (percentile_count (2 ^ 32 - 1)) = SIZE_MAX /\
  WAGetAlbumGain (with_album at_8000 saturated_histogram)
  = gain_of_index SIZE_MAX /\
  PrimFloat.eqb (gain_of_index SIZE_MAX) GAIN_NOT_ENOUGH_SAMPLES = false /\
  PrimFloat.ltb (gain_of_index SIZE_MAX) (gain_of_index 11999) = true.
Proof.
  assert (Hp : percentile_count (2 ^ 32 - 1) = 214748365)
    by (vm_compute; reflexivity).
  assert (Hlen : Z.of_nat (length saturated_histogram) = HISTOGRAM_LEN)
    by (unfold saturated_histogram;
        rewrite length_store; apply length_zero_histogram).
  assert (Htot : total saturated_histogram = 2 ^ 32 - 1).
  { unfold saturated_histogram. rewrite total_store.
    - rewrite total_zero_histogram, load_zero_histogram. reflexivity.
    - rewrite length_zero_histogram. unfold HISTOGRAM_LEN. lia. }
  assert (Hscan : scan_down saturated_histogram (Z.to_nat HISTOGRAM_LEN)
                    (percentile_count (2 ^ 32 - 1)) = SIZE_MAX).
  { rewrite Hp. rewrite (scan_down_skip saturated_histogram 6).
    - vm_compute; reflexivity.
    - lia.
    - unfold HISTOGRAM_LEN. lia.
    - intros j Hj. unfold saturated_histogram.
      rewrite load_store_neq by lia. apply load_zero_histogram. }
  split; [exact Hscan|].
  split.
  { unfold WAGetAlbumGain, with_album; fields.
    apply (analyzeResult_stops _ (2 ^ 32 - 1) 214748365 SIZE_MAX Hlen Htot);
      [discriminate|exact Hp|].
    rewrite <- Hp. exact Hscan. }
  split; vm_compute; reflexivity.
Qed.

(** *** One stream, whole and in chunks *)




(** The same effect on silence, where it stays below the resolution of
    the histogram: twenty-six samples fed in one call and fed as ten
    samples and then sixteen leave different sums of squares.  The call
    with sixteen samples adds them up as one block before it adds the
    block to the sum, the call with twenty-six adds ten of them one by
    one. *)
Lemma chunked_silence_changes_sum :
  feed at_8000 (all_left silence_in_two) (all_right silence_in_two) 1
  = Some (GAIN_ANALYSIS_OK, silence_whole) /\
  feed_chunks at_8000 silence_in_two 1
  = Some (GAIN_ANALYSIS_OK, silence_split) /\
  PrimFloat.ltb (lsum silence_split) (lsum silence_whole) = true.
Proof.
  split; [apply call_of_status; vm_compute; reflexivity|].
  split; [apply call_of_status; vm_compute; reflexivity|].
  vm_compute; reflexivity.
Qed.

End Runs.

(** ** Concrete runs on exact rational arithmetic *)

Section RationalRuns.
#[local] Existing Instance Exact.rational.
Import RationalSamples.

Lemma rational_window_law : window_law.
Proof.
  unfold window_law, supported_rates; cbn [In]; intros rate H.
  repeat (destruct H as [<-|H]; [vm_compute; reflexivity|]).
  contradiction.
Qed.

Lemma rational_blank_well_sized : well_sized blank_context.
Proof. repeat split; vm_compute; reflexivity. Qed.

Lemma rational_at_8000_ready : ready at_8000.
Proof.
  apply (init_ready blank_context 8000 INIT_GAIN_ANALYSIS_OK at_8000).
  - exact rational_window_law.
  - exact rational_blank_well_sized.
  - discriminate.
  - lia.
  - apply pair_of_status. rewrite init_status_of. reflexivity.
Qed.

(** Five mono samples in chunks of three and two, on exact rational
    arithmetic, whose addition is associative: the two contexts have the
    same sums and the same title gain as well. *)
Lemma chunking_on_rationals :
  exists whole split,
    feed at_8000 (all_left five_in_two) (all_right five_in_two) 1
    = Some (GAIN_ANALYSIS_OK, whole)
    /\ feed_chunks at_8000 five_in_two 1 = Some (GAIN_ANALYSIS_OK, split)
    /\ same_filter_state whole split
    /\ WAGetAlbumGain whole = WAGetAlbumGain split
    /\ same_but_staging whole split
    /\ fst (WAGetTitleGain whole) = fst (WAGetTitleGain split)
    /\ WAGetAlbumGain (snd (WAGetTitleGain whole))
       = WAGetAlbumGain (snd (WAGetTitleGain split)).
Proof.
  destruct (chunking_views at_8000 five_in_two 1)
    as (whole & split & Ew & Es & Hf & Ha & Hsum).
  - exact rational_at_8000_ready.
  - left; reflexivity.
  - repeat constructor; intros H; discriminate H.
  - vm_compute; reflexivity.
  - exists whole, split.
    destruct (Hsum Qcplus_assoc) as (Hs & Ht & Hta).
    exact (conj Ew (conj Es (conj Hf (conj Ha (conj Hs (conj Ht Hta)))))).
Defined.

End RationalRuns.

(* ------------------------------------------------------------------ *)
(** ** Concrete runs for the further properties *)

Section ExtraRuns.
#[local] Existing Instance IEEE.binary64.
Import Samples ExtraSamples.

(** Witness of X1: three windows in bucket 5. *)
Lemma percentile_of_three_windows :
  exists i,
    0 <= i < HISTOGRAM_LEN /\
    analyzeResult three_windows HISTOGRAM_LEN = gain_of_index i /\
    range_total three_windows (i + 1) (Z.to_nat (HISTOGRAM_LEN - 1 - i))
    < percentile_count (total three_windows) /\
    percentile_count (total three_windows)
    <= range_total three_windows i (Z.to_nat (HISTOGRAM_LEN - i)).
Proof.
  assert (Ht : total three_windows = 3).
  { unfold three_windows. rewrite total_store.
    - rewrite total_zero_histogram, load_zero_histogram. reflexivity.
    - rewrite length_zero_histogram. unfold HISTOGRAM_LEN. lia. }
  apply (percentile_bucket three_windows).
  - split; [|split].
    + unfold three_windows. rewrite length_store, length_zero_histogram.
      reflexivity.
    + unfold three_windows. apply counters_store;
        [apply counters_zero_histogram|lia].
    + rewrite Ht. lia.
  - rewrite Ht. discriminate.
  - rewrite Ht. vm_compute. split; discriminate.
Defined.

(** Witness of X2: the initialisation at 8000 Hz of a zero-filled
    block. *)
Lemma init_at_8000_leaves_no_data :
  (A at_8000 = zero_histogram /\ B at_8000 = zero_histogram) /\
  (fst (WAGetTitleGain at_8000) = GAIN_NOT_ENOUGH_SAMPLES /\
   WAGetAlbumGain at_8000 = GAIN_NOT_ENOUGH_SAMPLES) /\
  (totsamp at_8000 = 0 /\ lsum at_8000 = dlit 0 /\ rsum at_8000 = dlit 0) /\
  (linpre at_8000 = MAX_ORDER /\ lstep at_8000 = MAX_ORDER /\
   lout at_8000 = MAX_ORDER /\ rinpre at_8000 = MAX_ORDER /\
   rstep at_8000 = MAX_ORDER /\ rout at_8000 = MAX_ORDER) /\
  history_cleared (WACreateRGContext fresh) at_8000 /\
  sampleWindow at_8000 = window_samples 8000 /\
  freqindex_of 8000 = Some (freqindex at_8000).
Proof.
  apply (init_leaves_no_data (WACreateRGContext fresh) 8000 at_8000).
  exact init_8000.
Defined.

Lemma reset_at_44100 :
  WAResetSampleFrequency at_8000 44100
  = (INIT_GAIN_ANALYSIS_OK, snd (WAResetSampleFrequency at_8000 44100)).
Proof. apply pair_of_status. rewrite reset_status. reflexivity. Qed.

(** Witness of X3: the context initialised at 8000 Hz is switched to
    44100 Hz. *)
Lemma reset_to_44100_keeps_album :
  let rg := at_8000 in
  let rg' := snd (WAResetSampleFrequency at_8000 44100) in
  (B rg' = B rg /\ WAGetAlbumGain rg' = WAGetAlbumGain rg) /\
  (A rg' = zero_histogram /\
   fst (WAGetTitleGain rg') = GAIN_NOT_ENOUGH_SAMPLES) /\
  (totsamp rg' = 0 /\ lsum rg' = dlit 0 /\ rsum rg' = dlit 0) /\
  (linpre rg' = linpre rg /\ lstep rg' = lstep rg /\ lout rg' = lout rg /\
   rinpre rg' = rinpre rg /\ rstep rg' = rstep rg /\ rout rg' = rout rg) /\
  history_cleared rg rg' /\
  sampleWindow rg' = window_samples 44100 /\
  freqindex_of 44100 = Some (freqindex rg') /\
  (window_law -> - 2 ^ 31 <= 44100 < 2 ^ 31 -> ready rg -> ready rg').
Proof.
  apply (reset_keeps_album at_8000 44100). exact reset_at_44100.
Defined.

(** Witness of X4: two title queries on the context initialised at
    8000 Hz. *)
Lemma second_title_query_at_8000 :
  WAGetTitleGain (snd (WAGetTitleGain at_8000))
  = (GAIN_NOT_ENOUGH_SAMPLES, snd (WAGetTitleGain at_8000)).
Proof.
  apply (title_query_idempotent at_8000). exact at_8000_well_sized.
Defined.

(** Witness of X5: a thousand samples at 8000 Hz, where a window has 400
    samples, complete two windows and leave 200 samples. *)
Lemma thousand_samples_at_8000 :
  exists rg',
    WAAnalyzeSamples 1001 at_8000 (silence 1000) [] 1000 1 = Some (GAIN_ANALYSIS_OK, rg')
    /\ totsamp rg' = 200 /\ total (A rg') = 2 /\ counters (A rg').
Proof.
  destruct at_8000_empty as (HA & Ht & Hw).
  destruct (windows_counted 1001 at_8000 (silence 1000) [] 1000 1)
    as (rg' & E & Ht' & HA' & Hc').
  - exact at_8000_ready.
  - rewrite HA. apply counters_zero_histogram.
  - left; reflexivity.
  - lia.
  - rewrite HA, Ht, Hw, total_zero_histogram. reflexivity.
  - lia.
  - exists rg'. rewrite HA, Ht, Hw, total_zero_histogram in *.
    exact (conj E (conj Ht' (conj HA' Hc'))).
Defined.

(** Witness of X6: five samples through the order-10 filter of 8000 Hz,
    into a delay line of fifteen entries. *)
Lemma yule_on_ramp :
  let filtered := filterYule ramp 10 delay_line 10 5 (ABYule 11) in
  length filtered = length delay_line /\
  (forall j, 0 <= j < Z.of_nat 5 ->
     load Fzero filtered (10 + j)
     = yule_sample ramp (10 + j) filtered (10 + j) (ABYule 11)) /\
  (forall i, i < 10 \/ 10 + Z.of_nat 5 <= i ->
     load Fzero filtered i = load Fzero delay_line i).
Proof.
  apply (filterYule_recurrence ramp 10 delay_line 10 5 (ABYule 11)).
  - lia.
  - vm_compute. discriminate.
Defined.

(** Witness of X7: the same through the order-2 filter. *)
Lemma butter_on_ramp :
  let filtered := filterButter ramp 10 delay_line 10 5 (ABButter 11) in
  length filtered = length delay_line /\
  (forall j, 0 <= j < Z.of_nat 5 ->
     load Fzero filtered (10 + j)
     = butter_sample ramp (10 + j) filtered (10 + j) (ABButter 11)) /\
  (forall i, i < 10 \/ 10 + Z.of_nat 5 <= i ->
     load Fzero filtered i = load Fzero delay_line i).
Proof.
  apply (filterButter_recurrence ramp 10 delay_line 10 5 (ABButter 11)).
  - lia.
  - vm_compute. discriminate.
Defined.

(** Witness of X9: the first batch of a call with 1000 samples on the
    context initialised at 8000 Hz. *)
Lemma first_batch_in_bounds :
  let rg := at_8000 in
  let c := batch_size rg 1000 0 in
  let num_samples := 0 + 1000 in
  (1 <= c <= 1000 /\ totsamp rg + c <= sampleWindow rg) /\
  (if 0 <? MAX_ORDER
   then 0 <= linpre rg + 0 - MAX_ORDER /\
        linpre rg + 0 + c
        <= MAX_ORDER + Z.min num_samples MAX_ORDER
        <= Z.of_nat (length (linprebuf rg)) /\
        0 <= rinpre rg + 0 - MAX_ORDER /\
        rinpre rg + 0 + c
        <= MAX_ORDER + Z.min num_samples MAX_ORDER
        <= Z.of_nat (length (rinprebuf rg))
   else 0 <= 0 - MAX_ORDER /\ 0 + c <= num_samples) /\
  (0 <= lstep rg + totsamp rg - MAX_ORDER /\
   lstep rg + totsamp rg + c <= Z.of_nat (length (lstepbuf rg)) /\
   0 <= rstep rg + totsamp rg - MAX_ORDER /\
   rstep rg + totsamp rg + c <= Z.of_nat (length (rstepbuf rg))) /\
  (0 <= lout rg + totsamp rg - MAX_ORDER /\
   lout rg + totsamp rg + c <= Z.of_nat (length (loutbuf rg)) /\
   0 <= rout rg + totsamp rg - MAX_ORDER /\
   rout rg + totsamp rg + c <= Z.of_nat (length (routbuf rg))) /\
  (sampleWindow rg + MAX_ORDER <= Z.of_nat (length (lstepbuf rg)) /\
   sampleWindow rg + MAX_ORDER <= Z.of_nat (length (loutbuf rg)) /\
   sampleWindow rg + MAX_ORDER <= Z.of_nat (length (rstepbuf rg)) /\
   sampleWindow rg + MAX_ORDER <= Z.of_nat (length (routbuf rg))).
Proof.
  apply (batch_in_bounds at_8000 1000 0).
  - exact at_8000_ready.
  - lia.
  - lia.
Defined.

(** Witness of X10: three samples of silence at 8000 Hz. *)
Lemma history_after_three_samples :
  exists rg',
    feed at_8000 (silence 3) [] 1 = Some (GAIN_ANALYSIS_OK, rg') /\
    history (linprebuf rg')
    = slice Fzero (history (linprebuf at_8000) ++ silence 3)
        (Z.of_nat (length (silence 3))) (Z.to_nat MAX_ORDER) /\
    history (rinprebuf rg')
    = slice Fzero (history (rinprebuf at_8000) ++ right_of 1 (silence 3) [])
        (Z.of_nat (length (silence 3))) (Z.to_nat MAX_ORDER).
Proof.
  apply (history_is_stream_tail at_8000 (silence 3) [] 1).
  - exact at_8000_ready.
  - discriminate.
  - vm_compute. reflexivity.
  - left; reflexivity.
Defined.

Lemma after_silence_ready : ready after_silence.
Proof.
  destruct (feed_ready 401 at_8000 (silence 400) [] 400 1 at_8000_ready
              ltac:(lia)) as (H & _).
  exact (proj1 (H _ _ feed_silence)).
Qed.

Lemma after_silence_configuration :
  same_configuration at_8000 after_silence.
Proof. exact (proj1 (feed_frame _ _ _ _ _ _ _ _ feed_silence)). Qed.

(** Witness of X11: a context that has analysed a window of silence and
    one that has analysed nothing, both asked for the title gain and then
    fed three samples. *)
Lemma next_title_after_silence :
  exists a' b',
    feed_chunks (snd (WAGetTitleGain at_8000)) [(silence 3, [])] 1
    = Some (GAIN_ANALYSIS_OK, a')
    /\ feed_chunks (snd (WAGetTitleGain after_silence)) [(silence 3, [])] 1
       = Some (GAIN_ANALYSIS_OK, b')
    /\ same_title_state a' b'
    /\ fst (WAGetTitleGain a') = fst (WAGetTitleGain b').
Proof.
  assert (Hall : Forall (fun c : list Float_t * list Float_t =>
                           Z.of_nat (length (fst c)) < 2 ^ 32)
                   [(silence 3, [])])
    by (repeat constructor).
  destruct (view_feed_chunks filter_state filter_state_control
              filter_state_batch filter_state_set_inpre filter_state_split
              [(silence 3, [])] 1 (snd (WAGetTitleGain at_8000))
              (title_ready _ at_8000_ready) (or_introl eq_refl) Hall)
    as (a' & Ea & _).
  destruct (titles_are_independent at_8000 after_silence [(silence 3, [])] 1
              GAIN_ANALYSIS_OK a' at_8000_ready after_silence_ready
              after_silence_configuration Hall Ea) as (b' & Eb & Hs & Hg).
  exists a', b'. exact (conj Ea (conj Eb (conj Hs Hg))).
Defined.

(** Witness of X13: the title query after one window of silence. *)
Lemma title_query_moves_the_window :
  total (B (snd (WAGetTitleGain after_silence)))
  = total (B after_silence) + total (A after_silence) /\
  total (A (snd (WAGetTitleGain after_silence))) = 0 /\
  counters (B (snd (WAGetTitleGain after_silence))).
Proof.
  destruct after_silence_title_unwrapped as (_ & Hca & Hta).
  destruct after_silence_album_unwrapped as (_ & Hcb & Htb).
  apply (title_query_conserves_windows after_silence).
  - exact (proj1 after_silence_ready).
  - exact Hca.
  - exact Hcb.
  - lia.
Defined.

(** Witness of X14: a thousand samples at 8000 Hz fill two windows, and
    the title query answers with the gain of a bucket. *)
Lemma title_gain_after_thousand_samples :
  exists rg',
    WAAnalyzeSamples 1001 at_8000 (silence 1000) [] 1000 1
    = Some (GAIN_ANALYSIS_OK, rg')
    /\ exists i, 0 <= i < HISTOGRAM_LEN /\
                 fst (WAGetTitleGain rg') = gain_of_index i.
Proof.
  destruct at_8000_empty as (HA & Ht & Hw).
  destruct (title_gain_needs_a_window 1001 at_8000 (silence 1000) [] 1000 1)
    as (rg' & E & _ & Hfull).
  - exact at_8000_ready.
  - exact HA.
  - left; reflexivity.
  - lia.
  - lia.
  - exists rg'. split; [exact E|].
    rewrite Ht, Hw in Hfull. apply Hfull.
    + lia.
    + reflexivity.
    + vm_compute. split; discriminate.
Defined.

End ExtraRuns.
